(** * Plugin lifecycle, registry, loader and event bus of plugins-service

    A shallow embedding of the plugin core:
    - the typed event bus, [TypedEventEmitter]
      ([src/shared/events/index.ts]);
    - the registry and the lifecycle manager, [PluginRegistryImpl] and
      [LifecycleManager] (module [core/lifecycle-manager], the third part of
      [unnamed/part_000]);
    - the loader, [validateMetadata], [loadPluginFromDirectory] and
      [PluginLoader] (module [core/plugin-loader], the second part of
      [src/core/types.ts], after the type declarations);
    - the error classes [PluginLoadError] and [PluginLifecycleError]
      ([src/common/errors/index.ts]).

    The code is asynchronous but strictly sequential (every hook is awaited
    before the next statement runs), so it is written here in a state and
    exception monad over an explicit [World]: the object store holding the
    [PluginInstance] objects, the registry [Map], the listener table of the
    bus and the history of observable effects. *)

From stdpp Require Import base option list strings.

Set Default Proof Using "Type".
Open Scope string_scope.
Open Scope list_scope.

(** ** Thrown values and the error classes *)

Inductive ErrorCode := PLUGIN_LOAD_ERROR | PLUGIN_LIFECYCLE_ERROR.

(** What a [throw] (or a rejected promise) carries.  JavaScript throws any
    value:
    - an [AppError] of the repository;
    - a [TypeError] raised by the runtime;
    - any other [Error] instance (SyntaxError of [JSON.parse], a file-system
      error, an error raised by plugin code); the message of an [Error]
      object is a string, as the [Error] constructor makes it;
    - [null] or [undefined];
    - any other value that is no [Error] (a string, a number, a plain
      object, ...).  Of such a value the code uses two things.  [repr] is
      what [String(value)] does: it answers a string, or it throws (a
      [TypeError] for an object without [toString], as
      [Object.create(null)], or whatever a [toString] of its own throws).
      [message] is what reading the property [message] and rendering it in a
      template literal does: [None] when the value has no such property (it
      reads as [undefined]), [Some (inl m)] when it renders as [m],
      [Some (inr e)] when reading or rendering it throws [e]. *)
#[local] Set Warnings "-register-all".
Inductive Thrown :=
| AppError (code : ErrorCode) (message : string)
| TypeError (message : string)
| JsError (message : string)
| JsNull
| JsUndefined
| NonError (repr : string + Thrown) (message : option (string + Thrown)).

(** How a computation ends: it returns a value or it throws. *)
Inductive Outcome (A : Type) :=
| Returned (a : A)
| Threw (e : Thrown).
Arguments Returned {A} a.
Arguments Threw {A} e.

(** [(error as Error).message], evaluated in a [catch] block as the argument
    of an error constructor: the cast does nothing at run time.  On [null]
    and [undefined] the property access throws a [TypeError] (the messages
    are those of V8); on a value without the property it answers
    [undefined], which makes the constructor take its default message. *)
Definition message_of (error : Thrown) : Outcome (option string) :=
  match error with
  | AppError _ m | TypeError m | JsError m => Returned (Some m)
  | JsNull => Threw (TypeError "Cannot read properties of null (reading 'message')")
  | JsUndefined =>
      Threw (TypeError "Cannot read properties of undefined (reading 'message')")
  | NonError _ None => Returned None
  | NonError _ (Some (inl m)) => Returned (Some m)
  | NonError _ (Some (inr e)) => Threw e
  end.

(** [error instanceof Error] *)
Definition instanceof_Error (error : Thrown) : bool :=
  match error with
  | AppError _ _ | TypeError _ | JsError _ => true
  | JsNull | JsUndefined | NonError _ _ => false
  end.

(** [error instanceof Error ? error : new Error(String(error))]: the
    conversion [String(error)] can throw. *)
Definition as_Error (error : Thrown) : Outcome Thrown :=
  match error with
  | AppError _ _ | TypeError _ | JsError _ => Returned error
  | JsNull => Returned (JsError "null")
  | JsUndefined => Returned (JsError "undefined")
  | NonError (inl s) _ => Returned (JsError s)
  | NonError (inr e) _ => Threw e
  end.

(** What leaves a [catch] block of the form
    [throw new C(..., (error as Error).message)]: the new error, unless
    reading the message throws first. *)
Definition rethrown (C : option string → Thrown) (error : Thrown) : Thrown :=
  match message_of error with
  | Returned message => C message
  | Threw e => e
  end.

(** [class PluginLoadError]: the message parameter defaults to
    ['Failed to load plugin'] when the argument is [undefined]. *)
Definition PluginLoadError (pluginName : string) (message : option string) : Thrown :=
  AppError PLUGIN_LOAD_ERROR
    (default "Failed to load plugin" message +:+ ": " +:+ pluginName).

(** [class PluginLifecycleError] *)
Definition PluginLifecycleError (pluginName hook : string) (message : option string) : Thrown :=
  AppError PLUGIN_LIFECYCLE_ERROR
    (default "Lifecycle hook failed" message +:+ " (" +:+ hook +:+ "): " +:+ pluginName).

(** ** Data model ([src/core/types.ts]) *)

Inductive PluginState := UNLOADED | LOADED | ENABLED | DISABLED | ERROR.

#[global] Instance PluginState_eq_dec : EqDecision PluginState.
Proof. solve_decision. Defined.

Definition Path := list string.

Record PluginMetadata := {
  md_name : string;
  md_version : string;
  md_description : option string;
  md_enabled : bool;
  md_author : option string;
}.

(** The handles [db], [cache] and [events] are process-wide singletons; what
    differs per plugin is the logger binding and the metadata. *)
Record PluginContext := {
  ctx_logger : string;
  ctx_config : PluginMetadata;
}.

Inductive HookName := onLoad | onEnable | onDisable | onUnload.

#[global] Instance HookName_eq_dec : EqDecision HookName.
Proof. solve_decision. Defined.

Definition hook_label (h : HookName) : string :=
  match h with
  | onLoad => "onLoad"
  | onEnable => "onEnable"
  | onDisable => "onDisable"
  | onUnload => "onUnload"
  end.

Record Event := {
  ev_name : string;
  ev_payload : list (string * string);
}.

#[global] Instance Event_eq_dec : EqDecision Event.
Proof. solve_decision. Defined.

Inductive LogLevel := LogInfo | LogWarn | LogError.

#[global] Instance LogLevel_eq_dec : EqDecision LogLevel.
Proof. solve_decision. Defined.

Inductive Operation := OpLoad | OpEnable | OpDisable | OpUnload | OpDiscover.

#[global] Instance Operation_eq_dec : EqDecision Operation.
Proof. solve_decision. Defined.

(** The history of observable effects, oldest first.  [Invoked] is a history
    variable recording the entry into an operation of the lifecycle manager
    (or, for [OpDiscover], into [loadPluginFromDirectory]). *)
Inductive TraceItem :=
| Invoked (op : Operation) (subject : string)
| HookRun (plugin : string) (h : HookName)
| Emitted (e : Event)
| Delivered (listener : nat) (e : Event)
| Logged (lvl : LogLevel) (msg : string) (subject : string).

#[global] Instance TraceItem_eq_dec : EqDecision TraceItem.
Proof. solve_decision. Defined.

Definition Trace := list TraceItem.

(** A lifecycle hook is plugin code.  It is given the context and may behave
    differently from one call to the next, so its outcome is a function of the
    context and of the history so far: [None] when the promise resolves,
    [Some e] when it rejects with [e].  A hook acts on the world through its
    outcome only: it does not call back into the lifecycle manager (at most
    one lifecycle operation is in flight) and what it does to the bus is not
    part of the model. *)
Definition Hook := PluginContext → Trace → option Thrown.

Record Plugin := {
  pl_name : string;
  pl_version : string;
  pl_onLoad : option Hook;
  pl_onEnable : option Hook;
  pl_onDisable : option Hook;
  pl_onUnload : option Hook;
}.

Definition hook_of (p : Plugin) (h : HookName) : option Hook :=
  match h with
  | onLoad => pl_onLoad p
  | onEnable => pl_onEnable p
  | onDisable => pl_onDisable p
  | onUnload => pl_onUnload p
  end.

Record PluginInstance := {
  plugin : Plugin;
  metadata : PluginMetadata;
  context : PluginContext;
  state : PluginState;
  path : Path;
}.

Definition with_state (s : PluginState) (i : PluginInstance) : PluginInstance :=
  {| plugin := plugin i; metadata := metadata i; context := context i;
     state := s; path := path i |}.

(** ** [Map<string, V>]: insertion-ordered, one entry per key *)

Module JsMap.
Section Ops.
Context {V : Type}.

Definition t := list (string * V).

Fixpoint get (k : string) (m : list (string * V)) : option V :=
      match m with
      | [] => None
      | (k', v) :: m' => if decide (k' = k) then Some v else get k m'
      end.

Definition has (k : string) (m : list (string * V)) : bool :=
      bool_decide (is_Some (get k m)).

    (** [set] on a present key replaces the value where it stands; a new key
        goes last. *)
Fixpoint set (k : string) (v : V) (m : list (string * V)) : list (string * V) :=
      match m with
      | [] => [(k, v)]
      | (k', v') :: m' =>
          if decide (k' = k) then (k, v) :: m' else (k', v') :: set k v m'
      end.

    (** [delete] drops the entry of the key (there is at most one) and
        answers whether there was one. *)
Definition remove (k : string) (m : list (string * V)) : list (string * V) :=
      filter (λ kv, kv.1 ≠ k) m.

Definition delete (k : string) (m : list (string * V)) : bool * list (string * V) :=
      (has k m, remove k m).

Definition values (m : list (string * V)) : list V := m.*2.
Definition keys (m : list (string * V)) : list string := m.*1.
End Ops.
End JsMap.

(** ** The world *)

(** A registration on the bus: [l_id] is the identity of the listener
    function (the same function can be registered more than once), [l_once]
    tells a one-shot registration, [l_run] is [None] when the listener
    returns and [Some e] when it throws [e]. *)
Record Listener := {
  l_id : nat;
  l_once : bool;
  l_run : Event → option Thrown;
}.

Record World := {
  heap : list PluginInstance;          (* PluginInstance objects, by reference *)
  plugins : list (string * nat);       (* PluginRegistryImpl.plugins *)
  listeners : list (string * Listener);(* listener table of pluginEvents *)
  trace : Trace;
}.

Definition set_heap (h : list PluginInstance) (w : World) : World :=
  {| heap := h; plugins := plugins w; listeners := listeners w; trace := trace w |}.
Definition set_plugins (p : list (string * nat)) (w : World) : World :=
  {| heap := heap w; plugins := p; listeners := listeners w; trace := trace w |}.
Definition set_listeners (l : list (string * Listener)) (w : World) : World :=
  {| heap := heap w; plugins := plugins w; listeners := l; trace := trace w |}.
Definition set_trace (t : Trace) (w : World) : World :=
  {| heap := heap w; plugins := plugins w; listeners := listeners w; trace := t |}.

(** ** State and exception monad *)

Definition M (A : Type) : Type := World → Outcome A * World.

Definition ret {A} (a : A) : M A := λ w, (Returned a, w).
Definition throw {A} (e : Thrown) : M A := λ w, (Threw e, w).
Definition bind {A B} (c : M A) (k : A → M B) : M B :=
  λ w, match c w with
       | (Returned a, w') => k a w'
       | (Threw e, w') => (Threw e, w')
       end.
(** [try { c } catch (error) { h error }] *)
Definition try_catch {A} (c : M A) (h : Thrown → M A) : M A :=
  λ w, match c w with
       | (Returned a, w') => (Returned a, w')
       | (Threw e, w') => h e w'
       end.
Definition gets {A} (f : World → A) : M A := λ w, (Returned (f w), w).
(** A computation that does not touch the world. *)
Definition lift {A} (o : Outcome A) : M A := λ w, (o, w).
Definition modify (f : World → World) : M unit := λ w, (Returned tt, f w).

Declare Scope js_scope.
Delimit Scope js_scope with js.
Notation "'let*' x ':=' c 'in' k" := (bind c (λ x, k))
  (at level 10, x name, c at level 100, k at level 200) : js_scope.
Notation "'let*' ' p ':=' c 'in' k" := (bind c (λ x, match x with p => k end))
  (at level 10, p pattern, c at level 100, k at level 200) : js_scope.
Notation "c >> k" := (bind c (λ _, k))
  (at level 100, k at level 200, right associativity) : js_scope.
Open Scope js_scope.

Definition record (i : TraceItem) : M unit :=
  modify (λ w, set_trace (trace w ++ [i]) w).

(** [logger.info / warn / error]: never throws. *)
Definition log (lvl : LogLevel) (msg subject : string) : M unit :=
  record (Logged lvl msg subject).

(** A caller that has the reference [r] writes [instance.state = s]. *)
Definition set_state (r : nat) (s : PluginState) : M unit :=
  modify (λ w, set_heap (alter (with_state s) r (heap w)) w).

(** [new]: a fresh object, whose reference is the next free index. *)
Definition alloc (i : PluginInstance) : M nat :=
  λ w, (Returned (length (heap w)), set_heap (heap w ++ [i]) w).

(** ** Event bus ([src/shared/events/index.ts], over Node's EventEmitter) *)

Definition listeners_of (event : string) (w : World) : list Listener :=
  (filter (λ kl, kl.1 = event) (listeners w)).*2.

(** The list without its first, and without its last, element that
    satisfies [P]. *)
Fixpoint remove_first {A} (P : A → Prop) `{∀ x, Decision (P x)} (l : list A) : list A :=
  match l with
  | [] => []
  | x :: l' => if decide (P x) then l' else x :: remove_first P l'
  end.

Definition remove_last {A} (P : A → Prop) `{∀ x, Decision (P x)} (l : list A) : list A :=
  reverse (remove_first P (reverse l)).

(** [EventEmitter.removeListener(event, listener)]: it removes at most one
    registration, the most recently added one of the listener for the event,
    one-shot or not. *)
Definition removeListener (event : string) (id : nat) : M unit :=
  modify (λ w, set_listeners
    (remove_last (λ kl, kl.1 = event ∧ l_id kl.2 = id) (listeners w)) w).

(** What the wrapper of a one-shot registration does when it is called,
    [this.target.removeListener(this.type, this.wrapFn)]: it removes itself.
    Among the one-shot registrations of the same listener for the event, the
    one being called is the first that is still in the table: the emission
    calls them in order and those before it removed themselves. *)
Definition removeWrapper (event : string) (id : nat) : M unit :=
  modify (λ w, set_listeners
    (remove_first (λ kl, kl.1 = event ∧ l_id kl.2 = id ∧ l_once kl.2 = true)
       (listeners w)) w).

(** [on] and [once] append to the listeners of the event. *)
Definition onEvent (event : string) (id : nat) (f : Event → option Thrown) : M unit :=
  modify (λ w, set_listeners
    (listeners w ++ [(event, {| l_id := id; l_once := false; l_run := f |})]) w).
Definition onceEvent (event : string) (id : nat) (f : Event → option Thrown) : M unit :=
  modify (λ w, set_listeners
    (listeners w ++ [(event, {| l_id := id; l_once := true; l_run := f |})]) w).
Definition offEvent (event : string) (id : nat) : M unit :=
  removeListener event id.

(** [EventEmitter.emit] calls a copy of the listener array, in registration
    order and synchronously; a one-shot registration removes itself just
    before its listener is called; a listener that throws ends the emission, the exception leaves
    [emit], and the listeners after it are not called. *)
Fixpoint call_listeners (e : Event) (ls : list Listener) : M unit :=
  match ls with
  | [] => ret tt
  | l :: ls' =>
      (if l_once l then removeWrapper (ev_name e) (l_id l) else ret tt) >>
      record (Delivered (l_id l) e) >>
      match l_run l e with
      | Some err => throw err
      | None => call_listeners e ls'
      end
  end.

Definition emit (e : Event) : M bool :=
  let* ls := gets (listeners_of (ev_name e)) in
  match ls with
  | [] => ret false
  | _ => call_listeners e ls >> ret true
  end.

(** [TypedEventEmitter.emitEvent]: [return this.emit(event, payload)]. *)
Definition emitEvent (e : Event) : M bool :=
  record (Emitted e) >>
  emit e.

(** ** Plugin registry ([class PluginRegistryImpl]) *)

Module pluginRegistry.
  (** [get]: the instance object registered under [name], with its reference. *)
Definition get (name : string) (w : World) : option (nat * PluginInstance) :=
    r ← JsMap.get name (plugins w); i ← heap w !! r; Some (r, i).

Definition getAll (w : World) : list (nat * PluginInstance) :=
    omap (λ r, i ← heap w !! r; Some (r, i)) (JsMap.values (plugins w)).

Definition getEnabled (w : World) : list (nat * PluginInstance) :=
    filter (λ ri, state ri.2 = ENABLED) (getAll w).

Definition has (name : string) (w : World) : bool :=
    JsMap.has name (plugins w).

  (** [this.plugins.set(instance.metadata.name, instance)] *)
Definition register (r : nat) : M unit :=
    modify (λ w, match heap w !! r with
                 | Some i => set_plugins (JsMap.set (md_name (metadata i)) r (plugins w)) w
                 | None => w
                 end).

  (** [this.plugins.delete(name)] *)
Definition unregister (name : string) : M bool :=
    λ w, let '(removed, m) := JsMap.delete name (plugins w) in
         (Returned removed, set_plugins m w).
End pluginRegistry.

Definition createPluginContext (meta : PluginMetadata) : PluginContext :=
  {| ctx_logger := md_name meta; ctx_config := meta |}.

(** ** Lifecycle manager ([class LifecycleManager]) *)

(** [if (plugin.onX) { await plugin.onX(context); }] *)
Definition run_hook (name : string) (h : HookName) (p : Plugin) (ctx : PluginContext) : M unit :=
  match hook_of p h with
  | None => ret tt
  | Some f =>
      record (HookRun name h) >>
      let* history := gets trace in
      match f ctx history with
      | None => ret tt
      | Some e => throw e
      end
  end.

Definition plugin_loaded (name version : string) : Event :=
  {| ev_name := "plugin:loaded"; ev_payload := [("name", name); ("version", version)] |}.
Definition plugin_enabled (name : string) : Event :=
  {| ev_name := "plugin:enabled"; ev_payload := [("name", name)] |}.
Definition plugin_disabled (name : string) : Event :=
  {| ev_name := "plugin:disabled"; ev_payload := [("name", name)] |}.
Definition plugin_unloaded (name : string) : Event :=
  {| ev_name := "plugin:unloaded"; ev_payload := [("name", name)] |}.

(** [loadPlugin] answers the reference of the instance it created. *)
Definition loadPlugin (plug : Plugin) (meta : PluginMetadata) (pluginPath : Path) : M nat :=
  record (Invoked OpLoad (md_name meta)) >>
  let ctx := createPluginContext meta in
  let* instance := alloc {| plugin := plug; metadata := meta; context := ctx;
                            state := UNLOADED; path := pluginPath |} in
  try_catch
    (run_hook (md_name meta) onLoad plug ctx >>
     set_state instance LOADED >>
     pluginRegistry.register instance >>
     emitEvent (plugin_loaded (md_name meta) (md_version meta)) >>
     log LogInfo "Plugin loaded" (md_name meta) >>
     ret instance)
    (λ error,
     set_state instance ERROR >>
     let* message := lift (message_of error) in
     throw (PluginLoadError (md_name meta) message)).

Definition enablePlugin (name : string) : M unit :=
  record (Invoked OpEnable name) >>
  let* found := gets (pluginRegistry.get name) in
  match found with
  | None => throw (PluginLoadError name (Some "Plugin not found"))
  | Some (r, instance) =>
      if decide (state instance = ENABLED) then ret tt
      else
        try_catch
          (run_hook name onEnable (plugin instance) (context instance) >>
           set_state r ENABLED >>
           emitEvent (plugin_enabled name) >>
           log LogInfo "Plugin enabled" name)
          (λ error,
           set_state r ERROR >>
           let* message := lift (message_of error) in
           throw (PluginLifecycleError name "onEnable" message))
  end.

Definition disablePlugin (name : string) : M unit :=
  record (Invoked OpDisable name) >>
  let* found := gets (pluginRegistry.get name) in
  match found with
  | None => throw (PluginLoadError name (Some "Plugin not found"))
  | Some (r, instance) =>
      if decide (state instance = DISABLED ∨ state instance = LOADED) then ret tt
      else
        try_catch
          (run_hook name onDisable (plugin instance) (context instance) >>
           set_state r DISABLED >>
           emitEvent (plugin_disabled name) >>
           log LogInfo "Plugin disabled" name)
          (λ error,
           set_state r ERROR >>
           let* message := lift (message_of error) in
           throw (PluginLifecycleError name "onDisable" message))
  end.

Definition unloadPlugin (name : string) : M unit :=
  record (Invoked OpUnload name) >>
  let* found := gets (pluginRegistry.get name) in
  match found with
  | None => ret tt
  | Some (r, instance) =>
      try_catch
        ((if decide (state instance = ENABLED) then disablePlugin name else ret tt) >>
         run_hook name onUnload (plugin instance) (context instance) >>
         set_state r UNLOADED >>
         pluginRegistry.unregister name >>
         emitEvent (plugin_unloaded name) >>
         log LogInfo "Plugin unloaded" name)
        (λ error,
         set_state r ERROR >>
         let* message := lift (message_of error) in
         throw (PluginLifecycleError name "onUnload" message))
  end.

(** [for (const x of xs) { body }] *)
Fixpoint for_of {A} (xs : list A) (body : A → M unit) : M unit :=
  match xs with
  | [] => ret tt
  | x :: xs' => body x >> for_of xs' body
  end.

Definition unloadAllPlugins : M unit :=
  let* all := gets pluginRegistry.getAll in
  for_of (reverse all) (λ ri,
    let name := md_name (metadata ri.2) in
    try_catch (unloadPlugin name)
      (λ error, log LogError "Error unloading plugin during shutdown" name)).

Definition getPluginStatus (name : string) (w : World) : option (PluginState * PluginMetadata) :=
  ri ← pluginRegistry.get name w; Some (state ri.2, metadata ri.2).

Definition getAllPluginStatuses (w : World) : list (string * PluginState * string) :=
  (λ ri, (md_name (metadata ri.2), state ri.2, md_version (metadata ri.2)))
    <$> pluginRegistry.getAll w.

(** ** Plugin loader ([src/core/plugin-loader.ts]) *)

(** The value [JSON.parse] answers. *)
#[local] Set Warnings "-register-all".
Inductive JsValue :=
| JNull
| JBool (b : bool)
| JNumber (literal : string)
| JString (s : string)
| JArray (items : list JsValue)
| JObject (props : list (string * JsValue)).   (* own properties, one entry per key *)

(** [!metadata || typeof metadata !== 'object'] is false exactly on arrays
    and objects ([null] is falsy, the other values have another [typeof]). *)
Definition is_object (v : JsValue) : bool :=
  match v with
  | JArray _ | JObject _ => true
  | _ => false
  end.

(** [meta.key], [None] for [undefined].  An array owns none of the keys the
    loader reads. *)
Definition get_prop (v : JsValue) (key : string) : option JsValue :=
  match v with
  | JObject props => JsMap.get key props
  | _ => None
  end.

(** [typeof x === 'string' ? x : undefined] *)
Definition string_or_undefined (x : option JsValue) : option string :=
  match x with
  | Some (JString s) => Some s
  | _ => None
  end.

(** [x !== false] *)
Definition not_false (x : option JsValue) : bool :=
  match x with
  | Some (JBool false) => false
  | _ => true
  end.

Definition validateMetadata (raw : JsValue) (pluginDir : string) : Outcome PluginMetadata :=
  if negb (is_object raw) then
    Threw (PluginLoadError pluginDir (Some "Invalid plugin.json: not an object"))
  else
    match string_or_undefined (get_prop raw "name") with
    | None | Some "" =>
        Threw (PluginLoadError pluginDir (Some "Invalid plugin.json: missing or invalid name"))
    | Some name =>
        match string_or_undefined (get_prop raw "version") with
        | None | Some "" =>
            Threw (PluginLoadError pluginDir
                     (Some "Invalid plugin.json: missing or invalid version"))
        | Some version =>
            Returned {| md_name := name;
                        md_version := version;
                        md_description := string_or_undefined (get_prop raw "description");
                        md_enabled := not_false (get_prop raw "enabled");
                        md_author := string_or_undefined (get_prop raw "author") |}
        end
    end.

(** What the default export of an imported entry module is. *)
Inductive DefaultExport :=
| NotAnObject                 (* [!plugin || typeof plugin !== 'object'] *)
| PluginObject (p : Plugin).

(** A plugin package, as the loader sees it at the time of a call.
    [plugin_json] is [None] when the descriptor does not exist; otherwise
    reading and parsing it either throws or answers a value.  [index_ts] and
    [index_js] are [None] when the file does not exist; otherwise the field
    is what [import()] of the file does then: it throws or it answers a
    module.  Node caches modules by path, so for a file that was imported
    before, this is the module cached at that time, whatever the file holds
    now; the descriptor is read afresh at every call. *)
Record PluginPackage := {
  plugin_json : option (Outcome JsValue);
  index_ts : option (Outcome DefaultExport);
  index_js : option (Outcome DefaultExport);
}.

Record Dirent := {
  d_name : string;
  d_isDirectory : bool;
}.

(** The part of the file system the loader reads.  [fs_readdir] is [None]
    when the path does not exist ([existsSync] answers [false]); otherwise
    it is what [readdirSync] does on the path: it answers the entries, or it
    throws (the path is a file, the directory cannot be read).  [fs_package]
    is the package found at a path. *)
Record FileSystem := {
  fs_readdir : Path → option (Outcome (list Dirent));
  fs_package : Path → PluginPackage;
}.

Definition path_string (p : Path) : string := String.concat "/" p.

(** [path.join(dir, name)] and [path.basename(dir)] on segment lists. *)
Definition path_join (dir : Path) (name : string) : Path := dir ++ [name].
Definition path_basename (dir : Path) : string := default "" (last dir).

(** [loadPluginFromDirectory]: the descriptor is read from disk at every
    call; the entry module is what [await import(modulePath)] answers, which
    for a path imported before is the module Node cached then.  [fs] stands
    for the file system and the module cache as they are at the time of the
    call. *)
Definition loadPluginFromDirectory (fs : FileSystem) (pluginDir : Path)
  : M (option (Plugin * PluginMetadata)) :=
  record (Invoked OpDiscover (path_string pluginDir)) >>
  let package := fs_package fs pluginDir in
  match plugin_json package with
  | None =>
      log LogWarn "Skipping directory: no plugin.json found" (path_string pluginDir) >>
      ret None
  | Some configContent =>
      let* rawMetadata := lift configContent in
      let* meta := lift (validateMetadata rawMetadata (path_string pluginDir)) in
      if negb (md_enabled meta) then
        log LogInfo "Plugin is disabled, skipping" (md_name meta) >>
        ret None
      else
        let* modulePath :=
          match index_ts package, index_js package with
          | Some m, _ => ret m
          | None, Some m => ret m
          | None, None =>
              throw (PluginLoadError (md_name meta) (Some "No index.ts or index.js found"))
          end in
        let* pluginModule := lift modulePath in
        match pluginModule with
        | NotAnObject =>
            throw (PluginLoadError (md_name meta)
                     (Some "Plugin does not export a default object"))
        | PluginObject plug =>
            if decide (pl_name plug ≠ md_name meta) then
              throw (PluginLoadError (md_name meta)
                       (Some ("Plugin name mismatch: " +:+ pl_name plug
                              +:+ " vs " +:+ md_name meta)))
            else ret (Some (plug, meta))
        end
  end.

Record PluginLoadResult := {
  success : bool;
  pluginName : string;
  error : option Thrown;
}.

Record PluginLoader := {
  pluginsDir : Path;
  autoEnable : bool;
}.

(** [createPluginLoader(pluginsDir, autoEnable = true)] *)
Definition createPluginLoader (dir : Path) (auto : option bool) : PluginLoader :=
  {| pluginsDir := dir; autoEnable := default true auto |}.

(** The body of the loop of [loadAllPlugins] for one directory, on the
    [results] array: the [try] block, and the block with its [catch]. *)
Definition loadAllPlugins_try (fs : FileSystem) (this : PluginLoader)
    (results : list PluginLoadResult) (pluginDir : Path) : M (list PluginLoadResult) :=
  let* loaded := loadPluginFromDirectory fs pluginDir in
  match loaded with
  | None => ret results
  | Some (plug, meta) =>
      loadPlugin plug meta pluginDir >>
      (if autoEnable this then enablePlugin (md_name meta) else ret tt) >>
      ret (results ++ [{| success := true; pluginName := md_name meta; error := None |}])
  end.

Definition loadAllPlugins_step (fs : FileSystem) (this : PluginLoader)
    (results : list PluginLoadResult) (pluginDir : Path) : M (list PluginLoadResult) :=
  try_catch (loadAllPlugins_try fs this results pluginDir)
    (λ err,
     let name := path_basename pluginDir in
     log LogError "Failed to load plugin" name >>
     let* error := lift (as_Error err) in
     ret (results ++ [{| success := false; pluginName := name;
                         error := Some error |}])).

Fixpoint loadAllPlugins_loop (fs : FileSystem) (this : PluginLoader)
    (pluginDirs : list Path) (results : list PluginLoadResult) : M (list PluginLoadResult) :=
  match pluginDirs with
  | [] => ret results
  | pluginDir :: rest =>
      let* results' := loadAllPlugins_step fs this results pluginDir in
      loadAllPlugins_loop fs this rest results'
  end.

Definition plugin_dirs (this : PluginLoader) (entries : list Dirent) : list Path :=
  (λ entry, path_join (pluginsDir this) (d_name entry))
    <$> filter (λ entry, d_isDirectory entry = true) entries.

Definition loadAllPlugins (fs : FileSystem) (this : PluginLoader) : M (list PluginLoadResult) :=
  match fs_readdir fs (pluginsDir this) with
  | None =>
      log LogWarn "Plugins directory does not exist" (path_string (pluginsDir this)) >>
      ret []
  | Some readdir =>
      let* entries := lift readdir in
      loadAllPlugins_loop fs this (plugin_dirs this entries) []
  end.

Definition reloadPlugin (fs : FileSystem) (name : string) : M unit :=
  let* found := gets (pluginRegistry.get name) in
  match found with
  | None => throw (PluginLoadError name (Some "Plugin not found"))
  | Some (_, instance) =>
      unloadPlugin name >>
      let* loaded := loadPluginFromDirectory fs (path instance) in
      match loaded with
      | None => throw (PluginLoadError name (Some "Failed to reload plugin"))
      | Some (plug, meta) =>
          loadPlugin plug meta (path instance) >>
          enablePlugin name >>
          log LogInfo "Plugin reloaded" name
      end
  end.

Definition empty_world : World :=
  {| heap := []; plugins := []; listeners := []; trace := [] |}.

(** ** Closed forms used to state what an emission and a hook call do *)

(** The listeners an emission calls: up to and including the first one that
    throws on [e]. *)
Fixpoint called (e : Event) (ls : list Listener) : list Listener :=
  match ls with
  | [] => []
  | l :: ls' =>
      l :: match l_run l e with
           | Some _ => []
           | None => called e ls'
           end
  end.

(** The exception of the first listener that throws on [e], if any. *)
Fixpoint first_throw (e : Event) (ls : list Listener) : option Thrown :=
  match ls with
  | [] => None
  | l :: ls' =>
      match l_run l e with
      | Some err => Some err
      | None => first_throw e ls'
      end
  end.

Definition deliveries (e : Event) (ls : list Listener) : Trace :=
  (λ l, Delivered (l_id l) e) <$> called e ls.

Definition drop_once (event : string) (tbl : list (string * Listener)) (l : Listener)
  : list (string * Listener) :=
  if l_once l
  then remove_first (λ kl, kl.1 = event ∧ l_id kl.2 = l_id l ∧ l_once kl.2 = true) tbl
  else tbl.

Definition emit_outcome (e : Event) (w : World) : Outcome bool :=
  match first_throw e (listeners_of (ev_name e) w) with
  | Some err => Threw err
  | None => Returned (bool_decide (listeners_of (ev_name e) w ≠ []))
  end.

Definition after_emit (e : Event) (w : World) : World :=
  {| heap := heap w;
     plugins := plugins w;
     listeners := foldl (drop_once (ev_name e)) (listeners w)
                    (called e (listeners_of (ev_name e) w));
     trace := trace w ++ [Emitted e] ++ deliveries e (listeners_of (ev_name e) w) |}.

(** What the hook [h] of [p] answers when it is called after the history [t]
    ([None] also when the plugin has no such hook). *)
Definition hook_result (name : string) (h : HookName) (p : Plugin) (ctx : PluginContext)
    (t : Trace) : option Thrown :=
  match hook_of p h with
  | Some f => f ctx (t ++ [HookRun name h])
  | None => None
  end.

Definition hook_items (name : string) (h : HookName) (p : Plugin) : Trace :=
  match hook_of p h with
  | Some _ => [HookRun name h]
  | None => []
  end.

(** Projections of a history. *)
Definition calls_of (op : Operation) (t : Trace) : list string :=
  omap (λ i, match i with
             | Invoked op' n => if decide (op' = op) then Some n else None
             | _ => None
             end) t.

Definition hooks_run (t : Trace) : list (string * HookName) :=
  omap (λ i, match i with HookRun n h => Some (n, h) | _ => None end) t.

Definition emitted (t : Trace) : list Event :=
  omap (λ i, match i with Emitted e => Some e | _ => None end) t.

Definition occurrences (i : TraceItem) (t : Trace) : nat :=
  length (filter (λ j, j = i) t).

(** The state of the instance registered under [name], if any. *)
Definition state_of (name : string) (w : World) : option PluginState :=
  ri ← pluginRegistry.get name w; Some (state ri.2).

(** What [enablePlugin] and [disablePlugin] do once the instance is found and
    is not in a state that makes the call a no-op: the [try] block and its
    [catch], in closed form.  [w0] is the world at the entry of the [try]. *)
Definition transition_outcome (name : string) (h : HookName) (target : PluginState)
    (ev : Event) (msg : string) (r : nat) (inst : PluginInstance) (w0 : World)
  : Outcome unit * World :=
  let w1 := set_trace (trace w0 ++ hook_items name h (plugin inst)) w0 in
  match hook_result name h (plugin inst) (context inst) (trace w0) with
  | Some e =>
      (Threw (rethrown (PluginLifecycleError name (hook_label h)) e),
       set_heap (alter (with_state ERROR) r (heap w1)) w1)
  | None =>
      let w2 := set_heap (alter (with_state target) r (heap w1)) w1 in
      let w3 := after_emit ev w2 in
      match emit_outcome ev w2 with
      | Threw e =>
          (Threw (rethrown (PluginLifecycleError name (hook_label h)) e),
           set_heap (alter (with_state ERROR) r (heap w3)) w3)
      | Returned _ =>
          (Returned tt, set_trace (trace w3 ++ [Logged LogInfo msg name]) w3)
      end
  end.

(** [loadPlugin] in closed form. *)
Definition loadPlugin_outcome (plug : Plugin) (meta : PluginMetadata) (pluginPath : Path)
    (w : World) : Outcome nat * World :=
  let name := md_name meta in
  let ctx := createPluginContext meta in
  let inst s := {| plugin := plug; metadata := meta; context := ctx;
                   state := s; path := pluginPath |} in
  let t0 := trace w ++ [Invoked OpLoad name] in
  let t1 := t0 ++ hook_items name onLoad plug in
  match hook_result name onLoad plug ctx t0 with
  | Some e =>
      (Threw (rethrown (PluginLoadError name) e),
       {| heap := heap w ++ [inst ERROR]; plugins := plugins w;
          listeners := listeners w; trace := t1 |})
  | None =>
      let w2 := {| heap := heap w ++ [inst LOADED];
                   plugins := JsMap.set name (length (heap w)) (plugins w);
                   listeners := listeners w; trace := t1 |} in
      let w3 := after_emit (plugin_loaded name (md_version meta)) w2 in
      match emit_outcome (plugin_loaded name (md_version meta)) w2 with
      | Threw e =>
          (Threw (rethrown (PluginLoadError name) e),
           set_heap (heap w ++ [inst ERROR]) w3)
      | Returned _ =>
          (Returned (length (heap w)),
           set_trace (trace w3 ++ [Logged LogInfo "Plugin loaded" name]) w3)
      end
  end.

(** [unloadPlugin] once the instance is found, in closed form: what follows
    the disable step, and the whole [try] block with its [catch]. *)
Definition unload_finish (name : string) (r : nat) (inst : PluginInstance) (wa : World)
  : Outcome unit * World :=
  let wb := set_trace (trace wa ++ hook_items name onUnload (plugin inst)) wa in
  match hook_result name onUnload (plugin inst) (context inst) (trace wa) with
  | Some e =>
      (Threw (rethrown (PluginLifecycleError name "onUnload") e),
       set_heap (alter (with_state ERROR) r (heap wb)) wb)
  | None =>
      let wc := set_plugins (JsMap.remove name (plugins wb))
                  (set_heap (alter (with_state UNLOADED) r (heap wb)) wb) in
      let wd := after_emit (plugin_unloaded name) wc in
      match emit_outcome (plugin_unloaded name) wc with
      | Threw e =>
          (Threw (rethrown (PluginLifecycleError name "onUnload") e),
           set_heap (alter (with_state ERROR) r (heap wd)) wd)
      | Returned _ =>
          (Returned tt, set_trace (trace wd ++ [Logged LogInfo "Plugin unloaded" name]) wd)
      end
  end.

Definition unloadPlugin_outcome (name : string) (r : nat) (inst : PluginInstance) (w0 : World)
  : Outcome unit * World :=
  if decide (state inst = ENABLED) then
    match disablePlugin name w0 with
    | (Threw e, wa) =>
        (Threw (rethrown (PluginLifecycleError name "onUnload") e),
         set_heap (alter (with_state ERROR) r (heap wa)) wa)
    | (Returned _, wa) => unload_finish name r inst wa
    end
  else unload_finish name r inst w0.

(** The entry module the loader imports: [index.ts] if it exists, else
    [index.js]. *)
Definition entry_module (package : PluginPackage) : option (Outcome DefaultExport) :=
  match index_ts package, index_js package with
  | Some m, _ => Some m
  | None, Some m => Some m
  | None, None => None
  end.

(** The names of the registered instances, in registration order. *)
Definition registered_names (w : World) : list string :=
  (λ ri, md_name (metadata ri.2)) <$> pluginRegistry.getAll w.

(** [loadPluginFromDirectory] in closed form: its outcome and what it logs
    depend on the package and on the name of the directory only. *)
Definition discovery (package : PluginPackage) (dirname : string)
  : Outcome (option (Plugin * PluginMetadata)) * Trace :=
  match plugin_json package with
  | None =>
      (Returned None, [Logged LogWarn "Skipping directory: no plugin.json found" dirname])
  | Some (Threw e) => (Threw e, [])
  | Some (Returned raw) =>
      match validateMetadata raw dirname with
      | Threw e => (Threw e, [])
      | Returned meta =>
          if md_enabled meta then
            match entry_module package with
            | None =>
                (Threw (PluginLoadError (md_name meta) (Some "No index.ts or index.js found")),
                 [])
            | Some (Threw e) => (Threw e, [])
            | Some (Returned NotAnObject) =>
                (Threw (PluginLoadError (md_name meta)
                          (Some "Plugin does not export a default object")), [])
            | Some (Returned (PluginObject plug)) =>
                if decide (pl_name plug = md_name meta) then (Returned (Some (plug, meta)), [])
                else
                  (Threw (PluginLoadError (md_name meta)
                            (Some ("Plugin name mismatch: " +:+ pl_name plug
                                   +:+ " vs " +:+ md_name meta))), [])
            end
          else
            (Returned None, [Logged LogInfo "Plugin is disabled, skipping" (md_name meta)])
      end
  end.

(** The representation invariant of the registry: one entry per key, and
    every entry is a live instance filed under its own name. *)
Definition registry_ok (w : World) : Prop :=
  NoDup (JsMap.keys (plugins w)) ∧
  ∀ k r, (k, r) ∈ plugins w → ∃ i, heap w !! r = Some i ∧ md_name (metadata i) = k.

(** ** Concrete plugins, buses and worlds *)

Definition meta_of (name version : string) : PluginMetadata :=
  {| md_name := name; md_version := version; md_description := None;
     md_enabled := true; md_author := None |}.

Definition resolving : Hook := λ _ _, None.
Definition rejecting (msg : string) : Hook := λ _ _, Some (JsError msg).
(** Rejects the first time the hook [h] of [name] runs, resolves afterwards. *)
Definition rejecting_once (name : string) (h : HookName) (msg : string) : Hook :=
  λ _ t, if decide (occurrences (HookRun name h) t ≤ 1)%nat then Some (JsError msg) else None.

Definition quiet : Event → option Thrown := λ _, None.
Definition faulty (msg : string) : Event → option Thrown := λ _, Some (JsError msg).

Definition ping : Event := {| ev_name := "custom:ping"; ev_payload := [("n", "1")] |}.

(** Three listeners of [custom:ping]; the second one throws. *)
Definition faulty_bus : World :=
  ((onEvent "custom:ping" 1 quiet >>
    onEvent "custom:ping" 2 (faulty "listener failed") >>
    onEvent "custom:ping" 3 quiet) empty_world).2.

(** A plugin whose [onEnable] rejects on its first run only. *)
Definition mailer : Plugin :=
  {| pl_name := "mailer"; pl_version := "1.0.0";
     pl_onLoad := None;
     pl_onEnable := Some (rejecting_once "mailer" onEnable "smtp down");
     pl_onDisable := None;
     pl_onUnload := None |}.

Definition mailer_loaded : World :=
  (loadPlugin mailer (meta_of "mailer" "1.0.0") ["plugins"; "mailer"] empty_world).2.

(** [mailer] after a first [enablePlugin], which failed. *)
Definition mailer_error : World := (enablePlugin "mailer" mailer_loaded).2.

(** A bus on which a listener of [plugin:loaded] throws. *)
Definition strict_bus : World :=
  (onEvent "plugin:loaded" 1 (faulty "audit log unavailable") empty_world).2.

(** A plugin without hooks. *)
Definition plain (name version : string) : Plugin :=
  {| pl_name := name; pl_version := version;
     pl_onLoad := None; pl_onEnable := None; pl_onDisable := None; pl_onUnload := None |}.

(** A plugin whose [onLoad] rejects. *)
Definition broken : Plugin :=
  {| pl_name := "broken"; pl_version := "0.1.0";
     pl_onLoad := Some (rejecting "no database");
     pl_onEnable := None; pl_onDisable := None; pl_onUnload := None |}.

(** A plugin whose [onEnable] always rejects. *)
Definition fragile : Plugin :=
  {| pl_name := "search"; pl_version := "3.1.0";
     pl_onLoad := None;
     pl_onEnable := Some (rejecting "index missing");
     pl_onDisable := None; pl_onUnload := None |}.

Definition fragile_loaded : World :=
  (loadPlugin fragile (meta_of "search" "3.1.0") ["plugins"; "search"] empty_world).2.

(** A plugin with the four hooks, all resolving. *)
Definition healthy (name version : string) : Plugin :=
  {| pl_name := name; pl_version := version;
     pl_onLoad := Some resolving; pl_onEnable := Some resolving;
     pl_onDisable := Some resolving; pl_onUnload := Some resolving |}.

Definition healthy_loaded : World :=
  (loadPlugin (healthy "auth" "1.0.0") (meta_of "auth" "1.0.0") ["plugins"; "auth"]
     empty_world).2.

(** A plugin whose [onDisable] rejects, loaded and enabled. *)
Definition sticky : Plugin :=
  {| pl_name := "jobs"; pl_version := "0.9.0";
     pl_onLoad := None; pl_onEnable := None;
     pl_onDisable := Some (rejecting "queue busy");
     pl_onUnload := Some resolving |}.

Definition sticky_enabled : World :=
  ((loadPlugin sticky (meta_of "jobs" "0.9.0") ["plugins"; "jobs"] >>
    enablePlugin "jobs") empty_world).2.

(** A plugins root on disk. *)
Definition descriptor (name version : string) : JsValue :=
  JObject [("name", JString name); ("version", JString version)].

Definition package_of (raw : JsValue) (p : Plugin) : PluginPackage :=
  {| plugin_json := Some (Returned raw);
     index_ts := Some (Returned (PluginObject p));
     index_js := None |}.

Definition no_package : PluginPackage :=
  {| plugin_json := None; index_ts := None; index_js := None |}.

Definition dirent (name : string) (is_dir : bool) : Dirent :=
  {| d_name := name; d_isDirectory := is_dir |}.

(** [plugins/] holds: [auth], a valid plugin whose descriptor has no
    [enabled] field; a file; [bad], whose descriptor has no [name]; [empty],
    without descriptor; [nomodule], a descriptor without entry module; [off],
    a valid plugin with [enabled: false]; [search], whose [onEnable]
    rejects; [renamed], whose module exports another name; and [broken],
    whose [onLoad] rejects. *)
Definition demo_fs : FileSystem :=
  {| fs_readdir p :=
       if decide (p = ["plugins"]) then
         Some (Returned
                 [dirent "auth" true; dirent "README.md" false; dirent "bad" true;
                  dirent "empty" true; dirent "nomodule" true; dirent "off" true;
                  dirent "search" true; dirent "renamed" true; dirent "broken" true])
       else None;
     fs_package p :=
       if decide (p = ["plugins"; "auth"]) then
         package_of (descriptor "auth" "1.0.0") (healthy "auth" "1.0.0")
       else if decide (p = ["plugins"; "bad"]) then
         package_of (JObject [("version", JString "1.0.0")]) (healthy "bad" "1.0.0")
       else if decide (p = ["plugins"; "nomodule"]) then
         {| plugin_json := Some (Returned (descriptor "nomodule" "0.0.1"));
            index_ts := None; index_js := None |}
       else if decide (p = ["plugins"; "off"]) then
         package_of (JObject [("name", JString "off"); ("version", JString "1.0.0");
                              ("enabled", JBool false)])
           (healthy "off" "1.0.0")
       else if decide (p = ["plugins"; "search"]) then
         package_of (descriptor "search" "3.1.0") fragile
       else if decide (p = ["plugins"; "renamed"]) then
         package_of (descriptor "renamed" "1.0.0") (healthy "original" "1.0.0")
       else if decide (p = ["plugins"; "broken"]) then
         package_of (descriptor "broken" "0.1.0") broken
       else no_package |}.

Definition demo_loader : PluginLoader := createPluginLoader ["plugins"] None.

(** A package whose descriptor says version [1.0.0] while the module it
    exports says [2.0.0]. *)
Definition skewed_fs : FileSystem :=
  {| fs_readdir p :=
       if decide (p = ["plugins"]) then Some (Returned [dirent "billing" true]) else None;
     fs_package p :=
       if decide (p = ["plugins"; "billing"]) then
         package_of (descriptor "billing" "1.0.0") (plain "billing" "2.0.0")
       else no_package |}.

(** The file system after the package of [auth] lost its descriptor. *)
Definition wiped_fs : FileSystem :=
  {| fs_readdir p := fs_readdir demo_fs p;
     fs_package p := no_package |}.

Definition demo_world : World := (loadAllPlugins demo_fs demo_loader empty_world).2.

(** Whether the reload of a plugin fails at re-discovery or at [onLoad]:
    [res] and [w2] are what [loadPluginFromDirectory] answered and the world
    it left. *)
Definition rediscovery_or_onLoad_fails (res : Outcome (option (Plugin * PluginMetadata)))
    (w2 : World) : Prop :=
  match res with
  | Threw _ => True
  | Returned None => True
  | Returned (Some (plug, meta)) =>
      is_Some (hook_result (md_name meta) onLoad plug (createPluginContext meta)
                 (trace w2 ++ [Invoked OpLoad (md_name meta)]))
  end.

(** Three plugins loaded and enabled in the order [auth], [jobs], [cache];
    the [onDisable] of [jobs] rejects. *)
Definition three_enabled : World :=
  ((loadPlugin (healthy "auth" "1.0.0") (meta_of "auth" "1.0.0") ["plugins"; "auth"] >>
    enablePlugin "auth" >>
    loadPlugin sticky (meta_of "jobs" "0.9.0") ["plugins"; "jobs"] >>
    enablePlugin "jobs" >>
    loadPlugin (plain "cache" "2.0.0") (meta_of "cache" "2.0.0") ["plugins"; "cache"] >>
    enablePlugin "cache") empty_world).2.

(** ** Plugins that never fail, buses that never throw *)

(** No hook of the plugin ever rejects. *)
Definition well_behaved (p : Plugin) : Prop :=
  ∀ h f ctx t, hook_of p h = Some f → f ctx t = None.

(** No registered listener ever throws. *)
Definition quiet_bus (w : World) : Prop :=
  ∀ kl, kl ∈ listeners w → ∀ e, l_run kl.2 e = None.

(** The hooks among [hs] that the plugin defines, as history entries. *)
Definition hooks_defined (name : string) (p : Plugin) (hs : list HookName)
  : list (string * HookName) :=
  omap (λ h, match hook_of p h with Some _ => Some (name, h) | None => None end) hs.

(** The footprint of an operation on [name], found at [r]: the map is the
    same or has lost [name], and no other object is written. *)
Definition footprint (name : string) (r : nat) (w w' : World) : Prop :=
  (plugins w' = plugins w ∨ plugins w' = JsMap.remove name (plugins w)) ∧
  ∀ r', r' ≠ r → heap w' !! r' = heap w !! r'.


(** The message of a thrown value can be read: [(error as Error).message]
    does not throw.  Every [Error] is so; [null] and [undefined] are not. *)
Definition readable (e : Thrown) : Prop := ∃ message, message_of e = Returned message.

(** What the hooks of the plugin reject with, and what the listeners on the
    bus throw, has a readable message. *)
Definition rejects_readable (p : Plugin) : Prop :=
  ∀ h f ctx t e, hook_of p h = Some f → f ctx t = Some e → readable e.

Definition throws_readable (w : World) : Prop :=
  ∀ kl, kl ∈ listeners w → ∀ ev e, l_run kl.2 ev = Some e → readable e.

(** ** More plugins, packages and loaders *)

(** A plugin whose [onUnload] rejects, loaded and not enabled. *)
Definition stubborn : Plugin :=
  {| pl_name := "cache"; pl_version := "2.0.0";
     pl_onLoad := None; pl_onEnable := None; pl_onDisable := None;
     pl_onUnload := Some (rejecting "flush failed") |}.

Definition stubborn_loaded : World :=
  (loadPlugin stubborn (meta_of "cache" "2.0.0") ["plugins"; "cache"] empty_world).2.

(** Two packages of [auth] whose [index.ts] fails to import; the second one
    also ships a good [index.js]. *)
Definition ts_fails_fs : FileSystem :=
  {| fs_readdir p :=
       if decide (p = ["plugins"]) then Some (Returned [dirent "auth" true]) else None;
     fs_package p :=
       {| plugin_json := Some (Returned (descriptor "auth" "1.0.0"));
          index_ts := Some (Threw (JsError "Cannot find module './service'"));
          index_js := None |} |}.

Definition ts_fails_js_good_fs : FileSystem :=
  {| fs_readdir p := fs_readdir ts_fails_fs p;
     fs_package p :=
       {| plugin_json := Some (Returned (descriptor "auth" "1.0.0"));
          index_ts := Some (Threw (JsError "Cannot find module './service'"));
          index_js := Some (Returned (PluginObject (healthy "auth" "1.0.0"))) |} |}.

(** [createPluginLoader(pluginsDir, false)] *)
Definition manual_loader : PluginLoader := createPluginLoader ["plugins"] (Some false).

(** A plugin whose [onLoad] rejects with [null]. *)
Definition nullish : Plugin :=
  {| pl_name := "metrics"; pl_version := "1.0.0";
     pl_onLoad := Some (λ _ _, Some JsNull);
     pl_onEnable := None; pl_onDisable := None; pl_onUnload := None |}.

(** A plugins root that exists but is a file: [readdirSync] throws. *)
Definition file_root_fs : FileSystem :=
  {| fs_readdir p :=
       if decide (p = ["plugins"])
       then Some (Threw (JsError "ENOTDIR: not a directory, scandir 'plugins'"))
       else None;
     fs_package p := no_package |}.

(** A plugins root with two packages.  Importing the module of [opaque]
    throws an object without prototype, which [String()] cannot convert;
    [auth] comes after it. *)
Definition opaque_fs : FileSystem :=
  {| fs_readdir p :=
       if decide (p = ["plugins"])
       then Some (Returned [dirent "opaque" true; dirent "auth" true])
       else None;
     fs_package p :=
       if decide (p = ["plugins"; "opaque"]) then
         {| plugin_json := Some (Returned (descriptor "opaque" "1.0.0"));
            index_ts :=
              Some (Threw (NonError
                             (inr (TypeError "Cannot convert object to primitive value"))
                             None));
            index_js := None |}
       else if decide (p = ["plugins"; "auth"]) then
         package_of (descriptor "auth" "1.0.0") (healthy "auth" "1.0.0")
       else no_package |}.

(** [demo_world] with a listener of [plugin:loaded] that throws. *)
Definition audited_world : World :=
  (onEvent "plugin:loaded" 1 (faulty "audit log unavailable") demo_world).2.

(** The file system after the descriptor of [auth] was edited to say
    [login]; the module of [auth] was imported before, so [import()] still
    answers it. *)
Definition redescribed_fs : FileSystem :=
  {| fs_readdir p := fs_readdir demo_fs p;
     fs_package p :=
       if decide (p = ["plugins"; "auth"]) then
         package_of (descriptor "login" "2.0.0") (healthy "auth" "1.0.0")
       else fs_package demo_fs p |}.

(** The [catch] block of the loop of [loadAllPlugins] can turn [err] into an
    [Error]: [err] is one, or [String(err)] answers. *)
Definition convertible (err : Thrown) : Prop := ∃ error, as_Error err = Returned error.

(** On the run of the loop from [w], every value a [try] block throws is
    one the [catch] block can turn into an [Error]. *)
Fixpoint catches_convert (fs : FileSystem) (this : PluginLoader) (pluginDirs : list Path)
    (results : list PluginLoadResult) (w : World) : Prop :=
  match pluginDirs with
  | [] => True
  | pluginDir :: rest =>
      match loadAllPlugins_try fs this results pluginDir w with
      | (Threw err, _) => convertible err
      | (Returned _, _) => True
      end ∧
      match loadAllPlugins_step fs this results pluginDir w with
      | (Returned results', w') => catches_convert fs this rest results' w'
      | (Threw _, _) => True
      end
  end.

(** The directories [loadAllPlugins] goes through. *)
Definition discovered_dirs (fs : FileSystem) (this : PluginLoader) : list Path :=
  match fs_readdir fs (pluginsDir this) with
  | Some (Returned entries) => plugin_dirs this entries
  | _ => []
  end.

(** The mount [registerPluginRoutes] makes for an entry [(name, r)] of the
    registry map, if any: the instance is enabled and its plugin has a
    [routes] member that returns. *)
Definition mount_of_entry (routes : Plugin → option (Outcome (list string)))
    (w : World) (kr : string * nat) : option (string * list string) :=
  inst ← heap w !! kr.2;
  if decide (state inst = ENABLED) then
    match routes (plugin inst) with
    | Some (Returned router) => Some ("/api/v1/" +:+ kr.1, router)
    | _ => None
    end
  else None.

(** A history in which nothing but loading happens: [enablePlugin] is not
    entered, the hooks run are [onLoad] hooks and the events emitted are
    [plugin:loaded] events. *)
Definition loading_only (t : Trace) : Prop :=
  calls_of OpEnable t = [] ∧
  (∀ nh, nh ∈ hooks_run t → nh.2 = onLoad) ∧
  (∀ e, e ∈ emitted t → ev_name e = "plugin:loaded").

(** An entry of the result of [loadAllPlugins] is well formed: a success
    carries no error, a failure carries an [Error] object. *)
Definition result_ok (r : PluginLoadResult) : Prop :=
  if success r then error r = None
  else ∃ e, error r = Some e ∧ instanceof_Error e = true.

(** ** Routes ([PluginLoader.registerPluginRoutes]) *)

(** What a plugin registers on the router it is handed; the Express
    application is the sequence of its mounts [(path, router)], in the order
    of the calls of [app.use]. *)
Definition Router := list string.
Definition Express := list (string * Router).

Definition API_PREFIX : string := "/api".
Definition API_VERSION : string := "v1".

Section Routes.
(** [plugin.routes]: [None] when the plugin has no such member, otherwise
    what the call [plugin.routes(router)] does: it throws, or it returns
    having registered routes on the router. *)
Variable routes : Plugin → option (Outcome Router).

(** The loop of [registerPluginRoutes]; the application is mutated in
    place, so the mounts made before a throw stay. *)
Fixpoint registerPluginRoutes_loop (enabledPlugins : list (nat * PluginInstance))
    (app : Express) (w : World) : Outcome unit * Express * World :=
  match enabledPlugins with
  | [] => (Returned tt, app, w)
  | (_, instance) :: rest =>
      match routes (plugin instance) with
      | None => registerPluginRoutes_loop rest app w
      | Some (Threw e) => (Threw e, app, w)
      | Some (Returned router) =>
          let mountPath :=
            API_PREFIX +:+ "/" +:+ API_VERSION +:+ "/" +:+ md_name (metadata instance) in
          let app' := app ++ [(mountPath, router)] in
          registerPluginRoutes_loop rest app'
            (log LogInfo "Plugin routes registered" (md_name (metadata instance)) w).2
      end
  end.

Definition registerPluginRoutes (app : Express) (w : World) : Outcome unit * Express * World :=
  registerPluginRoutes_loop (pluginRegistry.getEnabled w) app w.

(** The mount of an instance, if its plugin has routes that register. *)
Definition mount_of (ri : nat * PluginInstance) : option (string * Router) :=
  match routes (plugin ri.2) with
  | Some (Returned router) => Some ("/api/v1/" +:+ md_name (metadata ri.2), router)
  | _ => None
  end.
End Routes.

(** Only [auth] has routes. *)
Definition demo_routes (p : Plugin) : option (Outcome Router) :=
  if decide (pl_name p = "auth") then Some (Returned ["POST /login"; "POST /logout"])
  else None.


(** * Properties *)

(** ** The registry map *)

Module JsMapFacts.
Import JsMap.
Section Facts.
Context {V : Type}.
Implicit Types (m : list (string * V)) (k : string) (v : V).

Lemma get_set_eq k v m : get k (set k v m) = Some v.
    Proof.
      induction m as [|[k' v'] m IH]; csimpl.
      - by rewrite decide_True.
      - destruct (decide (k' = k)) as [->|Hne]; csimpl.
        + by rewrite decide_True.
        + by rewrite decide_False.
    Qed.

Lemma get_set_ne k k' v m : k ≠ k' → get k' (set k v m) = get k' m.
    Proof.
      intros Hne. induction m as [|[k0 v0] m IH]; csimpl.
      - by rewrite decide_False.
      - destruct (decide (k0 = k)) as [->|Hne0]; csimpl.
        + by rewrite !decide_False.
        + by rewrite IH.
    Qed.

Lemma get_remove_ne k k' m : k ≠ k' → get k' (remove k m) = get k' m.
    Proof.
      intros Hne. unfold remove. induction m as [|[k0 v0] m IH]; [done|].
      rewrite filter_cons. csimpl. destruct (decide (k0 ≠ k)) as [Hne0|Heq]; csimpl.
      - by rewrite IH.
      - apply dec_stable in Heq as ->. by rewrite decide_False.
    Qed.

Lemma get_None_keys k m : get k m = None ↔ k ∉ keys m.
    Proof.
      unfold keys. induction m as [|[k0 v0] m IH]; csimpl.
      - split; [intros _; apply not_elem_of_nil | done].
      - rewrite not_elem_of_cons. destruct (decide (k0 = k)) as [->|Hne].
        + split; [done | intros [? _]; done].
        + rewrite IH. split; [intros ?; split; [congruence | done] | intros [_ ?]; done].
    Qed.

    (** The key deleted is gone. *)
Lemma get_remove_eq k m : get k (remove k m) = None.
    Proof.
      unfold remove. induction m as [|[k0 v0] m IH]; [done|].
      rewrite filter_cons. csimpl. destruct (decide (k0 ≠ k)) as [Hne0|Heq]; csimpl; [|done].
      by rewrite decide_False.
    Qed.

Lemma keys_set_present k v m : k ∈ keys m → keys (set k v m) = keys m.
    Proof.
      unfold keys. induction m as [|[k0 v0] m IH]; csimpl.
      - intros H. by apply elem_of_nil in H.
      - intros H. destruct (decide (k0 = k)) as [->|Hne]; csimpl; [done|].
        apply elem_of_cons in H as [->|H]; [done|]. by rewrite IH.
    Qed.

Lemma keys_set_absent k v m : k ∉ keys m → keys (set k v m) = keys m ++ [k].
    Proof.
      unfold keys. induction m as [|[k0 v0] m IH]; csimpl; [done|].
      intros H. apply not_elem_of_cons in H as [Hne H].
      rewrite decide_False by done. csimpl. by rewrite IH.
    Qed.

Lemma keys_remove_sublist k m : sublist (keys (remove k m)) (keys m).
    Proof. unfold keys, remove. apply fmap_sublist, sublist_filter. Qed.

Lemma NoDup_keys_set k v m : NoDup (keys m) → NoDup (keys (set k v m)).
    Proof.
      intros Hnd. destruct (decide (k ∈ keys m)) as [Hin|Hnotin].
      - by rewrite keys_set_present.
      - rewrite keys_set_absent by done. apply NoDup_app. split; [done|].
        split; [|apply NoDup_singleton].
        intros x Hx Hx'. apply list_elem_of_singleton in Hx'. by subst.
    Qed.

Lemma NoDup_keys_remove k m : NoDup (keys m) → NoDup (keys (remove k m)).
    Proof. intros Hnd. eapply sublist_NoDup; [done | apply keys_remove_sublist]. Qed.

End Facts.
End JsMapFacts.

(** ** The monad and the primitives *)

Ltac monad_unfold :=
  unfold bind, try_catch, ret, throw, gets, modify, log, record, set_state, lift in *.

Lemma call_listeners_eq e ls w :
  call_listeners e ls w =
    (match first_throw e ls with Some err => Threw err | None => Returned tt end,
     {| heap := heap w; plugins := plugins w;
        listeners := foldl (drop_once (ev_name e)) (listeners w) (called e ls);
        trace := trace w ++ deliveries e ls |}).
Proof.
  revert w. induction ls as [|l ls IH]; intros [hp pg lt tr]; simpl.
  - unfold ret, deliveries. simpl. by rewrite app_nil_r.
  - unfold deliveries. monad_unfold. unfold drop_once at 2, removeWrapper, modify.
    destruct (l_once l); simpl; destruct (l_run l e) as [err|] eqn:Hrun; simpl.
    + done.
    + rewrite IH. simpl. unfold deliveries. by rewrite <- app_assoc.
    + done.
    + rewrite IH. simpl. unfold deliveries. by rewrite <- app_assoc.
Qed.

Lemma first_throw_nil_called e ls : called e ls = [] → ls = [].
Proof. by destruct ls. Qed.

Lemma emit_eq e w :
  emit e w =
    (emit_outcome e w,
     {| heap := heap w; plugins := plugins w;
        listeners := foldl (drop_once (ev_name e)) (listeners w)
                       (called e (listeners_of (ev_name e) w));
        trace := trace w ++ deliveries e (listeners_of (ev_name e) w) |}).
Proof.
  unfold emit, emit_outcome. monad_unfold.
  destruct (listeners_of (ev_name e) w) as [|l ls] eqn:Hls.
  - destruct w; simpl. by rewrite app_nil_r.
  - rewrite call_listeners_eq. simpl.
    destruct (l_run l e); [done|].
    by destruct (first_throw e ls).
Qed.

Lemma emitEvent_eq e w : emitEvent e w = (emit_outcome e w, after_emit e w).
Proof.
  unfold emitEvent. monad_unfold. simpl. rewrite emit_eq.
  unfold emit_outcome, after_emit, listeners_of. destruct w; simpl.
  by rewrite <- app_assoc.
Qed.

Lemma run_hook_eq name h p ctx w :
  run_hook name h p ctx w =
    (match hook_result name h p ctx (trace w) with
     | None => Returned tt
     | Some e => Threw e
     end,
     set_trace (trace w ++ hook_items name h p) w).
Proof.
  unfold run_hook, hook_result, hook_items. monad_unfold.
  destruct w as [hp pg lt tr]; unfold set_trace; simpl.
  destruct (hook_of p h) as [f|]; simpl.
  - by destruct (f ctx _).
  - by rewrite app_nil_r.
Qed.

(** ** Enabling and disabling *)

Lemma with_state_twice s s' i : with_state s (with_state s' i) = with_state s i.
Proof. done. Qed.

Lemma alter_with_state_twice s s' r (h : list PluginInstance) :
  alter (with_state s) r (alter (with_state s') r h) = alter (with_state s) r h.
Proof.
  rewrite list_alter_alter_eq. apply list_alter_ext; [|done].
  intros i _. apply with_state_twice.
Qed.

Lemma registry_get_alter name r inst s w w' :
  pluginRegistry.get name w = Some (r, inst) →
  plugins w' = plugins w →
  heap w' = alter (with_state s) r (heap w) →
  pluginRegistry.get name w' = Some (r, with_state s inst).
Proof.
  unfold pluginRegistry.get. intros Hget Hp Hh. rewrite Hp, Hh.
  destruct (JsMap.get name (plugins w)) as [r'|]; simpl in *; [|done].
  destruct (heap w !! r') as [i|] eqn:Hi; simpl in *; [|done].
  injection Hget as -> ->.
  by rewrite list_lookup_alter_eq, Hi.
Qed.

Lemma enablePlugin_not_found name w :
  pluginRegistry.get name w = None →
  enablePlugin name w =
    (Threw (PluginLoadError name (Some "Plugin not found")),
     set_trace (trace w ++ [Invoked OpEnable name]) w).
Proof.
  intros Hget. unfold enablePlugin. monad_unfold. simpl.
  change (pluginRegistry.get name (set_trace (trace w ++ [Invoked OpEnable name]) w))
    with (pluginRegistry.get name w). by rewrite Hget.
Qed.

Lemma enablePlugin_already name w r inst :
  pluginRegistry.get name w = Some (r, inst) →
  state inst = ENABLED →
  enablePlugin name w = (Returned tt, set_trace (trace w ++ [Invoked OpEnable name]) w).
Proof.
  intros Hget Hst. unfold enablePlugin. monad_unfold. simpl.
  change (pluginRegistry.get name (set_trace (trace w ++ [Invoked OpEnable name]) w))
    with (pluginRegistry.get name w). rewrite Hget.
  by rewrite decide_True.
Qed.

Lemma enablePlugin_run name w r inst :
  pluginRegistry.get name w = Some (r, inst) →
  state inst ≠ ENABLED →
  enablePlugin name w =
    transition_outcome name onEnable ENABLED (plugin_enabled name) "Plugin enabled"
      r inst (set_trace (trace w ++ [Invoked OpEnable name]) w).
Proof.
  intros Hget Hst. unfold enablePlugin, transition_outcome. monad_unfold. simpl.
  change (pluginRegistry.get name (set_trace (trace w ++ [Invoked OpEnable name]) w))
    with (pluginRegistry.get name w). rewrite Hget.
  rewrite decide_False by done.
  rewrite run_hook_eq. simpl.
  destruct (hook_result name onEnable (plugin inst) (context inst) _) as [e|];
    [unfold rethrown; by destruct (message_of e)|].
  rewrite emitEvent_eq.
  destruct (emit_outcome _ _) as [b|e]; [done|].
  unfold rethrown; by destruct (message_of e).
Qed.

Lemma disablePlugin_not_found name w :
  pluginRegistry.get name w = None →
  disablePlugin name w =
    (Threw (PluginLoadError name (Some "Plugin not found")),
     set_trace (trace w ++ [Invoked OpDisable name]) w).
Proof.
  intros Hget. unfold disablePlugin. monad_unfold. simpl.
  change (pluginRegistry.get name (set_trace (trace w ++ [Invoked OpDisable name]) w))
    with (pluginRegistry.get name w). by rewrite Hget.
Qed.

Lemma disablePlugin_already name w r inst :
  pluginRegistry.get name w = Some (r, inst) →
  state inst = DISABLED ∨ state inst = LOADED →
  disablePlugin name w = (Returned tt, set_trace (trace w ++ [Invoked OpDisable name]) w).
Proof.
  intros Hget Hst. unfold disablePlugin. monad_unfold. simpl.
  change (pluginRegistry.get name (set_trace (trace w ++ [Invoked OpDisable name]) w))
    with (pluginRegistry.get name w). rewrite Hget.
  by rewrite decide_True.
Qed.

Lemma disablePlugin_run name w r inst :
  pluginRegistry.get name w = Some (r, inst) →
  state inst ≠ DISABLED → state inst ≠ LOADED →
  disablePlugin name w =
    transition_outcome name onDisable DISABLED (plugin_disabled name) "Plugin disabled"
      r inst (set_trace (trace w ++ [Invoked OpDisable name]) w).
Proof.
  intros Hget Hst1 Hst2. unfold disablePlugin, transition_outcome. monad_unfold. simpl.
  change (pluginRegistry.get name (set_trace (trace w ++ [Invoked OpDisable name]) w))
    with (pluginRegistry.get name w). rewrite Hget.
  rewrite decide_False by (intros [?|?]; done).
  rewrite run_hook_eq. simpl.
  destruct (hook_result name onDisable (plugin inst) (context inst) _) as [e|];
    [unfold rethrown; by destruct (message_of e)|].
  rewrite emitEvent_eq.
  destruct (emit_outcome _ _) as [b|e]; [done|].
  unfold rethrown; by destruct (message_of e).
Qed.

(** The state a transition leaves: the target when it returns, [error] when
    it throws; the registry map is not touched. *)
Lemma transition_outcome_state name h target ev msg r inst w0 res w' :
  transition_outcome name h target ev msg r inst w0 = (res, w') →
  plugins w' = plugins w0 ∧
  heap w' = alter (with_state (match res with Returned _ => target | Threw _ => ERROR end))
              r (heap w0).
Proof.
  unfold transition_outcome.
  destruct (hook_result _ _ _ _ _).
  - intros [= <- <-]. done.
  - destruct (emit_outcome _ _); intros [= <- <-]; simpl; [done|].
    by rewrite alter_with_state_twice.
Qed.

Lemma transition_outcome_returns name h target ev msg r inst w0 :
  hook_result name h (plugin inst) (context inst) (trace w0) = None →
  first_throw ev (listeners_of (ev_name ev) w0) = None →
  (transition_outcome name h target ev msg r inst w0).1 = Returned tt.
Proof.
  intros Hh He. unfold transition_outcome. rewrite Hh.
  unfold emit_outcome.
  change (listeners_of (ev_name ev) (set_heap _ _)) with (listeners_of (ev_name ev) w0).
  by rewrite He.
Qed.

(** ** Event bus: listener failures *)

Lemma first_throw_at e pre l post err :
  Forall (λ l', l_run l' e = None) pre →
  l_run l e = Some err →
  first_throw e (pre ++ l :: post) = Some err ∧ called e (pre ++ l :: post) = pre ++ [l].
Proof.
  intros Hpre Hl. induction Hpre as [|l' pre Hl' _ [IH1 IH2]]; simpl.
  - by rewrite Hl.
  - by rewrite Hl', IH1, IH2.
Qed.

Lemma first_throw_none e ls :
  Forall (λ l, l_run l e = None) ls →
  first_throw e ls = None ∧ called e ls = ls.
Proof.
  intros Hls. induction Hls as [|l ls Hl _ [IH1 IH2]]; simpl; [done|].
  by rewrite Hl, IH1, IH2.
Qed.

(** When no listener of the event throws, the emission completes: every
    listener is called once, in registration order, and [emitEvent] answers
    whether there was one. *)
Lemma emitEvent_returns e w :
  Forall (λ l, l_run l e = None) (listeners_of (ev_name e) w) →
  ∃ w', emitEvent e w = (Returned (bool_decide (listeners_of (ev_name e) w ≠ [])), w') ∧
        trace w' = trace w ++ Emitted e ::
                     ((λ l, Delivered (l_id l) e) <$> listeners_of (ev_name e) w).
Proof.
  intros Hls. apply first_throw_none in Hls as [Hft Hc].
  rewrite emitEvent_eq. unfold emit_outcome. rewrite Hft.
  eexists; split; [done|]. simpl. unfold deliveries. by rewrite Hc.
Qed.

(** C7 (as amended): [emitEvent] does not contain listener failures.  When a
    registered listener of the event throws, the listeners are called in
    registration order up to and including the first one that throws, the
    exception of that listener leaves [emitEvent], and the listeners
    registered after it are not called. *)
Theorem emitEvent_propagates_listener_failure e w pre l post err :
  listeners_of (ev_name e) w = pre ++ l :: post →
  Forall (λ l', l_run l' e = None) pre →
  l_run l e = Some err →
  ∃ w', emitEvent e w = (Threw err, w') ∧
        trace w' = trace w ++ Emitted e :: ((λ l', Delivered (l_id l') e) <$> (pre ++ [l])).
Proof.
  intros Hls Hpre Hl.
  destruct (first_throw_at e pre l post err Hpre Hl) as [Hft Hc].
  rewrite emitEvent_eq. unfold emit_outcome. rewrite Hls, Hft.
  eexists; split; [done|]. simpl. unfold deliveries. by rewrite Hls, Hc.
Qed.

Lemma emitEvent_propagates_listener_failure_witness :
  ∃ w', emitEvent ping faulty_bus = (Threw (JsError "listener failed"), w') ∧
        trace w' = [Emitted ping; Delivered 1 ping; Delivered 2 ping].
Proof.
  apply (emitEvent_propagates_listener_failure ping faulty_bus
           [{| l_id := 1; l_once := false; l_run := quiet |}]
           {| l_id := 2; l_once := false; l_run := faulty "listener failed" |}
           [{| l_id := 3; l_once := false; l_run := quiet |}]
           (JsError "listener failed")).
  - reflexivity.
  - repeat constructor.
  - reflexivity.
Defined.

(** C7 fails as stated: with a listener that throws, [emitEvent] throws, and
    the listener registered after it is never called. *)
Lemma emitEvent_faulty_listener_counterexample :
  (emitEvent ping faulty_bus).1 = Threw (JsError "listener failed") ∧
  Delivered 3 ping ∉ trace (emitEvent ping faulty_bus).2.
Proof.
  split; [reflexivity|].
  vm_compute. intros H. repeat (apply elem_of_cons in H as [H|H]; [discriminate H|]).
  by apply elem_of_nil in H.
Qed.

(** ** Histories *)

Lemma calls_of_app op t1 t2 : calls_of op (t1 ++ t2) = calls_of op t1 ++ calls_of op t2.
Proof. apply omap_app. Qed.
Lemma hooks_run_app t1 t2 : hooks_run (t1 ++ t2) = hooks_run t1 ++ hooks_run t2.
Proof. apply omap_app. Qed.
Lemma emitted_app t1 t2 : emitted (t1 ++ t2) = emitted t1 ++ emitted t2.
Proof. apply omap_app. Qed.

Lemma calls_of_deliveries op e ls : calls_of op (deliveries e ls) = [].
Proof. unfold deliveries. by induction (called e ls). Qed.
Lemma hooks_run_deliveries e ls : hooks_run (deliveries e ls) = [].
Proof. unfold deliveries. by induction (called e ls). Qed.
Lemma emitted_deliveries e ls : emitted (deliveries e ls) = [].
Proof. unfold deliveries. by induction (called e ls). Qed.

Lemma calls_of_hook_items op name h p : calls_of op (hook_items name h p) = [].
Proof. unfold hook_items. by destruct (hook_of p h). Qed.
Lemma emitted_hook_items name h p : emitted (hook_items name h p) = [].
Proof. unfold hook_items. by destruct (hook_of p h). Qed.
Lemma hooks_run_hook_items name h p :
  hooks_run (hook_items name h p) = match hook_of p h with Some _ => [(name, h)] | None => [] end.
Proof. unfold hook_items. by destruct (hook_of p h). Qed.

Lemma calls_of_nil op : calls_of op [] = [].
Proof. done. Qed.
Lemma calls_of_Invoked op op' n t :
  calls_of op (Invoked op' n :: t) = (if decide (op' = op) then [n] else []) ++ calls_of op t.
Proof. unfold calls_of. simpl. by destruct (decide (op' = op)). Qed.
Lemma calls_of_HookRun op n h t : calls_of op (HookRun n h :: t) = calls_of op t.
Proof. done. Qed.
Lemma calls_of_Emitted op e t : calls_of op (Emitted e :: t) = calls_of op t.
Proof. done. Qed.
Lemma calls_of_Delivered op l e t : calls_of op (Delivered l e :: t) = calls_of op t.
Proof. done. Qed.
Lemma calls_of_Logged op lvl m s t : calls_of op (Logged lvl m s :: t) = calls_of op t.
Proof. done. Qed.

Lemma hooks_run_nil : hooks_run [] = [].
Proof. done. Qed.
Lemma hooks_run_Invoked op n t : hooks_run (Invoked op n :: t) = hooks_run t.
Proof. done. Qed.
Lemma hooks_run_HookRun n h t : hooks_run (HookRun n h :: t) = (n, h) :: hooks_run t.
Proof. done. Qed.
Lemma hooks_run_Emitted e t : hooks_run (Emitted e :: t) = hooks_run t.
Proof. done. Qed.
Lemma hooks_run_Delivered l e t : hooks_run (Delivered l e :: t) = hooks_run t.
Proof. done. Qed.
Lemma hooks_run_Logged lvl m s t : hooks_run (Logged lvl m s :: t) = hooks_run t.
Proof. done. Qed.

Lemma emitted_nil : emitted [] = [].
Proof. done. Qed.
Lemma emitted_Invoked op n t : emitted (Invoked op n :: t) = emitted t.
Proof. done. Qed.
Lemma emitted_HookRun n h t : emitted (HookRun n h :: t) = emitted t.
Proof. done. Qed.
Lemma emitted_Emitted e t : emitted (Emitted e :: t) = e :: emitted t.
Proof. done. Qed.
Lemma emitted_Delivered l e t : emitted (Delivered l e :: t) = emitted t.
Proof. done. Qed.
Lemma emitted_Logged lvl m s t : emitted (Logged lvl m s :: t) = emitted t.
Proof. done. Qed.

Create Rewrite HintDb history.
#[global] Hint Rewrite calls_of_nil calls_of_Invoked calls_of_HookRun calls_of_Emitted
  calls_of_Delivered calls_of_Logged hooks_run_nil hooks_run_Invoked hooks_run_HookRun
  hooks_run_Emitted hooks_run_Delivered hooks_run_Logged emitted_nil emitted_Invoked
  emitted_HookRun emitted_Emitted emitted_Delivered emitted_Logged : history.
#[global] Hint Rewrite calls_of_app hooks_run_app emitted_app
  calls_of_deliveries hooks_run_deliveries emitted_deliveries
  calls_of_hook_items emitted_hook_items hooks_run_hook_items : history.

(** ** Loading *)

Lemma alter_last {A} (f : A → A) (l : list A) (x : A) :
  alter f (length l) (l ++ [x]) = l ++ [f x].
Proof. induction l as [|y l IH]; simpl; [done|]. by f_equal. Qed.

Lemma lookup_last {A} (l : list A) (x : A) : (l ++ [x]) !! length l = Some x.
Proof. induction l as [|y l IH]; simpl; done. Qed.

Lemma loadPlugin_eq plug meta pth w :
  loadPlugin plug meta pth w = loadPlugin_outcome plug meta pth w.
Proof.
  unfold loadPlugin, loadPlugin_outcome, alloc, pluginRegistry.register.
  monad_unfold. simpl. rewrite run_hook_eq. simpl.
  destruct (hook_result _ _ _ _ _) as [e|].
  - simpl. unfold rethrown. destruct (message_of e); simpl; by rewrite alter_last.
  - simpl. rewrite emitEvent_eq. rewrite alter_last, lookup_last. simpl.
    destruct (emit_outcome _ _) as [b|e]; simpl; [done|].
    unfold rethrown. destruct (message_of e); simpl; by rewrite alter_last.
Qed.

(** C2 (as amended): when the [onLoad] hook rejects, [loadPlugin] sets the
    state of the instance to [error], throws, leaves the registry as it was
    and emits nothing; what it throws is a [PluginLoadError] naming the
    plugin, with the message of the rejection, whenever that message can be
    read, and otherwise what reading it throws (a [TypeError] when the hook
    rejected with [null] or [undefined]).  When [onLoad] resolves or is
    absent and no listener of [plugin:loaded] throws, the state is [loaded],
    the instance is registered under the plugin's name and [plugin:loaded]
    is emitted exactly once. *)
Theorem loadPlugin_registers_iff_onLoad_succeeds plug meta pth w :
  let name := md_name meta in
  let ctx := createPluginContext meta in
  let inst s := {| plugin := plug; metadata := meta; context := ctx;
                   state := s; path := pth |} in
  (∀ e, hook_result name onLoad plug ctx (trace w ++ [Invoked OpLoad name]) = Some e →
     ∃ w' t, loadPlugin plug meta pth w =
               (Threw (match message_of e with
                       | Returned message => PluginLoadError name message
                       | Threw e' => e'
                       end), w') ∧
             heap w' = heap w ++ [inst ERROR] ∧
             plugins w' = plugins w ∧
             trace w' = trace w ++ t ∧ emitted t = []) ∧
  (hook_result name onLoad plug ctx (trace w ++ [Invoked OpLoad name]) = None →
   first_throw (plugin_loaded name (md_version meta)) (listeners_of "plugin:loaded" w) = None →
     ∃ w' t, loadPlugin plug meta pth w = (Returned (length (heap w)), w') ∧
             heap w' = heap w ++ [inst LOADED] ∧
             pluginRegistry.get name w' = Some (length (heap w), inst LOADED) ∧
             trace w' = trace w ++ t ∧
             emitted t = [plugin_loaded name (md_version meta)]).
Proof.
  intros name ctx inst. rewrite loadPlugin_eq. unfold loadPlugin_outcome.
  fold name ctx. split.
  - intros e ->. eexists _, _. split; [done|]. simpl.
    split; [done|]. split; [done|]. split; [by rewrite <- app_assoc|].
    autorewrite with history. reflexivity.
  - intros -> Hft. unfold emit_outcome.
    match goal with |- context [first_throw ?ev (listeners_of ?n ?w2)] =>
      change (listeners_of n w2) with (listeners_of "plugin:loaded" w) end.
    rewrite Hft. eexists _, _. split; [done|]. simpl.
    split; [done|]. split; [|split].
    + unfold pluginRegistry.get. simpl.
      rewrite JsMapFacts.get_set_eq. simpl. by rewrite lookup_last.
    + rewrite <- !app_assoc. done.
    + autorewrite with history. reflexivity.
Qed.

Lemma loadPlugin_registers_iff_onLoad_succeeds_witness :
  (∃ w' t, loadPlugin broken (meta_of "broken" "0.1.0") ["plugins"; "broken"] empty_world
             = (Threw (PluginLoadError "broken" (Some "no database")), w') ∧
           heap w' = [{| plugin := broken; metadata := meta_of "broken" "0.1.0";
                         context := createPluginContext (meta_of "broken" "0.1.0");
                         state := ERROR; path := ["plugins"; "broken"] |}] ∧
           plugins w' = [] ∧ trace w' = t ∧ emitted t = []) ∧
  (∃ w' t, loadPlugin (plain "cache" "2.0.0") (meta_of "cache" "2.0.0") ["plugins"; "cache"]
             empty_world = (Returned 0, w') ∧
           heap w' = [{| plugin := plain "cache" "2.0.0"; metadata := meta_of "cache" "2.0.0";
                         context := createPluginContext (meta_of "cache" "2.0.0");
                         state := LOADED; path := ["plugins"; "cache"] |}] ∧
           pluginRegistry.get "cache" w'
             = Some (0, {| plugin := plain "cache" "2.0.0"; metadata := meta_of "cache" "2.0.0";
                           context := createPluginContext (meta_of "cache" "2.0.0");
                           state := LOADED; path := ["plugins"; "cache"] |}) ∧
           trace w' = t ∧ emitted t = [plugin_loaded "cache" "2.0.0"]).
Proof.
  split.
  - pose proof (loadPlugin_registers_iff_onLoad_succeeds broken (meta_of "broken" "0.1.0")
                  ["plugins"; "broken"] empty_world) as H.
    cbv zeta in H. destruct H as [H _].
    exact (H (JsError "no database") eq_refl).
  - pose proof (loadPlugin_registers_iff_onLoad_succeeds (plain "cache" "2.0.0")
                  (meta_of "cache" "2.0.0") ["plugins"; "cache"] empty_world) as H.
    cbv zeta in H. destruct H as [_ H].
    exact (H eq_refl eq_refl).
Defined.

(** C2 fails as stated, in two ways.  The plugin [cache] has no [onLoad]
    hook, yet [loadPlugin] throws and leaves the instance in state [error]
    (and registered), because a listener of [plugin:loaded] threw inside the
    [try] block.  And when [onLoad] rejects with [null], what [loadPlugin]
    throws is no [PluginLoadError] but the [TypeError] of reading
    [null.message] in the [catch] block. *)
Lemma loadPlugin_counterexample :
  (pl_onLoad (plain "cache" "2.0.0") = None ∧
   (loadPlugin (plain "cache" "2.0.0") (meta_of "cache" "2.0.0") ["plugins"; "cache"]
      strict_bus).1 = Threw (PluginLoadError "cache" (Some "audit log unavailable")) ∧
   state_of "cache"
     (loadPlugin (plain "cache" "2.0.0") (meta_of "cache" "2.0.0") ["plugins"; "cache"]
        strict_bus).2 = Some ERROR) ∧
  (hook_result "metrics" onLoad nullish (createPluginContext (meta_of "metrics" "1.0.0"))
     [Invoked OpLoad "metrics"] = Some JsNull ∧
   (loadPlugin nullish (meta_of "metrics" "1.0.0") ["plugins"; "metrics"] empty_world).1
     = Threw (TypeError "Cannot read properties of null (reading 'message')") ∧
   (∀ message,
      TypeError "Cannot read properties of null (reading 'message')"
        ≠ PluginLoadError "metrics" message)).
Proof. repeat split; try reflexivity. intros message. discriminate. Qed.

(** ** Transitions in detail *)

Lemma transition_outcome_returned name h target ev msg r inst w0 w1 :
  transition_outcome name h target ev msg r inst w0 = (Returned tt, w1) →
  plugins w1 = plugins w0 ∧
  listeners w1 = listeners (after_emit ev w0) ∧
  heap w1 = alter (with_state target) r (heap w0) ∧
  trace w1 = trace w0 ++ hook_items name h (plugin inst) ++ [Emitted ev]
               ++ deliveries ev (listeners_of (ev_name ev) w0)
               ++ [Logged LogInfo msg name].
Proof.
  unfold transition_outcome.
  destruct (hook_result _ _ _ _ _); [done|].
  destruct (emit_outcome _ _); [|done].
  intros [= <-]. simpl. repeat split.
  by rewrite <- !app_assoc.
Qed.

(** A transition records no entry into an operation. *)
Lemma transition_outcome_calls name h target ev msg r inst w0 res w1 op :
  transition_outcome name h target ev msg r inst w0 = (res, w1) →
  ∃ t, trace w1 = trace w0 ++ t ∧ calls_of op t = [].
Proof.
  unfold transition_outcome.
  destruct (hook_result _ _ _ _ _).
  - intros [= <- <-]. simpl. eexists; split; [done|]. by autorewrite with history.
  - destruct (emit_outcome _ _); intros [= <- <-]; simpl.
    + eexists; split; [by rewrite <- !app_assoc|]. by autorewrite with history.
    + eexists; split; [by rewrite <- !app_assoc|]. by autorewrite with history.
Qed.

Lemma enablePlugin_calls name w res w' op :
  op ≠ OpEnable →
  enablePlugin name w = (res, w') →
  ∃ t, trace w' = trace w ++ t ∧ calls_of op t = [].
Proof.
  intros Hop Hrun.
  assert (Hc : calls_of op [Invoked OpEnable name] = []).
  { autorewrite with history. by rewrite decide_False by done. }
  destruct (pluginRegistry.get name w) as [[r inst]|] eqn:Hget.
  - destruct (decide (state inst = ENABLED)) as [Hst|Hst].
    + rewrite (enablePlugin_already _ _ _ _ Hget Hst) in Hrun.
      injection Hrun as <- <-. eexists; split; [done|]. done.
    + rewrite (enablePlugin_run _ _ _ _ Hget Hst) in Hrun.
      apply (transition_outcome_calls _ _ _ _ _ _ _ _ _ _ op) in Hrun as (t & Ht & Hct).
      simpl in Ht. eexists; split; [by rewrite Ht, <- app_assoc|].
      by rewrite calls_of_app, Hc, Hct.
  - rewrite (enablePlugin_not_found _ _ Hget) in Hrun.
    injection Hrun as <- <-. eexists; split; [done|]. done.
Qed.


(** ** Enabling twice *)

(** C8 (as amended): for a registered plugin that is not yet enabled and
    whose first [enablePlugin] call returns normally, a second call in a row
    returns normally as a no-op: over the two calls the [onEnable] hook runs
    exactly once (not at all when the plugin defines none), exactly one
    [plugin:enabled] event is emitted, and the second call changes neither
    the instances, nor the registry, nor the listeners. *)
Theorem enablePlugin_twice_runs_hook_once name w r inst w1 :
  pluginRegistry.get name w = Some (r, inst) →
  state inst ≠ ENABLED →
  enablePlugin name w = (Returned tt, w1) →
  ∃ w2 t, enablePlugin name w1 = (Returned tt, w2) ∧
          trace w2 = trace w ++ t ∧
          hooks_run t = match pl_onEnable (plugin inst) with
                        | Some _ => [(name, onEnable)]
                        | None => []
                        end ∧
          emitted t = [plugin_enabled name] ∧
          heap w2 = heap w1 ∧ plugins w2 = plugins w1 ∧ listeners w2 = listeners w1 ∧
          state_of name w2 = Some ENABLED.
Proof.
  intros Hget Hst Hrun.
  rewrite (enablePlugin_run _ _ _ _ Hget Hst) in Hrun.
  apply transition_outcome_returned in Hrun as (Hp & Hl & Hh & Ht).
  simpl in Hp, Hh, Ht.
  assert (Hget1 : pluginRegistry.get name w1 = Some (r, with_state ENABLED inst))
    by (eapply registry_get_alter; done).
  rewrite (enablePlugin_already _ _ _ _ Hget1 eq_refl).
  eexists _, _. split; [done|]. simpl.
  split; [by rewrite Ht, <- !app_assoc|].
  split; [|split]; [| |repeat split].
  - autorewrite with history. simpl. by destruct (pl_onEnable (plugin inst)).
  - autorewrite with history. done.
  - unfold state_of. change (pluginRegistry.get name (set_trace _ w1))
      with (pluginRegistry.get name w1). by rewrite Hget1.
Qed.

Lemma enablePlugin_twice_runs_hook_once_witness :
  ∃ w2 t, enablePlugin "auth" (enablePlugin "auth" healthy_loaded).2 = (Returned tt, w2) ∧
          trace w2 = trace healthy_loaded ++ t ∧
          hooks_run t = [("auth", onEnable)] ∧
          emitted t = [plugin_enabled "auth"] ∧
          heap w2 = heap (enablePlugin "auth" healthy_loaded).2 ∧
          plugins w2 = plugins (enablePlugin "auth" healthy_loaded).2 ∧
          listeners w2 = listeners (enablePlugin "auth" healthy_loaded).2 ∧
          state_of "auth" w2 = Some ENABLED.
Proof.
  apply (enablePlugin_twice_runs_hook_once "auth" healthy_loaded 0
           {| plugin := healthy "auth" "1.0.0"; metadata := meta_of "auth" "1.0.0";
              context := createPluginContext (meta_of "auth" "1.0.0");
              state := LOADED; path := ["plugins"; "auth"] |}).
  - reflexivity.
  - discriminate.
  - reflexivity.
Defined.

(** C8 fails as stated: on a registered plugin whose [onEnable] rejects, two
    [enablePlugin] calls in a row run the hook twice and emit no
    [plugin:enabled] event. *)
Lemma enablePlugin_twice_counterexample :
  pluginRegistry.has "search" fragile_loaded = true ∧
  hooks_run (trace (enablePlugin "search" (enablePlugin "search" fragile_loaded).2).2)
    = [("search", onEnable); ("search", onEnable)] ∧
  emitted (trace (enablePlugin "search" (enablePlugin "search" fragile_loaded).2).2)
    = [plugin_loaded "search" "3.1.0"].
Proof. repeat split; reflexivity. Qed.

(** ** Unloading *)

Lemma unloadPlugin_not_found name w :
  pluginRegistry.get name w = None →
  unloadPlugin name w = (Returned tt, set_trace (trace w ++ [Invoked OpUnload name]) w).
Proof.
  intros Hget. unfold unloadPlugin. monad_unfold. simpl.
  change (pluginRegistry.get name (set_trace (trace w ++ [Invoked OpUnload name]) w))
    with (pluginRegistry.get name w). by rewrite Hget.
Qed.

Lemma unloadPlugin_found name w r inst :
  pluginRegistry.get name w = Some (r, inst) →
  unloadPlugin name w =
    unloadPlugin_outcome name r inst (set_trace (trace w ++ [Invoked OpUnload name]) w).
Proof.
  intros Hget. unfold unloadPlugin, unloadPlugin_outcome, unload_finish.
  unfold pluginRegistry.unregister, JsMap.delete. monad_unfold. simpl.
  change (pluginRegistry.get name (set_trace (trace w ++ [Invoked OpUnload name]) w))
    with (pluginRegistry.get name w). rewrite Hget.
  set (w0 := set_trace (trace w ++ [Invoked OpUnload name]) w).
  destruct (decide (state inst = ENABLED)) as [Hst|Hst].
  - destruct (disablePlugin name w0) as [[[]|e] wa];
      [|unfold rethrown; by destruct (message_of e)].
    rewrite run_hook_eq. simpl.
    destruct (hook_result name onUnload (plugin inst) (context inst) (trace wa)) as [e|];
      [unfold rethrown; by destruct (message_of e)|].
    rewrite emitEvent_eq.
    destruct (emit_outcome _ _) as [b|e]; [done|].
    unfold rethrown; by destruct (message_of e).
  - rewrite run_hook_eq. simpl.
    destruct (hook_result name onUnload (plugin inst) (context inst) _) as [e|];
      [unfold rethrown; by destruct (message_of e)|].
    rewrite emitEvent_eq.
    destruct (emit_outcome _ _) as [b|e]; [done|].
    unfold rethrown; by destruct (message_of e).
Qed.



(** ** Error state *)

(** A transition runs its hook, once, whatever comes of it. *)
Lemma transition_outcome_hooks name h target ev msg r inst w0 res w' :
  transition_outcome name h target ev msg r inst w0 = (res, w') →
  ∃ t, trace w' = trace w0 ++ t ∧
       hooks_run t = hooks_defined name (plugin inst) [h].
Proof.
  assert (Hh : hooks_run (hook_items name h (plugin inst))
               = hooks_defined name (plugin inst) [h]).
  { rewrite hooks_run_hook_items. unfold hooks_defined. simpl.
    by destruct (hook_of (plugin inst) h). }
  unfold transition_outcome.
  destruct (hook_result _ _ _ _ _).
  - intros [= <- <-]. simpl. eexists. split; [done|]. exact Hh.
  - destruct (emit_outcome _ _); intros [= <- <-]; simpl.
    + eexists. split; [by rewrite <- !app_assoc|].
      autorewrite with history. unfold hooks_defined. simpl.
      by destruct (hook_of (plugin inst) h).
    + eexists. split; [by rewrite <- !app_assoc|].
      autorewrite with history. unfold hooks_defined. simpl.
      by destruct (hook_of (plugin inst) h).
Qed.

(** What [unloadPlugin] does to an instance it does not have to disable. *)
Lemma unload_finish_effect name r inst wa res w' :
  unload_finish name r inst wa = (res, w') →
  heap w' = alter (with_state (match res with Returned _ => UNLOADED | Threw _ => ERROR end))
              r (heap wa) ∧
  match res with
  | Returned _ => plugins w' = JsMap.remove name (plugins wa)
  | Threw _ => True
  end ∧
  ∃ t, trace w' = trace wa ++ t ∧
       hooks_run t = hooks_defined name (plugin inst) [onUnload] ∧
       calls_of OpDisable t = [].
Proof.
  assert (Hh : hooks_run (hook_items name onUnload (plugin inst))
               = hooks_defined name (plugin inst) [onUnload]).
  { rewrite hooks_run_hook_items. unfold hooks_defined. simpl.
    by repeat case_match. }
  unfold unload_finish.
  destruct (hook_result _ _ _ _ _).
  - intros [= <- <-]. simpl. split; [done|]. split; [done|].
    eexists. split; [done|]. split; [exact Hh|]. apply calls_of_hook_items.
  - destruct (emit_outcome _ _); intros [= <- <-]; simpl.
    + split; [done|]. split; [done|].
      eexists. split; [by rewrite <- !app_assoc|].
      autorewrite with history. unfold hooks_defined. simpl.
      split; [by repeat case_match | by rewrite ?calls_of_hook_items].
    + split; [by rewrite alter_with_state_twice|]. split; [done|].
      eexists. split; [by rewrite <- !app_assoc|].
      autorewrite with history. unfold hooks_defined. simpl.
      split; [by repeat case_match | by rewrite ?calls_of_hook_items].
Qed.

(** C1 (as amended): [error] is not absorbing.  Neither [enablePlugin] nor
    [disablePlugin] guards against the state [error]: on a registered
    instance in state [error] a single [enablePlugin] runs [onEnable] again
    (once, when the plugin defines it) and leaves the state [enabled] when
    it returns and [error] when it throws; [disablePlugin] likewise runs
    [onDisable] and leaves [disabled] or [error]; each call returns when the
    hook resolves (or is absent) and no listener of the lifecycle event
    throws.  [unloadPlugin] on such an instance does not disable it first:
    it runs [onUnload] and, when it returns, the instance is [unloaded] and
    no longer registered (the first half of a reload); when it throws, the
    instance stays in state [error]. *)
Theorem error_state_left_by_enable_and_disable name w r inst :
  pluginRegistry.get name w = Some (r, inst) →
  state inst = ERROR →
  (∀ res w', enablePlugin name w = (res, w') →
     state_of name w' = Some (match res with Returned _ => ENABLED | Threw _ => ERROR end) ∧
     ∃ t, trace w' = trace w ++ t ∧
          hooks_run t = hooks_defined name (plugin inst) [onEnable]) ∧
  (∀ res w', disablePlugin name w = (res, w') →
     state_of name w' = Some (match res with Returned _ => DISABLED | Threw _ => ERROR end) ∧
     ∃ t, trace w' = trace w ++ t ∧
          hooks_run t = hooks_defined name (plugin inst) [onDisable]) ∧
  (hook_result name onEnable (plugin inst) (context inst)
     (trace w ++ [Invoked OpEnable name]) = None →
   first_throw (plugin_enabled name) (listeners_of "plugin:enabled" w) = None →
   (enablePlugin name w).1 = Returned tt) ∧
  (hook_result name onDisable (plugin inst) (context inst)
     (trace w ++ [Invoked OpDisable name]) = None →
   first_throw (plugin_disabled name) (listeners_of "plugin:disabled" w) = None →
   (disablePlugin name w).1 = Returned tt) ∧
  (∀ res w', unloadPlugin name w = (res, w') →
     heap w' !! r =
       Some (with_state (match res with Returned _ => UNLOADED | Threw _ => ERROR end) inst) ∧
     match res with
     | Returned _ => pluginRegistry.get name w' = None
     | Threw _ => True
     end ∧
     ∃ t, trace w' = trace w ++ t ∧
          hooks_run t = hooks_defined name (plugin inst) [onUnload] ∧
          calls_of OpDisable t = []).
Proof.
  intros Hget Hst.
  assert (Hne : state inst ≠ ENABLED) by (rewrite Hst; done).
  assert (Hnd : state inst ≠ DISABLED) by (rewrite Hst; done).
  assert (Hnl : state inst ≠ LOADED) by (rewrite Hst; done).
  split; [|split; [|split; [|split]]].
  - intros res w' Hrun. rewrite (enablePlugin_run _ _ _ _ Hget Hne) in Hrun.
    pose proof (transition_outcome_hooks _ _ _ _ _ _ _ _ _ _ Hrun) as (t & Ht & Hh).
    apply transition_outcome_state in Hrun as [Hp Hheap].
    split.
    + unfold state_of.
      by erewrite registry_get_alter; [| exact Hget | exact Hp | exact Hheap].
    + exists ([Invoked OpEnable name] ++ t).
      split; [by rewrite Ht; simpl; rewrite <- app_assoc|].
      by autorewrite with history.
  - intros res w' Hrun. rewrite (disablePlugin_run _ _ _ _ Hget Hnd Hnl) in Hrun.
    pose proof (transition_outcome_hooks _ _ _ _ _ _ _ _ _ _ Hrun) as (t & Ht & Hh).
    apply transition_outcome_state in Hrun as [Hp Hheap].
    split.
    + unfold state_of.
      by erewrite registry_get_alter; [| exact Hget | exact Hp | exact Hheap].
    + exists ([Invoked OpDisable name] ++ t).
      split; [by rewrite Ht; simpl; rewrite <- app_assoc|].
      by autorewrite with history.
  - intros Hh He. rewrite (enablePlugin_run _ _ _ _ Hget Hne).
    by apply transition_outcome_returns.
  - intros Hh He. rewrite (disablePlugin_run _ _ _ _ Hget Hnd Hnl).
    by apply transition_outcome_returns.
  - intros res w' Hrun. rewrite (unloadPlugin_found _ _ _ _ Hget) in Hrun.
    unfold unloadPlugin_outcome in Hrun. rewrite decide_False in Hrun by done.
    apply unload_finish_effect in Hrun as (Hheap & Hp & t & Ht & Hh & Hc).
    assert (Hlk : heap w !! r = Some inst).
    { unfold pluginRegistry.get in Hget.
      destruct (JsMap.get name (plugins w)) as [r'|]; simpl in Hget; [|done].
      destruct (heap w !! r') as [i|] eqn:Hi; simpl in Hget; [|done].
      by injection Hget as -> ->. }
    split; [rewrite Hheap; simpl; by rewrite list_lookup_alter_eq, Hlk|].
    split.
    + destruct res; [|done]. unfold pluginRegistry.get. rewrite Hp. simpl.
      by rewrite JsMapFacts.get_remove_eq.
    + exists ([Invoked OpUnload name] ++ t).
      split; [by rewrite Ht; simpl; rewrite <- app_assoc|].
      by autorewrite with history.
Qed.

Lemma error_state_left_by_enable_and_disable_witness :
  state_of "mailer" mailer_error = Some ERROR ∧
  (enablePlugin "mailer" mailer_error).1 = Returned tt ∧
  state_of "mailer" (enablePlugin "mailer" mailer_error).2 = Some ENABLED ∧
  ∃ t, trace (enablePlugin "mailer" mailer_error).2 = trace mailer_error ++ t ∧
       hooks_run t = [("mailer", onEnable)].
Proof.
  split; [reflexivity|].
  destruct (error_state_left_by_enable_and_disable "mailer" mailer_error 0
              (with_state ERROR
                 {| plugin := mailer; metadata := meta_of "mailer" "1.0.0";
                    context := createPluginContext (meta_of "mailer" "1.0.0");
                    state := UNLOADED; path := ["plugins"; "mailer"] |}))
    as (Hen & _ & Hret & _); [reflexivity | reflexivity |].
  split; [apply Hret; reflexivity|].
  destruct (Hen _ _ (surjective_pairing _)) as [Hstate Hhooks].
  split; [|exact Hhooks].
  rewrite Hstate. by rewrite (Hret eq_refl eq_refl).
Defined.

(** C1 fails as stated: an instance in state [error] is moved to [enabled]
    by one [enablePlugin] call and to [disabled] by one [disablePlugin]
    call. *)
Lemma error_state_counterexample :
  state_of "mailer" mailer_error = Some ERROR ∧
  state_of "mailer" (enablePlugin "mailer" mailer_error).2 = Some ENABLED ∧
  state_of "mailer" (disablePlugin "mailer" mailer_error).2 = Some DISABLED.
Proof. repeat split; reflexivity. Qed.

(** C3: on a registered plugin in state [enabled] whose [onDisable] hook
    rejects, [unloadPlugin] throws, the state of the instance is [error],
    [onUnload] is not invoked (the only hook run is [onDisable]), and the
    instance is still registered.  What it throws is what the [catch] block
    of [unloadPlugin] makes of what the [catch] block of [disablePlugin]
    made of the rejection, whatever value the hook rejected with. *)
Theorem unloadPlugin_aborts_when_onDisable_fails name w r inst e :
  pluginRegistry.get name w = Some (r, inst) →
  state inst = ENABLED →
  hook_result name onDisable (plugin inst) (context inst)
    (trace w ++ [Invoked OpUnload name; Invoked OpDisable name]) = Some e →
  ∃ w' t,
    unloadPlugin name w =
      (Threw (rethrown (PluginLifecycleError name "onUnload")
                (rethrown (PluginLifecycleError name "onDisable") e)), w') ∧
    pluginRegistry.get name w' = Some (r, with_state ERROR inst) ∧
    trace w' = trace w ++ t ∧
    hooks_run t = [(name, onDisable)] ∧
    emitted t = [].
Proof.
  intros Hget Hst Hhook.
  rewrite (unloadPlugin_found _ _ _ _ Hget). unfold unloadPlugin_outcome.
  rewrite decide_True by done.
  set (w0 := set_trace (trace w ++ [Invoked OpUnload name]) w).
  assert (Hget0 : pluginRegistry.get name w0 = Some (r, inst)) by done.
  assert (Hnd : state inst ≠ DISABLED) by (rewrite Hst; discriminate).
  assert (Hnl : state inst ≠ LOADED) by (rewrite Hst; discriminate).
  rewrite (disablePlugin_run _ _ _ _ Hget0 Hnd Hnl).
  unfold transition_outcome. simpl.
  rewrite <- app_assoc. simpl. rewrite Hhook.
  eexists _, _. split; [done|]. split; [|split; [|split]].
  - eapply registry_get_alter; [exact Hget | done |]. simpl.
    by rewrite alter_with_state_twice.
  - simpl. by rewrite <- !app_assoc.
  - autorewrite with history.
    unfold hook_result in Hhook.
    destruct (hook_of (plugin inst) onDisable); [done | discriminate].
  - by autorewrite with history.
Qed.

Lemma unloadPlugin_aborts_when_onDisable_fails_witness :
  ∃ w' t,
    unloadPlugin "jobs" sticky_enabled =
      (Threw (AppError PLUGIN_LIFECYCLE_ERROR "queue busy (onDisable): jobs (onUnload): jobs"),
       w') ∧
    pluginRegistry.get "jobs" w'
      = Some (0, {| plugin := sticky; metadata := meta_of "jobs" "0.9.0";
                    context := createPluginContext (meta_of "jobs" "0.9.0");
                    state := ERROR; path := ["plugins"; "jobs"] |}) ∧
    trace w' = trace sticky_enabled ++ t ∧
    hooks_run t = [("jobs", onDisable)] ∧
    emitted t = [].
Proof.
  apply (unloadPlugin_aborts_when_onDisable_fails "jobs" sticky_enabled 0
           {| plugin := sticky; metadata := meta_of "jobs" "0.9.0";
              context := createPluginContext (meta_of "jobs" "0.9.0");
              state := ENABLED; path := ["plugins"; "jobs"] |}
           (JsError "queue busy")); reflexivity.
Defined.

(** ** Shutdown sweep *)






(** ** Discovery *)

Lemma loadPluginFromDirectory_eq fs dir w :
  loadPluginFromDirectory fs dir w =
    ((discovery (fs_package fs dir) (path_string dir)).1,
     set_trace (trace w ++ [Invoked OpDiscover (path_string dir)]
                  ++ (discovery (fs_package fs dir) (path_string dir)).2) w).
Proof.
  unfold loadPluginFromDirectory, discovery, entry_module. monad_unfold. simpl.
  destruct (plugin_json (fs_package fs dir)) as [[raw|e]|]; simpl;
    [| done | by rewrite <- app_assoc].
  destruct (validateMetadata raw (path_string dir)) as [meta|e]; simpl; [| done].
  destruct (md_enabled meta); simpl; [| by rewrite <- app_assoc].
  destruct (index_ts (fs_package fs dir)) as [[[|plug]|e]|]; simpl; try done.
  - destruct (decide (pl_name plug ≠ md_name meta)) as [Hne|Heq].
    + by rewrite decide_False by done.
    + apply dec_stable in Heq. by rewrite decide_True by done.
  - destruct (index_js (fs_package fs dir)) as [[[|plug]|e]|]; simpl; try done.
    destruct (decide (pl_name plug ≠ md_name meta)) as [Hne|Heq].
    + by rewrite decide_False by done.
    + apply dec_stable in Heq. by rewrite decide_True by done.
Qed.

Lemma discovery_logs package dirname op :
  calls_of op (discovery package dirname).2 = [] ∧
  hooks_run (discovery package dirname).2 = [] ∧
  emitted (discovery package dirname).2 = [].
Proof.
  unfold discovery.
  repeat match goal with
         | |- context [match ?x with _ => _ end] => destruct x
         end; done.
Qed.

Lemma loadPluginFromDirectory_frame fs dir w res w' :
  loadPluginFromDirectory fs dir w = (res, w') →
  heap w' = heap w ∧ plugins w' = plugins w ∧ listeners w' = listeners w ∧
  ∃ t, trace w' = trace w ++ t ∧
       (∀ op, calls_of op t = if decide (OpDiscover = op) then [path_string dir] else []) ∧
       hooks_run t = [] ∧ emitted t = [].
Proof.
  rewrite loadPluginFromDirectory_eq. intros [= <- <-]. simpl.
  split; [done|]. split; [done|]. split; [done|].
  eexists; split; [done|].
  split; [intros op|split].
  - rewrite calls_of_Invoked. rewrite (proj1 (discovery_logs _ _ op)).
    by destruct (decide (OpDiscover = op)).
  - rewrite hooks_run_Invoked. apply discovery_logs; exact OpLoad.
  - rewrite emitted_Invoked. apply discovery_logs; exact OpLoad.
Qed.

Lemma loadPlugin_calls plug meta pth w res w' op :
  loadPlugin plug meta pth w = (res, w') →
  ∃ t, trace w' = trace w ++ t ∧
       calls_of op t = if decide (OpLoad = op) then [md_name meta] else [].
Proof.
  rewrite loadPlugin_eq. unfold loadPlugin_outcome.
  destruct (hook_result _ _ _ _ _).
  - intros [= <- <-]. simpl. eexists; split; [by rewrite <- !app_assoc|].
    autorewrite with history. by destruct (decide (OpLoad = op)).
  - destruct (emit_outcome _ _); intros [= <- <-]; simpl.
    + eexists; split; [by rewrite <- !app_assoc|].
      autorewrite with history. by destruct (decide (OpLoad = op)).
    + eexists; split; [by rewrite <- !app_assoc|].
      autorewrite with history. by destruct (decide (OpLoad = op)).
Qed.

Lemma pair_of_fst {A B} (x : A * B) (a : A) : x.1 = a → x = (a, x.2).
Proof. intros <-. by destruct x. Qed.

(** The step of the loop in terms of its [try] block. *)
Lemma loadAllPlugins_step_eq fs this results dir w :
  loadAllPlugins_step fs this results dir w =
    match loadAllPlugins_try fs this results dir w with
    | (Returned rs, w1) => (Returned rs, w1)
    | (Threw err, w1) =>
        let w2 := set_trace (trace w1 ++ [Logged LogError "Failed to load plugin"
                                            (path_basename dir)]) w1 in
        match as_Error err with
        | Returned error =>
            (Returned (results ++ [{| success := false; pluginName := path_basename dir;
                                      error := Some error |}]), w2)
        | Threw e => (Threw e, w2)
        end
    end.
Proof.
  unfold loadAllPlugins_step, try_catch.
  destruct (loadAllPlugins_try fs this results dir w) as [[rs|err] w1]; [done|].
  monad_unfold. simpl. by destruct (as_Error err).
Qed.

(** The [try] block enters [loadPluginFromDirectory] exactly once, for its
    directory, whatever comes of it. *)
Lemma loadAllPlugins_try_calls fs this results dir w res w' :
  loadAllPlugins_try fs this results dir w = (res, w') →
  ∃ t, trace w' = trace w ++ t ∧ calls_of OpDiscover t = [path_string dir].
Proof.
  unfold loadAllPlugins_try. unfold bind at 1.
  destruct (loadPluginFromDirectory fs dir w) as [res1 w1] eqn:Hd.
  apply loadPluginFromDirectory_frame in Hd as (_ & _ & _ & t1 & Ht1 & Hc1 & _).
  specialize (Hc1 OpDiscover). rewrite decide_True in Hc1 by done.
  destruct res1 as [[[plug meta]|]|e].
  - unfold bind at 1.
    destruct (loadPlugin plug meta dir w1) as [[r|e] w2] eqn:Hl;
      apply (loadPlugin_calls _ _ _ _ _ _ OpDiscover) in Hl as (t2 & Ht2 & Hc2);
      rewrite decide_False in Hc2 by done.
    + unfold bind at 1. destruct (autoEnable this).
      * destruct (enablePlugin (md_name meta) w2) as [[[]|e] w3] eqn:He;
          apply (enablePlugin_calls _ _ _ _ OpDiscover) in He as (t3 & Ht3 & Hc3);
          intros [= <- <-]; exists (t1 ++ t2 ++ t3);
          (split; [by rewrite Ht3, Ht2, Ht1, <- !app_assoc|]);
          by rewrite !calls_of_app, Hc1, Hc2, Hc3.
      * unfold ret. intros [= <- <-]. exists (t1 ++ t2).
        split; [by rewrite Ht2, Ht1, <- !app_assoc|].
        by rewrite !calls_of_app, Hc1, Hc2.
    + intros [= <- <-]. exists (t1 ++ t2).
      split; [by rewrite Ht2, Ht1, <- !app_assoc|].
      by rewrite !calls_of_app, Hc1, Hc2.
  - unfold ret. intros [= <- <-]. by exists t1.
  - intros [= <- <-]. by exists t1.
Qed.

Lemma loadAllPlugins_step_calls fs this results dir w res w' :
  loadAllPlugins_step fs this results dir w = (res, w') →
  ∃ t, trace w' = trace w ++ t ∧ calls_of OpDiscover t = [path_string dir].
Proof.
  rewrite loadAllPlugins_step_eq.
  destruct (loadAllPlugins_try fs this results dir w) as [[rs|err] w1] eqn:Htry;
    apply loadAllPlugins_try_calls in Htry as (t & Ht & Hc).
  - intros [= <- <-]. by exists t.
  - destruct (as_Error err); intros [= <- <-]; simpl;
      exists (t ++ [Logged LogError "Failed to load plugin" (path_basename dir)]);
      (split; [by rewrite Ht, <- app_assoc|]);
      rewrite calls_of_app, Hc; by autorewrite with history.
Qed.

(** A step that returns has kept the results it was given. *)
Lemma loadAllPlugins_step_extends fs this results dir w rs w' :
  loadAllPlugins_step fs this results dir w = (Returned rs, w') →
  ∃ more, rs = results ++ more.
Proof.
  rewrite loadAllPlugins_step_eq. unfold loadAllPlugins_try. unfold bind at 1.
  destruct (loadPluginFromDirectory fs dir w) as [[[[plug meta]|]|e] w1].
  - unfold bind at 1. destruct (loadPlugin plug meta dir w1) as [[r|e] w2].
    + unfold bind at 1.
      destruct ((if autoEnable this then enablePlugin (md_name meta) else ret tt) w2)
        as [[[]|e] w3].
      * intros [= <- <-]. by eexists.
      * destruct (as_Error e); intros [= <- <-]. by eexists.
    + destruct (as_Error e); intros [= <- <-]. by eexists.
  - intros [= <- <-]. exists []. by rewrite app_nil_r.
  - destruct (as_Error e); intros [= <- <-]. by eexists.
Qed.

Lemma loadAllPlugins_loop_extends fs this dirs results w rs w' :
  loadAllPlugins_loop fs this dirs results w = (Returned rs, w') →
  ∃ more, rs = results ++ more.
Proof.
  revert results w. induction dirs as [|dir dirs IH]; intros results w; simpl.
  - intros [= <- <-]. exists []. by rewrite app_nil_r.
  - unfold bind.
    destruct (loadAllPlugins_step fs this results dir w) as [[rs1|e] w1] eqn:Hs; [|done].
    intros Hloop.
    apply loadAllPlugins_step_extends in Hs as [m1 ->].
    apply IH in Hloop as [m2 ->]. exists (m1 ++ m2). by rewrite app_assoc.
Qed.

Lemma loadAllPlugins_loop_app fs this pre post results w :
  loadAllPlugins_loop fs this (pre ++ post) results w =
    match loadAllPlugins_loop fs this pre results w with
    | (Returned rs, w1) => loadAllPlugins_loop fs this post rs w1
    | (Threw e, w1) => (Threw e, w1)
    end.
Proof.
  revert results w. induction pre as [|dir pre IH]; intros results w; simpl; [done|].
  unfold bind.
  destruct (loadAllPlugins_step fs this results dir w) as [[rs|e] w1]; [|done].
  apply IH.
Qed.

(** When every value thrown by a [try] block can be converted, the loop
    goes through all the directories, in order, and returns. *)
Lemma loadAllPlugins_loop_returns fs this dirs results w :
  catches_convert fs this dirs results w →
  ∃ rs w' t, loadAllPlugins_loop fs this dirs results w = (Returned rs, w') ∧
             trace w' = trace w ++ t ∧
             calls_of OpDiscover t = path_string <$> dirs.
Proof.
  revert results w. induction dirs as [|dir dirs IH]; intros results w.
  - intros _. exists results, w, []. by rewrite app_nil_r.
  - cbn [catches_convert loadAllPlugins_loop]. intros [Hconv Hrest]. unfold bind.
    destruct (loadAllPlugins_step fs this results dir w) as [res1 w1] eqn:Hs.
    pose proof (loadAllPlugins_step_calls _ _ _ _ _ _ _ Hs) as (t1 & Ht1 & Hc1).
    assert (∃ rs1, res1 = Returned rs1) as [rs1 ->].
    { rewrite loadAllPlugins_step_eq in Hs.
      destruct (loadAllPlugins_try fs this results dir w) as [[rs|err] w0].
      - injection Hs as <- <-. by eexists.
      - destruct Hconv as [error Herr]. rewrite Herr in Hs.
        injection Hs as <- <-. by eexists. }
    destruct (IH rs1 w1 Hrest) as (rs & w' & t & -> & Ht & Hc).
    exists rs, w', (t1 ++ t). split; [done|].
    split; [by rewrite Ht, Ht1, <- app_assoc|].
    by rewrite calls_of_app, fmap_cons, Hc1, Hc.
Qed.

Lemma catches_convert_app fs this pre post results w rs1 w1 :
  catches_convert fs this (pre ++ post) results w →
  loadAllPlugins_loop fs this pre results w = (Returned rs1, w1) →
  catches_convert fs this post rs1 w1.
Proof.
  revert results w. induction pre as [|dir pre IH]; intros results w; simpl.
  - by intros H [= <- <-].
  - intros [_ Hrest]. unfold bind.
    destruct (loadAllPlugins_step fs this results dir w) as [[rs|e] w0]; [|done].
    by apply IH.
Qed.

(** C5 (as amended): [loadAllPlugins] catches what the [try] block of a
    directory throws, and nothing else.  A root that does not exist gives
    the empty sequence.  When [readdirSync] reads the root and every value
    thrown by a [try] block can be converted by the [catch] block (it is an
    [Error], or [String()] converts it), [loadAllPlugins] returns, having
    visited every directory of the root in enumeration order; and each
    failure of a [try] block (malformed descriptor, missing entry module,
    name mismatch, failing hook) is the entry
    [{success: false, pluginName, error}] of the returned sequence, right
    after the results of the directories before it, the directories after
    it being processed still.  But [loadAllPlugins] throws when
    [readdirSync] throws, which happens outside every [try], and when the
    conversion [String(error)] throws inside the [catch] block; the
    directories that remain are then not visited. *)
Theorem loadAllPlugins_captures_try_failures fs this w :
  (fs_readdir fs (pluginsDir this) = None →
     (loadAllPlugins fs this w).1 = Returned []) ∧
  (∀ entries,
     fs_readdir fs (pluginsDir this) = Some (Returned entries) →
     catches_convert fs this (plugin_dirs this entries) [] w →
     ∃ results w' t,
       loadAllPlugins fs this w = (Returned results, w') ∧
       trace w' = trace w ++ t ∧
       calls_of OpDiscover t = path_string <$> plugin_dirs this entries) ∧
  (∀ entries pre dir post rs1 w1 err w2,
     fs_readdir fs (pluginsDir this) = Some (Returned entries) →
     catches_convert fs this (plugin_dirs this entries) [] w →
     plugin_dirs this entries = pre ++ dir :: post →
     loadAllPlugins_loop fs this pre [] w = (Returned rs1, w1) →
     loadAllPlugins_try fs this rs1 dir w1 = (Threw err, w2) →
     ∃ error more w',
       as_Error err = Returned error ∧
       loadAllPlugins fs this w =
         (Returned (rs1 ++ {| success := false; pluginName := path_basename dir;
                              error := Some error |} :: more), w')) ∧
  (∀ e, fs_readdir fs (pluginsDir this) = Some (Threw e) →
        loadAllPlugins fs this w = (Threw e, w)) ∧
  (∀ entries pre dir post rs1 w1 err w2 e,
     fs_readdir fs (pluginsDir this) = Some (Returned entries) →
     plugin_dirs this entries = pre ++ dir :: post →
     loadAllPlugins_loop fs this pre [] w = (Returned rs1, w1) →
     loadAllPlugins_try fs this rs1 dir w1 = (Threw err, w2) →
     as_Error err = Threw e →
     ∃ w' t, loadAllPlugins fs this w = (Threw e, w') ∧
             trace w' = trace w ++ t ∧
             calls_of OpDiscover t = path_string <$> (pre ++ [dir])).
Proof.
  split; [|split; [|split; [|split]]].
  - intros Hroot. unfold loadAllPlugins. by rewrite Hroot.
  - intros entries Hroot Hconv. unfold loadAllPlugins. rewrite Hroot.
    unfold bind, lift. by apply loadAllPlugins_loop_returns.
  - intros entries pre dir post rs1 w1 err w2 Hroot Hconv Hdirs Hpre Htry.
    unfold loadAllPlugins. rewrite Hroot. unfold bind at 1, lift.
    rewrite Hdirs in Hconv |- *.
    pose proof (catches_convert_app _ _ _ _ _ _ _ _ Hconv Hpre) as Hconv1.
    rewrite loadAllPlugins_loop_app, Hpre.
    cbn [catches_convert] in Hconv1. destruct Hconv1 as [Herr Hpost].
    rewrite loadAllPlugins_step_eq, Htry in Hpost. rewrite Htry in Herr.
    destruct Herr as [error Herr]. rewrite Herr in Hpost. simpl in Hpost.
    cbn [loadAllPlugins_loop]. unfold bind at 1.
    rewrite loadAllPlugins_step_eq, Htry, Herr. simpl.
    destruct (loadAllPlugins_loop_returns _ _ _ _ _ Hpost) as (rs' & w' & t & Hrun & _).
    rewrite Hrun. apply loadAllPlugins_loop_extends in Hrun as [more ->].
    exists error, more, w'. split; [done|]. by rewrite <- app_assoc.
  - intros e Hroot. unfold loadAllPlugins. by rewrite Hroot.
  - intros entries pre dir post rs1 w1 err w2 e Hroot Hdirs Hpre Htry Herr.
    unfold loadAllPlugins. rewrite Hroot. unfold bind at 1, lift.
    rewrite Hdirs, loadAllPlugins_loop_app, Hpre.
    cbn [loadAllPlugins_loop]. unfold bind at 1.
    rewrite loadAllPlugins_step_eq, Htry, Herr. simpl.
    assert (∃ t1, trace w1 = trace w ++ t1 ∧ calls_of OpDiscover t1 = path_string <$> pre)
      as (t1 & Ht1 & Hc1).
    { clear Hdirs. revert Hpre. generalize (@nil PluginLoadResult). revert w.
      induction pre as [|d pre IH]; intros w results; simpl.
      - intros [= <- <-]. exists []. by rewrite app_nil_r.
      - unfold bind.
        destruct (loadAllPlugins_step fs this results d w) as [[rs|e0] w0] eqn:Hs; [|done].
        apply loadAllPlugins_step_calls in Hs as (t0 & Ht0 & Hc0).
        intros Hloop. apply IH in Hloop as (t1 & Ht1 & Hc1).
        exists (t0 ++ t1). split; [by rewrite Ht1, Ht0, <- app_assoc|].
        by rewrite calls_of_app, Hc0, Hc1. }
    apply loadAllPlugins_try_calls in Htry as (t2 & Ht2 & Hc2).
    eexists _, (t1 ++ t2 ++ [Logged LogError "Failed to load plugin" (path_basename dir)]).
    split; [done|]. simpl.
    split; [by rewrite Ht2, Ht1, <- !app_assoc|].
    rewrite !calls_of_app, Hc1, Hc2, fmap_app. by autorewrite with history.
Qed.

Lemma loadAllPlugins_captures_try_failures_witness :
  (loadAllPlugins demo_fs (createPluginLoader ["no-such-dir"] None) empty_world).1
    = Returned [] ∧
  (∃ results w' t,
     loadAllPlugins demo_fs demo_loader empty_world = (Returned results, w') ∧
     trace w' = trace empty_world ++ t ∧
     calls_of OpDiscover t =
       ["plugins/auth"; "plugins/bad"; "plugins/empty"; "plugins/nomodule"; "plugins/off";
        "plugins/search"; "plugins/renamed"; "plugins/broken"]) ∧
  (∃ error more w',
     as_Error (PluginLoadError "plugins/bad"
                 (Some "Invalid plugin.json: missing or invalid name")) = Returned error ∧
     loadAllPlugins demo_fs demo_loader empty_world =
       (Returned ([{| success := true; pluginName := "auth"; error := None |}]
                  ++ {| success := false; pluginName := "bad"; error := Some error |}
                  :: more), w')) ∧
  loadAllPlugins file_root_fs demo_loader empty_world =
    (Threw (JsError "ENOTDIR: not a directory, scandir 'plugins'"), empty_world) ∧
  (∃ w' t,
     loadAllPlugins opaque_fs demo_loader empty_world =
       (Threw (TypeError "Cannot convert object to primitive value"), w') ∧
     trace w' = trace empty_world ++ t ∧
     calls_of OpDiscover t = ["plugins/opaque"]).
Proof.
  assert (Hconv : catches_convert demo_fs demo_loader
                    (plugin_dirs demo_loader
                       [dirent "auth" true; dirent "README.md" false; dirent "bad" true;
                        dirent "empty" true; dirent "nomodule" true; dirent "off" true;
                        dirent "search" true; dirent "renamed" true; dirent "broken" true])
                    [] empty_world).
  { vm_compute. repeat split; by eexists. }
  destruct (loadAllPlugins_captures_try_failures demo_fs
              (createPluginLoader ["no-such-dir"] None) empty_world) as (Hroot & _).
  destruct (loadAllPlugins_captures_try_failures demo_fs demo_loader empty_world)
    as (_ & Hall & Hdir & _).
  destruct (loadAllPlugins_captures_try_failures file_root_fs demo_loader empty_world)
    as (_ & _ & _ & Hfile & _).
  destruct (loadAllPlugins_captures_try_failures opaque_fs demo_loader empty_world)
    as (_ & _ & _ & _ & Hopaque).
  split; [apply Hroot; reflexivity|].
  split; [exact (Hall _ eq_refl Hconv)|].
  split.
  - eapply (Hdir _ [["plugins"; "auth"]] ["plugins"; "bad"]
              [["plugins"; "empty"]; ["plugins"; "nomodule"]; ["plugins"; "off"];
               ["plugins"; "search"]; ["plugins"; "renamed"]; ["plugins"; "broken"]]
              [{| success := true; pluginName := "auth"; error := None |}]
              (loadAllPlugins_loop demo_fs demo_loader [["plugins"; "auth"]] []
                 empty_world).2
              (PluginLoadError "plugins/bad"
                 (Some "Invalid plugin.json: missing or invalid name"))).
    + reflexivity.
    + exact Hconv.
    + reflexivity.
    + apply pair_of_fst. reflexivity.
    + apply pair_of_fst. reflexivity.
  - split; [apply Hfile; reflexivity|].
    eapply (Hopaque _ [] ["plugins"; "opaque"] [["plugins"; "auth"]] [] empty_world
              (NonError (inr (TypeError "Cannot convert object to primitive value")) None)).
    + reflexivity.
    + reflexivity.
    + reflexivity.
    + apply pair_of_fst. reflexivity.
    + reflexivity.
Defined.

(** C5 fails as stated: [loadAllPlugins] throws for a plugins root that is a
    file, because [readdirSync] throws outside every [try]; and it throws
    when a module throws a value that [String()] cannot convert, because
    the conversion is made in the [catch] block: the directory [auth], which
    comes after, is not visited and not loaded. *)
Lemma loadAllPlugins_throws_counterexample :
  fs_readdir file_root_fs (pluginsDir demo_loader)
    = Some (Threw (JsError "ENOTDIR: not a directory, scandir 'plugins'")) ∧
  (loadAllPlugins file_root_fs demo_loader empty_world).1
    = Threw (JsError "ENOTDIR: not a directory, scandir 'plugins'") ∧
  (loadAllPlugins opaque_fs demo_loader empty_world).1
    = Threw (TypeError "Cannot convert object to primitive value") ∧
  calls_of OpDiscover (trace (loadAllPlugins opaque_fs demo_loader empty_world).2)
    = ["plugins/opaque"] ∧
  pluginRegistry.has "auth" (loadAllPlugins opaque_fs demo_loader empty_world).2 = false.
Proof. repeat split; reflexivity. Qed.

(** Discovery isolation on [demo_fs]: the failures of [bad], [nomodule],
    [search], [renamed] and [broken] are entries of the result, [empty] and
    [off] leave no entry, and [auth] is loaded and enabled. *)
Example loadAllPlugins_demo :
  (loadAllPlugins demo_fs demo_loader empty_world).1 =
    Returned
      [{| success := true; pluginName := "auth"; error := None |};
       {| success := false; pluginName := "bad";
          error := Some (PluginLoadError "plugins/bad"
                           (Some "Invalid plugin.json: missing or invalid name")) |};
       {| success := false; pluginName := "nomodule";
          error := Some (PluginLoadError "nomodule" (Some "No index.ts or index.js found")) |};
       {| success := false; pluginName := "search";
          error := Some (PluginLifecycleError "search" "onEnable" (Some "index missing")) |};
       {| success := false; pluginName := "renamed";
          error := Some (PluginLoadError "renamed"
                           (Some "Plugin name mismatch: original vs renamed")) |};
       {| success := false; pluginName := "broken";
          error := Some (PluginLoadError "broken" (Some "no database")) |}] ∧
  getAllPluginStatuses (loadAllPlugins demo_fs demo_loader empty_world).2 =
    [("auth", ENABLED, "1.0.0"); ("search", ERROR, "3.1.0")].
Proof. split; reflexivity. Qed.

(** ** Descriptor defaulting *)


(** ** Name and version of the module *)

(** A module whose [name] differs from the name of the descriptor is
    rejected, with an error that shows both names. *)
Lemma name_mismatch_rejected package dirname raw meta plug :
  plugin_json package = Some (Returned raw) →
  validateMetadata raw dirname = Returned meta →
  md_enabled meta = true →
  entry_module package = Some (Returned (PluginObject plug)) →
  pl_name plug ≠ md_name meta →
  (discovery package dirname).1 =
    Threw (PluginLoadError (md_name meta)
             (Some ("Plugin name mismatch: " +:+ pl_name plug +:+ " vs " +:+ md_name meta))).
Proof.
  intros Hj Hv He Hm Hne. unfold discovery. rewrite Hj, Hv, He, Hm.
  by rewrite decide_False by done.
Qed.

(** The version of the module is never compared with the version of the
    descriptor: whatever it is, discovery answers the plugin. *)
Lemma version_not_compared package dirname raw meta plug :
  plugin_json package = Some (Returned raw) →
  validateMetadata raw dirname = Returned meta →
  md_enabled meta = true →
  entry_module package = Some (Returned (PluginObject plug)) →
  pl_name plug = md_name meta →
  (discovery package dirname).1 = Returned (Some (plug, meta)).
Proof.
  intros Hj Hv He Hm Hn. unfold discovery. rewrite Hj, Hv, He, Hm.
  by rewrite decide_True by done.
Qed.

(** C6 (the code at the failing input): the descriptor declares version
    [1.0.0], the module exports version [2.0.0]; loading succeeds, and the
    plugin is registered and enabled. *)
Theorem version_mismatch_is_loaded :
  pl_version (plain "billing" "2.0.0") ≠ "1.0.0" ∧
  (loadPluginFromDirectory skewed_fs ["plugins"; "billing"] empty_world).1
    = Returned (Some (plain "billing" "2.0.0", meta_of "billing" "1.0.0")) ∧
  (loadAllPlugins skewed_fs demo_loader empty_world).1
    = Returned [{| success := true; pluginName := "billing"; error := None |}] ∧
  getAllPluginStatuses (loadAllPlugins skewed_fs demo_loader empty_world).2
    = [("billing", ENABLED, "1.0.0")].
Proof. split; [discriminate|]. repeat split; reflexivity. Qed.

(** ** Reload *)

Lemma disablePlugin_plugins name w res w' :
  disablePlugin name w = (res, w') → plugins w' = plugins w.
Proof.
  intros Hrun.
  destruct (pluginRegistry.get name w) as [[r inst]|] eqn:Hget.
  - destruct (decide (state inst = DISABLED ∨ state inst = LOADED)) as [Hst|Hst].
    + rewrite (disablePlugin_already _ _ _ _ Hget Hst) in Hrun. by injection Hrun as <- <-.
    + rewrite (disablePlugin_run _ _ _ _ Hget) in Hrun by tauto.
      by apply transition_outcome_state in Hrun as [Hp _].
  - rewrite (disablePlugin_not_found _ _ Hget) in Hrun. by injection Hrun as <- <-.
Qed.

Lemma unload_finish_returned name r inst wa w1 :
  unload_finish name r inst wa = (Returned tt, w1) →
  plugins w1 = JsMap.remove name (plugins wa).
Proof.
  unfold unload_finish.
  destruct (hook_result _ _ _ _ _); [done|].
  destruct (emit_outcome _ _); [|done].
  by intros [= <-].
Qed.

(** An [unloadPlugin] that returns has dropped the entry of the plugin. *)
Lemma unloadPlugin_returned name w r inst w1 :
  pluginRegistry.get name w = Some (r, inst) →
  unloadPlugin name w = (Returned tt, w1) →
  plugins w1 = JsMap.remove name (plugins w).
Proof.
  intros Hget Hrun. rewrite (unloadPlugin_found _ _ _ _ Hget) in Hrun.
  unfold unloadPlugin_outcome in Hrun.
  destruct (decide (state inst = ENABLED)) as [Hst|Hst].
  - destruct (disablePlugin name _) as [[[]|e] wa] eqn:Hdis; [|done].
    apply disablePlugin_plugins in Hdis. apply unload_finish_returned in Hrun.
    by rewrite Hrun, Hdis.
  - by apply unload_finish_returned in Hrun.
Qed.

Lemma registry_get_removed name w :
  pluginRegistry.get name (set_plugins (JsMap.remove name (plugins w)) w) = None.
Proof. unfold pluginRegistry.get. simpl. by rewrite JsMapFacts.get_remove_eq. Qed.

(** C10 (as amended): [reloadPlugin] is not atomic.  Once the unload step
    has returned, if re-discovery throws or answers nothing (descriptor
    missing, malformed or [enabled: false], module missing or mismatched) or
    if the new [onLoad] rejects, [reloadPlugin] throws and the registry is
    the one the unload left: the entry of the plugin is gone and nothing is
    put back.  If instead re-loading fails because a listener of
    [plugin:loaded] throws, [reloadPlugin] throws as well, but the plugin is
    not absent: the new instance stays registered, in state [error].  In
    neither case is the instance that was loaded before put back. *)
Theorem reloadPlugin_not_atomic fs name w r inst w1 res w2 :
  pluginRegistry.get name w = Some (r, inst) →
  unloadPlugin name w = (Returned tt, w1) →
  loadPluginFromDirectory fs (path inst) w1 = (res, w2) →
  (rediscovery_or_onLoad_fails res w2 →
     ∃ e w', reloadPlugin fs name w = (Threw e, w') ∧
             pluginRegistry.get name w' = None ∧
             plugins w' = JsMap.remove name (plugins w)) ∧
  (∀ plug meta err,
     res = Returned (Some (plug, meta)) →
     hook_result (md_name meta) onLoad plug (createPluginContext meta)
       (trace w2 ++ [Invoked OpLoad (md_name meta)]) = None →
     first_throw (plugin_loaded (md_name meta) (md_version meta))
       (listeners_of "plugin:loaded" w2) = Some err →
     ∃ w', reloadPlugin fs name w =
             (Threw (match message_of err with
                     | Returned message => PluginLoadError (md_name meta) message
                     | Threw e' => e'
                     end), w') ∧
           pluginRegistry.get (md_name meta) w' =
             Some (length (heap w2),
                   {| plugin := plug; metadata := meta;
                      context := createPluginContext meta;
                      state := ERROR; path := path inst |}) ∧
           plugins w' =
             JsMap.set (md_name meta) (length (heap w2)) (JsMap.remove name (plugins w))).
Proof.
  intros Hget Hun Hdisc.
  pose proof (unloadPlugin_returned _ _ _ _ _ Hget Hun) as Hp1.
  pose proof Hdisc as Hframe.
  apply loadPluginFromDirectory_frame in Hframe as (_ & Hp2 & _).
  assert (Hgone : ∀ w', plugins w' = JsMap.remove name (plugins w) →
                        pluginRegistry.get name w' = None).
  { intros w' Hp. unfold pluginRegistry.get. rewrite Hp.
    by rewrite JsMapFacts.get_remove_eq. }
  assert (Hrun : reloadPlugin fs name w =
                 match res with
                 | Returned (Some (plug, meta)) =>
                     (loadPlugin plug meta (path inst) >>
                      enablePlugin name >> log LogInfo "Plugin reloaded" name) w2
                 | Returned None =>
                     (Threw (PluginLoadError name (Some "Failed to reload plugin")), w2)
                 | Threw e => (Threw e, w2)
                 end).
  { unfold reloadPlugin. unfold bind at 1. unfold gets. rewrite Hget.
    unfold bind at 1. rewrite Hun. unfold bind at 1. rewrite Hdisc.
    by destruct res as [[[plug meta]|]|e]. }
  rewrite Hrun. split.
  - intros Hfail. destruct res as [[[plug meta]|]|e]; simpl in Hfail.
    + destruct Hfail as [e He].
      unfold bind at 1. rewrite loadPlugin_eq. unfold loadPlugin_outcome. rewrite He.
      eexists _, _. split; [done|]. simpl.
      split; [apply Hgone; simpl|]; by rewrite Hp2, Hp1.
    + eexists _, _. split; [done|].
      split; [apply Hgone|]; by rewrite Hp2, Hp1.
    + eexists _, _. split; [done|].
      split; [apply Hgone|]; by rewrite Hp2, Hp1.
  - intros plug meta err -> Hhook Hft.
    unfold bind at 1. rewrite loadPlugin_eq. unfold loadPlugin_outcome. rewrite Hhook.
    unfold emit_outcome.
    match goal with |- context [first_throw ?ev (listeners_of ?n ?w3)] =>
      change (listeners_of n w3) with (listeners_of "plugin:loaded" w2) end.
    rewrite Hft. eexists. split; [done|]. simpl. split.
    + unfold pluginRegistry.get. simpl. rewrite JsMapFacts.get_set_eq. simpl.
      by rewrite lookup_last.
    + by rewrite Hp2, Hp1.
Qed.

Lemma reloadPlugin_not_atomic_witness :
  pluginRegistry.has "auth" demo_world = true ∧
  ∃ e w', reloadPlugin wiped_fs "auth" demo_world = (Threw e, w') ∧
          pluginRegistry.get "auth" w' = None ∧
          plugins w' = JsMap.remove "auth" (plugins demo_world).
Proof.
  split; [reflexivity|].
  eapply (reloadPlugin_not_atomic wiped_fs "auth" demo_world 0
            {| plugin := healthy "auth" "1.0.0";
               metadata := {| md_name := "auth"; md_version := "1.0.0";
                              md_description := None; md_enabled := true;
                              md_author := None |};
               context := createPluginContext
                            {| md_name := "auth"; md_version := "1.0.0";
                               md_description := None; md_enabled := true;
                               md_author := None |};
               state := ENABLED; path := ["plugins"; "auth"] |}).
  - reflexivity.
  - reflexivity.
  - apply surjective_pairing.
  - vm_compute. exact I.
Defined.

(** C10 fails as stated: the unload step succeeds and re-loading fails (a
    listener of [plugin:loaded] throws), [reloadPlugin] throws, yet the
    plugin is not absent from the registry: it is registered, in state
    [error]. *)
Lemma reloadPlugin_listener_counterexample :
  state_of "auth" audited_world = Some ENABLED ∧
  (unloadPlugin "auth" audited_world).1 = Returned tt ∧
  (reloadPlugin demo_fs "auth" audited_world).1
    = Threw (PluginLoadError "auth" (Some "audit log unavailable")) ∧
  pluginRegistry.has "auth" (reloadPlugin demo_fs "auth" audited_world).2 = true ∧
  state_of "auth" (reloadPlugin demo_fs "auth" audited_world).2 = Some ERROR.
Proof. repeat split; reflexivity. Qed.

(** ** The registry invariant *)

Lemma elem_of_JsMap_set {V} k v (m : list (string * V)) k' v' :
  (k', v') ∈ JsMap.set k v m → (k', v') = (k, v) ∨ (k', v') ∈ m.
Proof.
  induction m as [|[k0 v0] m IH]; simpl.
  - intros H. apply list_elem_of_singleton in H. by left.
  - destruct (decide (k0 = k)) as [->|Hne].
    + intros H. apply elem_of_cons in H as [H|H]; [by left|].
      right. by apply elem_of_cons; right.
    + intros H. apply elem_of_cons in H as [H|H].
      * right. apply elem_of_cons. by left.
      * destruct (IH H) as [?|?]; [by left|]. right. apply elem_of_cons. by right.
Qed.

Lemma registry_ok_empty : registry_ok empty_world.
Proof.
  split; [apply NoDup_nil_2|]. intros k r H. by apply elem_of_nil in H.
Qed.

(** State changes and new objects keep the invariant as long as the map is
    the same, gains the new object under its name, or loses a key. *)
Lemma registry_ok_alter w w' r s :
  plugins w' = plugins w →
  heap w' = alter (with_state s) r (heap w) →
  registry_ok w → registry_ok w'.
Proof.
  intros Hp Hh [Hnd Hin]. split; [by rewrite Hp|].
  intros k r0. rewrite Hp, Hh. intros Hk.
  destruct (Hin k r0 Hk) as (i & Hi & Hname).
  destruct (decide (r = r0)) as [->|Hne].
  - exists (with_state s i). by rewrite list_lookup_alter_eq, Hi.
  - exists i. by rewrite list_lookup_alter_ne.
Qed.

Lemma registry_ok_same w w' :
  plugins w' = plugins w → heap w' = heap w → registry_ok w → registry_ok w'.
Proof. intros Hp Hh [Hnd Hin]. split; [by rewrite Hp|]. by rewrite Hp, Hh. Qed.

Lemma registry_ok_alloc w w' i :
  plugins w' = plugins w →
  heap w' = heap w ++ [i] →
  registry_ok w → registry_ok w'.
Proof.
  intros Hp Hh [Hnd Hin]. split; [by rewrite Hp|].
  intros k r. rewrite Hp, Hh. intros Hk.
  destruct (Hin k r Hk) as (i0 & Hi0 & Hname).
  exists i0. split; [|done]. by apply lookup_app_l_Some.
Qed.

Lemma registry_ok_register w w' i :
  plugins w' = JsMap.set (md_name (metadata i)) (length (heap w)) (plugins w) →
  heap w' = heap w ++ [i] →
  registry_ok w → registry_ok w'.
Proof.
  intros Hp Hh [Hnd Hin]. split; [rewrite Hp; by apply JsMapFacts.NoDup_keys_set|].
  intros k r. rewrite Hp, Hh. intros Hk.
  apply elem_of_JsMap_set in Hk as [[= -> ->]|Hk].
  - exists i. by rewrite lookup_last.
  - destruct (Hin k r Hk) as (i0 & Hi0 & Hname).
    exists i0. split; [|done]. by apply lookup_app_l_Some.
Qed.

Lemma registry_ok_remove w w' name :
  plugins w' = JsMap.remove name (plugins w) →
  heap w' = heap w →
  registry_ok w → registry_ok w'.
Proof.
  intros Hp Hh [Hnd Hin]. split; [rewrite Hp; by apply JsMapFacts.NoDup_keys_remove|].
  intros k r. rewrite Hp, Hh. unfold JsMap.remove. intros Hk.
  apply list_elem_of_filter in Hk as [_ Hk]. by apply Hin.
Qed.

(** Under the invariant the registered names are the keys of the map. *)
Lemma registered_names_keys w :
  registry_ok w → registered_names w = JsMap.keys (plugins w).
Proof.
  intros [_ Hin]. unfold registered_names, pluginRegistry.getAll, JsMap.values, JsMap.keys.
  induction (plugins w) as [|[k r] m IH]; [done|].
  destruct (Hin k r) as (i & Hi & Hname); [apply elem_of_cons; by left|].
  csimpl. rewrite Hi. csimpl. rewrite Hname. f_equal.
  apply IH. intros k' r' H. apply Hin. apply elem_of_cons. by right.
Qed.

Lemma transition_outcome_ok name h target ev msg r inst w0 res w' :
  transition_outcome name h target ev msg r inst w0 = (res, w') →
  registry_ok w0 → registry_ok w'.
Proof.
  intros Hrun Hok. apply transition_outcome_state in Hrun as [Hp Hh].
  by eapply registry_ok_alter.
Qed.

Lemma enablePlugin_registry_ok name w res w' :
  enablePlugin name w = (res, w') → registry_ok w → registry_ok w'.
Proof.
  intros Hrun Hok.
  destruct (pluginRegistry.get name w) as [[r inst]|] eqn:Hget.
  - destruct (decide (state inst = ENABLED)) as [Hst|Hst].
    + rewrite (enablePlugin_already _ _ _ _ Hget Hst) in Hrun. injection Hrun as <- <-. by eapply registry_ok_same.
    + rewrite (enablePlugin_run _ _ _ _ Hget Hst) in Hrun.
      eapply transition_outcome_ok; [exact Hrun|].
      by eapply registry_ok_same.
  - rewrite (enablePlugin_not_found _ _ Hget) in Hrun. injection Hrun as <- <-. by eapply registry_ok_same.
Qed.

Lemma disablePlugin_registry_ok name w res w' :
  disablePlugin name w = (res, w') → registry_ok w → registry_ok w'.
Proof.
  intros Hrun Hok.
  destruct (pluginRegistry.get name w) as [[r inst]|] eqn:Hget.
  - destruct (decide (state inst = DISABLED ∨ state inst = LOADED)) as [Hst|Hst].
    + rewrite (disablePlugin_already _ _ _ _ Hget Hst) in Hrun. injection Hrun as <- <-. by eapply registry_ok_same.
    + rewrite (disablePlugin_run _ _ _ _ Hget) in Hrun by tauto.
      eapply transition_outcome_ok; [exact Hrun|].
      by eapply registry_ok_same.
  - rewrite (disablePlugin_not_found _ _ Hget) in Hrun. injection Hrun as <- <-. by eapply registry_ok_same.
Qed.

Lemma loadPlugin_registry_ok plug meta pth w res w' :
  loadPlugin plug meta pth w = (res, w') → registry_ok w → registry_ok w'.
Proof.
  rewrite loadPlugin_eq. unfold loadPlugin_outcome. intros Hrun Hok.
  destruct (hook_result _ _ _ _ _).
  - injection Hrun as <- <-. eapply (registry_ok_alloc w); [done|reflexivity|done].
  - destruct (emit_outcome _ _); injection Hrun as <- <-.
    + eapply (registry_ok_register w _
                {| plugin := plug; metadata := meta;
                   context := createPluginContext meta;
                   state := LOADED; path := pth |}); [reflexivity|reflexivity|done].
    + eapply (registry_ok_register w _
                {| plugin := plug; metadata := meta;
                   context := createPluginContext meta;
                   state := ERROR; path := pth |}); [reflexivity|reflexivity|done].
Qed.

Lemma unload_finish_ok name r inst wa res w' :
  unload_finish name r inst wa = (res, w') → registry_ok wa → registry_ok w'.
Proof.
  unfold unload_finish. intros Hrun Hok.
  destruct (hook_result _ _ _ _ _).
  - injection Hrun as <- <-. eapply (registry_ok_alter wa); [reflexivity|reflexivity|done].
  - assert (Hmid : registry_ok
                     (set_plugins (JsMap.remove name (plugins wa))
                        (set_heap (alter (with_state UNLOADED) r (heap wa)) wa))).
    { eapply (registry_ok_remove (set_heap (alter (with_state UNLOADED) r (heap wa)) wa));
        [reflexivity | reflexivity |].
      eapply (registry_ok_alter wa); [reflexivity|reflexivity|done]. }
    destruct (emit_outcome _ _); injection Hrun as <- <-.
    + eapply registry_ok_same; [| |exact Hmid]; reflexivity.
    + eapply registry_ok_alter; [| |exact Hmid]; reflexivity.
Qed.

Lemma unloadPlugin_registry_ok name w res w' :
  unloadPlugin name w = (res, w') → registry_ok w → registry_ok w'.
Proof.
  intros Hrun Hok.
  destruct (pluginRegistry.get name w) as [[r inst]|] eqn:Hget.
  - rewrite (unloadPlugin_found _ _ _ _ Hget) in Hrun. unfold unloadPlugin_outcome in Hrun.
    destruct (decide (state inst = ENABLED)) as [Hst|Hst].
    + destruct (disablePlugin name _) as [[[]|e] wa] eqn:Hdis;
        pose proof (disablePlugin_registry_ok _ _ _ _ Hdis) as Hwa.
      * eapply unload_finish_ok; [exact Hrun|]. apply Hwa.
        by eapply registry_ok_same.
      * injection Hrun as <- <-.
        eapply (registry_ok_alter wa); [reflexivity|reflexivity|]. apply Hwa.
        by eapply registry_ok_same.
    + eapply unload_finish_ok; [exact Hrun|]. by eapply registry_ok_same.
  - rewrite (unloadPlugin_not_found _ _ Hget) in Hrun. injection Hrun as <- <-. by eapply registry_ok_same.
Qed.

Lemma unloadAllPlugins_registry_ok w res w' :
  unloadAllPlugins w = (res, w') → registry_ok w → registry_ok w'.
Proof.
  unfold unloadAllPlugins. unfold bind at 1. unfold gets.
  generalize (reverse (pluginRegistry.getAll w)). intros l. revert w.
  induction l as [|ri l IH]; intros w Hrun Hok.
  - by injection Hrun as <- <-.
  - simpl in Hrun. unfold bind at 1 in Hrun. unfold try_catch in Hrun.
    destruct (unloadPlugin (md_name (metadata ri.2)) w) as [[[]|e] w1] eqn:Hun;
      pose proof (unloadPlugin_registry_ok _ _ _ _ Hun Hok) as Hok1.
    + by eapply IH.
    + monad_unfold. simpl in Hrun. eapply IH; [exact Hrun|].
      by eapply registry_ok_same.
Qed.

(** The sweep on [three_enabled]: last registered first; the failure of
    [jobs] is swallowed, and [jobs] stays registered in state [error]. *)
Example unloadAllPlugins_demo :
  registered_names three_enabled = ["auth"; "jobs"; "cache"] ∧
  (unloadAllPlugins three_enabled).1 = Returned tt ∧
  calls_of OpUnload (drop (length (trace three_enabled))
                       (trace (unloadAllPlugins three_enabled).2))
    = ["cache"; "jobs"; "auth"] ∧
  getAllPluginStatuses (unloadAllPlugins three_enabled).2 = [("jobs", ERROR, "0.9.0")].
Proof. repeat split; reflexivity. Qed.

(** * Further properties of the code *)

(** ** Registry operations *)

Lemma JsMap_remove_absent {V} k (m : list (string * V)) :
  JsMap.get k m = None → JsMap.remove k m = m.
Proof.
  unfold JsMap.remove. induction m as [|[k0 v0] m IH]; [done|]. simpl.
  destruct (decide (k0 = k)) as [->|Hne]; [done|]. intros Hget.
  rewrite filter_cons. simpl. rewrite decide_True by done. by rewrite IH.
Qed.

(** X1: [register] files the instance under the name of its metadata:
    [get] and [has] then find it, the other names are untouched, a name that
    was registered keeps its place in the enumeration order (the entry is
    overwritten, never duplicated) and a new name goes last. *)
Theorem register_then_get r i w :
  heap w !! r = Some i →
  pluginRegistry.get (md_name (metadata i)) (pluginRegistry.register r w).2 = Some (r, i) ∧
  pluginRegistry.has (md_name (metadata i)) (pluginRegistry.register r w).2 = true ∧
  (∀ k, k ≠ md_name (metadata i) →
        pluginRegistry.get k (pluginRegistry.register r w).2 = pluginRegistry.get k w) ∧
  JsMap.keys (plugins (pluginRegistry.register r w).2) =
    (if pluginRegistry.has (md_name (metadata i)) w
     then JsMap.keys (plugins w)
     else JsMap.keys (plugins w) ++ [md_name (metadata i)]).
Proof.
  intros Hi. unfold pluginRegistry.register, modify. simpl. rewrite Hi.
  unfold pluginRegistry.get, pluginRegistry.has, JsMap.has. simpl.
  rewrite JsMapFacts.get_set_eq. simpl. rewrite Hi. simpl.
  split; [done|]. split; [first [done | by apply bool_decide_eq_true]|]. split.
  - intros k Hk. by rewrite JsMapFacts.get_set_ne by done.
  - destruct (JsMap.get (md_name (metadata i)) (plugins w)) as [r0|] eqn:Hget.
    + rewrite bool_decide_true by done. apply JsMapFacts.keys_set_present.
      destruct (decide (md_name (metadata i) ∈ JsMap.keys (plugins w))) as [|Hn]; [done|].
      apply JsMapFacts.get_None_keys in Hn. congruence.
    + rewrite bool_decide_false by (intros [? ?]; done).
      apply JsMapFacts.keys_set_absent. by apply JsMapFacts.get_None_keys.
Qed.

Lemma register_then_get_witness :
  pluginRegistry.get "mailer" (pluginRegistry.register 0 mailer_loaded).2
    = pluginRegistry.get "mailer" mailer_loaded ∧
  JsMap.keys (plugins (pluginRegistry.register 0 mailer_loaded).2) = ["mailer"].
Proof.
  destruct (register_then_get 0
              {| plugin := mailer; metadata := meta_of "mailer" "1.0.0";
                 context := createPluginContext (meta_of "mailer" "1.0.0");
                 state := LOADED; path := ["plugins"; "mailer"] |} mailer_loaded)
    as (Hget & _ & _ & Hkeys); [reflexivity|].
  split; [exact Hget | exact Hkeys].
Defined.

(** X2: [unregister] answers whether the name was registered; afterwards
    [get] and [has] do not find the name, every other name is found as
    before, no instance object changes, and unregistering a name that is not
    registered leaves the map as it was. *)
Theorem unregister_then_get name w :
  (pluginRegistry.unregister name w).1 = Returned (pluginRegistry.has name w) ∧
  pluginRegistry.get name (pluginRegistry.unregister name w).2 = None ∧
  pluginRegistry.has name (pluginRegistry.unregister name w).2 = false ∧
  (∀ k, k ≠ name →
        pluginRegistry.get k (pluginRegistry.unregister name w).2 = pluginRegistry.get k w) ∧
  heap (pluginRegistry.unregister name w).2 = heap w ∧
  (pluginRegistry.has name w = false →
     plugins (pluginRegistry.unregister name w).2 = plugins w).
Proof.
  unfold pluginRegistry.unregister, JsMap.delete, pluginRegistry.get, pluginRegistry.has,
    JsMap.has. simpl.
  split; [done|]. rewrite JsMapFacts.get_remove_eq. simpl.
  split; [done|]. split; [first [done | by apply bool_decide_eq_false; intros [? ?]]|]. split.
  - intros k Hk. by rewrite JsMapFacts.get_remove_ne by done.
  - split; [done|]. intros Hhas. apply bool_decide_eq_false in Hhas.
    apply JsMap_remove_absent. destruct (JsMap.get name (plugins w)); [|done].
    exfalso. apply Hhas. by eexists.
Qed.

Lemma unregister_then_get_witness :
  (pluginRegistry.unregister "mailer" mailer_loaded).1 = Returned true ∧
  pluginRegistry.get "mailer" (pluginRegistry.unregister "mailer" mailer_loaded).2 = None ∧
  plugins (pluginRegistry.unregister "ghost" mailer_loaded).2 = plugins mailer_loaded.
Proof.
  destruct (unregister_then_get "mailer" mailer_loaded) as (Hres & Hget & _).
  destruct (unregister_then_get "ghost" mailer_loaded) as (_ & _ & _ & _ & _ & Habs).
  split; [exact Hres|]. split; [exact Hget|]. apply Habs. reflexivity.
Defined.
(** ** Lifecycle operations at the edges *)

(** X3: on a name that is not registered, [enablePlugin] and [disablePlugin]
    throw [PluginLoadError] with the message [Plugin not found: name], while
    [unloadPlugin] returns normally; none of the three runs a hook, emits an
    event or changes an instance, the registry or the listeners. *)
Theorem lifecycle_on_unregistered_name name w :
  pluginRegistry.get name w = None →
  (enablePlugin name w).1 = Threw (AppError PLUGIN_LOAD_ERROR ("Plugin not found: " +:+ name)) ∧
  (disablePlugin name w).1 = Threw (AppError PLUGIN_LOAD_ERROR ("Plugin not found: " +:+ name)) ∧
  (unloadPlugin name w).1 = Returned tt ∧
  ∀ w', w' = (enablePlugin name w).2 ∨ w' = (disablePlugin name w).2 ∨
        w' = (unloadPlugin name w).2 →
        heap w' = heap w ∧ plugins w' = plugins w ∧ listeners w' = listeners w ∧
        ∃ t, trace w' = trace w ++ t ∧ hooks_run t = [] ∧ emitted t = [].
Proof.
  intros Hget.
  rewrite (enablePlugin_not_found _ _ Hget), (disablePlugin_not_found _ _ Hget),
    (unloadPlugin_not_found _ _ Hget). simpl.
  split; [done|]. split; [done|]. split; [done|].
  intros w' [-> | [-> | ->]]; simpl; (repeat split; try done); by eexists.
Qed.

Lemma lifecycle_on_unregistered_name_witness :
  (enablePlugin "ghost" mailer_loaded).1
    = Threw (AppError PLUGIN_LOAD_ERROR "Plugin not found: ghost") ∧
  (disablePlugin "ghost" mailer_loaded).1
    = Threw (AppError PLUGIN_LOAD_ERROR "Plugin not found: ghost") ∧
  (unloadPlugin "ghost" mailer_loaded).1 = Returned tt.
Proof.
  destruct (lifecycle_on_unregistered_name "ghost" mailer_loaded) as (He & Hd & Hu & _);
    [reflexivity|].
  split; [exact He|]. split; [exact Hd | exact Hu].
Defined.

(** X4: [disablePlugin] on an instance in state [loaded] or [disabled] is a
    no-op: it returns normally, runs no hook, emits no event and leaves the
    state as it was; a plugin that was loaded but never enabled is not moved
    to [disabled]. *)
Theorem disablePlugin_noop_when_not_enabled name w r inst :
  pluginRegistry.get name w = Some (r, inst) →
  state inst = LOADED ∨ state inst = DISABLED →
  ∃ w' t, disablePlugin name w = (Returned tt, w') ∧
          pluginRegistry.get name w' = Some (r, inst) ∧
          heap w' = heap w ∧ plugins w' = plugins w ∧ listeners w' = listeners w ∧
          trace w' = trace w ++ t ∧ hooks_run t = [] ∧ emitted t = [].
Proof.
  intros Hget Hst.
  rewrite (disablePlugin_already _ _ _ _ Hget) by tauto.
  eexists _, _. split; [done|]. simpl. split; [exact Hget|].
  repeat split; done.
Qed.

Lemma disablePlugin_noop_when_not_enabled_witness :
  ∃ w' t, disablePlugin "mailer" mailer_loaded = (Returned tt, w') ∧
          pluginRegistry.get "mailer" w' = pluginRegistry.get "mailer" mailer_loaded ∧
          heap w' = heap mailer_loaded ∧ plugins w' = plugins mailer_loaded ∧
          listeners w' = listeners mailer_loaded ∧
          trace w' = trace mailer_loaded ++ t ∧ hooks_run t = [] ∧ emitted t = [].
Proof.
  apply (disablePlugin_noop_when_not_enabled "mailer" mailer_loaded 0
           {| plugin := mailer; metadata := meta_of "mailer" "1.0.0";
              context := createPluginContext (meta_of "mailer" "1.0.0");
              state := LOADED; path := ["plugins"; "mailer"] |}).
  - reflexivity.
  - left. reflexivity.
Defined.
(** ** Plugins that never fail on a bus that never throws *)

Lemma well_behaved_hook_result name h p ctx t :
  well_behaved p → hook_result name h p ctx t = None.
Proof.
  intros Hwb. unfold hook_result. destruct (hook_of p h) as [f|] eqn:Hf; [|done].
  by eapply Hwb.
Qed.

Lemma quiet_first_throw e event w :
  quiet_bus w → first_throw e (listeners_of event w) = None.
Proof.
  intros Hq. apply first_throw_none. apply Forall_forall.
  intros l Hl. unfold listeners_of in Hl.
  apply list_elem_of_fmap in Hl as (kl & -> & Hkl).
  apply list_elem_of_filter in Hkl as [_ Hkl]. by apply Hq.
Qed.

Lemma remove_first_subseteq {A} (P : A → Prop) `{∀ x, Decision (P x)} (l : list A) :
  remove_first P l ⊆ l.
Proof.
  induction l as [|x l IH]; simpl; [done|].
  destruct (decide (P x)).
  - intros y Hy. by right.
  - intros y Hy. apply elem_of_cons in Hy as [->|Hy]; [by left|]. right. by apply IH.
Qed.

Lemma remove_first_keeps {A} (P : A → Prop) `{∀ x, Decision (P x)} (l : list A) x :
  x ∈ l → ¬ P x → x ∈ remove_first P l.
Proof.
  intros Hx Hnp. induction l as [|y l IH]; simpl; [done|].
  apply elem_of_cons in Hx as [->|Hx].
  - rewrite decide_False by done. by left.
  - destruct (decide (P y)); [done|]. right. by apply IH.
Qed.

Lemma remove_first_none {A} (P : A → Prop) `{∀ x, Decision (P x)} (l : list A) :
  Forall (λ x, ¬ P x) l → remove_first P l = l.
Proof.
  induction 1 as [|x l Hx _ IH]; simpl; [done|].
  rewrite decide_False by done. by rewrite IH.
Qed.

Lemma remove_first_snoc {A} (P : A → Prop) `{∀ x, Decision (P x)} (l : list A) x :
  Forall (λ x, ¬ P x) l → P x → remove_first P (l ++ [x]) = l.
Proof.
  intros Hl Hx. induction Hl as [|y l Hy _ IH]; simpl.
  - by rewrite decide_True.
  - rewrite decide_False by done. by rewrite IH.
Qed.

Lemma remove_first_snoc_other {A} (P : A → Prop) `{∀ x, Decision (P x)} (l : list A) x :
  ¬ P x → remove_first P (l ++ [x]) = remove_first P l ++ [x].
Proof.
  intros Hx. induction l as [|y l IH]; simpl.
  - by rewrite decide_False.
  - destruct (decide (P y)); [done|]. by rewrite IH.
Qed.

Lemma remove_last_snoc {A} (P : A → Prop) `{∀ x, Decision (P x)} (l : list A) x :
  P x → remove_last P (l ++ [x]) = l.
Proof.
  intros Hx. unfold remove_last. rewrite reverse_app. simpl.
  rewrite decide_True by done. apply reverse_involutive.
Qed.

Lemma drop_once_subseteq event tbl ls :
  foldl (drop_once event) tbl ls ⊆ tbl.
Proof.
  revert tbl. induction ls as [|l ls IH]; intros tbl; simpl; [done|].
  etrans; [apply IH|]. unfold drop_once. destruct (l_once l); [|done].
  apply remove_first_subseteq.
Qed.

Lemma quiet_bus_subseteq w w' :
  listeners w' ⊆ listeners w → quiet_bus w → quiet_bus w'.
Proof. intros Hsub Hq kl Hkl. apply Hq. by apply Hsub. Qed.

Lemma quiet_bus_after_emit e w w' :
  listeners w' = listeners (after_emit e w) → quiet_bus w → quiet_bus w'.
Proof.
  intros Hl. apply quiet_bus_subseteq. rewrite Hl. simpl. apply drop_once_subseteq.
Qed.

(** A transition of a well-behaved plugin on a quiet bus goes through. *)
Lemma transition_outcome_succeeds name h target ev msg r inst w0 :
  well_behaved (plugin inst) → quiet_bus w0 →
  ∃ w1 t, transition_outcome name h target ev msg r inst w0 = (Returned tt, w1) ∧
          plugins w1 = plugins w0 ∧
          heap w1 = alter (with_state target) r (heap w0) ∧
          quiet_bus w1 ∧
          trace w1 = trace w0 ++ t ∧
          hooks_run t = hooks_defined name (plugin inst) [h] ∧
          emitted t = [ev].
Proof.
  intros Hwb Hq.
  destruct (transition_outcome name h target ev msg r inst w0) as [res w1] eqn:Hrun.
  assert (Hres : res = Returned tt).
  { change res with (res, w1).1. rewrite <- Hrun. apply transition_outcome_returns.
    - by apply well_behaved_hook_result.
    - by apply quiet_first_throw. }
  subst res. pose proof Hrun as Hret.
  apply transition_outcome_returned in Hret as (Hp & Hl & Hh & Ht).
  eexists _, _. split; [done|]. split; [done|]. split; [done|].
  split; [by eapply quiet_bus_after_emit|]. split; [exact Ht|].
  autorewrite with history. unfold hooks_defined. simpl.
  split; [by repeat case_match|done].
Qed.

Lemma enablePlugin_succeeds name w r inst :
  pluginRegistry.get name w = Some (r, inst) →
  state inst ≠ ENABLED →
  well_behaved (plugin inst) → quiet_bus w →
  ∃ w1 t, enablePlugin name w = (Returned tt, w1) ∧
          pluginRegistry.get name w1 = Some (r, with_state ENABLED inst) ∧
          plugins w1 = plugins w ∧
          heap w1 = alter (with_state ENABLED) r (heap w) ∧
          quiet_bus w1 ∧
          trace w1 = trace w ++ t ∧
          hooks_run t = hooks_defined name (plugin inst) [onEnable] ∧
          emitted t = [plugin_enabled name].
Proof.
  intros Hget Hst Hwb Hq. rewrite (enablePlugin_run _ _ _ _ Hget Hst).
  destruct (transition_outcome_succeeds name onEnable ENABLED (plugin_enabled name)
              "Plugin enabled" r inst (set_trace (trace w ++ [Invoked OpEnable name]) w)
              Hwb) as (w1 & t & Hrun & Hp & Hh & Hq1 & Ht & Hhooks & Hem).
  { by eapply quiet_bus_subseteq; [|exact Hq]. }
  exists w1, ([Invoked OpEnable name] ++ t). split; [done|].
  split; [by eapply registry_get_alter|]. split; [done|]. split; [done|].
  split; [done|]. split; [by rewrite Ht; simpl; rewrite <- app_assoc|].
  by autorewrite with history.
Qed.

Lemma disablePlugin_succeeds name w r inst :
  pluginRegistry.get name w = Some (r, inst) →
  state inst ≠ DISABLED → state inst ≠ LOADED →
  well_behaved (plugin inst) → quiet_bus w →
  ∃ w1 t, disablePlugin name w = (Returned tt, w1) ∧
          pluginRegistry.get name w1 = Some (r, with_state DISABLED inst) ∧
          plugins w1 = plugins w ∧
          heap w1 = alter (with_state DISABLED) r (heap w) ∧
          quiet_bus w1 ∧
          trace w1 = trace w ++ t ∧
          hooks_run t = hooks_defined name (plugin inst) [onDisable] ∧
          emitted t = [plugin_disabled name].
Proof.
  intros Hget Hst1 Hst2 Hwb Hq. rewrite (disablePlugin_run _ _ _ _ Hget Hst1 Hst2).
  destruct (transition_outcome_succeeds name onDisable DISABLED (plugin_disabled name)
              "Plugin disabled" r inst (set_trace (trace w ++ [Invoked OpDisable name]) w)
              Hwb) as (w1 & t & Hrun & Hp & Hh & Hq1 & Ht & Hhooks & Hem).
  { by eapply quiet_bus_subseteq; [|exact Hq]. }
  exists w1, ([Invoked OpDisable name] ++ t). split; [done|].
  split; [by eapply registry_get_alter|]. split; [done|]. split; [done|].
  split; [done|]. split; [by rewrite Ht; simpl; rewrite <- app_assoc|].
  by autorewrite with history.
Qed.

Lemma loadPlugin_succeeds plug meta pth w :
  well_behaved plug → quiet_bus w →
  ∃ w1 t, loadPlugin plug meta pth w = (Returned (length (heap w)), w1) ∧
          pluginRegistry.get (md_name meta) w1 =
            Some (length (heap w),
                  {| plugin := plug; metadata := meta; context := createPluginContext meta;
                     state := LOADED; path := pth |}) ∧
          plugins w1 = JsMap.set (md_name meta) (length (heap w)) (plugins w) ∧
          heap w1 = heap w ++ [{| plugin := plug; metadata := meta;
                                  context := createPluginContext meta;
                                  state := LOADED; path := pth |}] ∧
          quiet_bus w1 ∧
          trace w1 = trace w ++ t ∧
          hooks_run t = hooks_defined (md_name meta) plug [onLoad] ∧
          emitted t = [plugin_loaded (md_name meta) (md_version meta)].
Proof.
  intros Hwb Hq. rewrite loadPlugin_eq. unfold loadPlugin_outcome.
  rewrite well_behaved_hook_result by done.
  unfold emit_outcome.
  match goal with |- context [first_throw ?ev (listeners_of ?n ?w2)] =>
    change (listeners_of n w2) with (listeners_of n w) end.
  rewrite quiet_first_throw by done.
  eexists _, _. split; [done|]. simpl. split.
  { unfold pluginRegistry.get. simpl. rewrite JsMapFacts.get_set_eq. simpl.
    by rewrite lookup_last. }
  split; [done|]. split; [done|].
  split; [eapply quiet_bus_subseteq; [|exact Hq]; simpl; apply drop_once_subseteq|].
  split; [by rewrite <- !app_assoc|].
  autorewrite with history. unfold hooks_defined. simpl.
  split; [by repeat case_match|done].
Qed.

Lemma registry_get_inv name w r inst :
  pluginRegistry.get name w = Some (r, inst) →
  JsMap.get name (plugins w) = Some r ∧ heap w !! r = Some inst.
Proof.
  unfold pluginRegistry.get. intros Hget.
  destruct (JsMap.get name (plugins w)) as [r'|]; simpl in Hget; [|done].
  destruct (heap w !! r') as [i|] eqn:Hi; simpl in Hget; [|done].
  by injection Hget as -> ->.
Qed.

Lemma unload_finish_succeeds name r inst wa :
  well_behaved (plugin inst) → quiet_bus wa →
  ∃ w1 t, unload_finish name r inst wa = (Returned tt, w1) ∧
          plugins w1 = JsMap.remove name (plugins wa) ∧
          heap w1 = alter (with_state UNLOADED) r (heap wa) ∧
          quiet_bus w1 ∧
          trace w1 = trace wa ++ t ∧
          hooks_run t = hooks_defined name (plugin inst) [onUnload] ∧
          emitted t = [plugin_unloaded name].
Proof.
  intros Hwb Hq. unfold unload_finish.
  rewrite well_behaved_hook_result by done.
  unfold emit_outcome.
  match goal with |- context [first_throw ?ev (listeners_of ?n ?w2)] =>
    change (listeners_of n w2) with (listeners_of n wa) end.
  rewrite quiet_first_throw by done.
  eexists _, _. split; [done|]. simpl. split; [done|]. split; [done|].
  split; [eapply quiet_bus_subseteq; [|exact Hq]; simpl; apply drop_once_subseteq|].
  split; [by rewrite <- !app_assoc|].
  autorewrite with history. unfold hooks_defined. simpl.
  split; [by repeat case_match|done].
Qed.

Lemma unloadPlugin_succeeds name w r inst :
  pluginRegistry.get name w = Some (r, inst) →
  well_behaved (plugin inst) → quiet_bus w →
  ∃ w1 t, unloadPlugin name w = (Returned tt, w1) ∧
          pluginRegistry.get name w1 = None ∧
          plugins w1 = JsMap.remove name (plugins w) ∧
          heap w1 !! r = Some (with_state UNLOADED inst) ∧
          length (heap w1) = length (heap w) ∧
          quiet_bus w1 ∧
          trace w1 = trace w ++ t ∧
          hooks_run t = hooks_defined name (plugin inst)
                          (if decide (state inst = ENABLED) then [onDisable; onUnload]
                           else [onUnload]) ∧
          emitted t = (if decide (state inst = ENABLED) then [plugin_disabled name] else [])
                        ++ [plugin_unloaded name].
Proof.
  intros Hget Hwb Hq.
  destruct (registry_get_inv _ _ _ _ Hget) as [_ Hheap].
  assert (Hgone : ∀ w', plugins w' = JsMap.remove name (plugins w) →
                        pluginRegistry.get name w' = None).
  { intros w' Hp. unfold pluginRegistry.get. rewrite Hp.
    by rewrite JsMapFacts.get_remove_eq. }
  rewrite (unloadPlugin_found _ _ _ _ Hget). unfold unloadPlugin_outcome.
  set (w0 := set_trace (trace w ++ [Invoked OpUnload name]) w).
  assert (Hq0 : quiet_bus w0) by (by eapply quiet_bus_subseteq; [|exact Hq]).
  destruct (decide (state inst = ENABLED)) as [Hst|Hst].
  - destruct (disablePlugin_succeeds name w0 r inst) as
      (wa & t1 & Hdis & _ & Hpa & Hha & Hqa & Hta & Hh1 & He1);
      [done | by rewrite Hst | by rewrite Hst | done | done |].
    rewrite Hdis.
    destruct (unload_finish_succeeds name r inst wa Hwb Hqa) as
      (w1 & t2 & Hfin & Hp1 & Hh1' & Hq1 & Ht1 & Hh2 & He2).
    exists w1, ([Invoked OpUnload name] ++ t1 ++ t2). split; [done|].
    split; [apply Hgone; by rewrite Hp1, Hpa|]. split; [by rewrite Hp1, Hpa|].
    split; [rewrite Hh1', Hha; simpl; by rewrite !list_lookup_alter_eq, Hheap|].
    split; [rewrite Hh1', Hha; simpl; by rewrite !length_alter|].
    split; [done|].
    split; [rewrite Ht1, Hta; simpl; by rewrite <- !app_assoc|].
    autorewrite with history. rewrite Hh1, Hh2, He1, He2.
    split; [|done]. unfold hooks_defined. simpl. by repeat case_match.
  - destruct (unload_finish_succeeds name r inst w0 Hwb Hq0) as
      (w1 & t2 & Hfin & Hp1 & Hh1' & Hq1 & Ht1 & Hh2 & He2).
    rewrite Hfin.
    exists w1, ([Invoked OpUnload name] ++ t2). split; [done|].
    split; [by apply Hgone|]. split; [done|].
    split; [rewrite Hh1'; simpl; by rewrite list_lookup_alter_eq, Hheap|].
    split; [rewrite Hh1'; simpl; by rewrite length_alter|].
    split; [done|].
    split; [rewrite Ht1; simpl; by rewrite <- !app_assoc|].
    autorewrite with history. by rewrite Hh2, He2.
Qed.

(** ** The life of a well-behaved plugin *)

(** X5: for a plugin whose hooks never reject, on a bus whose listeners
    never throw, [loadPlugin], [enablePlugin], [disablePlugin] and
    [enablePlugin] again all return normally and drive the state through
    [loaded], [enabled], [disabled] and [enabled]; the hooks the plugin
    defines run in the order [onLoad], [onEnable], [onDisable], [onEnable],
    and the events emitted are [plugin:loaded], [plugin:enabled],
    [plugin:disabled], [plugin:enabled], once each and in that order. *)
Theorem lifecycle_load_enable_disable_enable plug meta pth w :
  well_behaved plug → quiet_bus w →
  ∃ r w1 w2 w3 w4 t,
    loadPlugin plug meta pth w = (Returned r, w1) ∧
    enablePlugin (md_name meta) w1 = (Returned tt, w2) ∧
    disablePlugin (md_name meta) w2 = (Returned tt, w3) ∧
    enablePlugin (md_name meta) w3 = (Returned tt, w4) ∧
    state_of (md_name meta) w1 = Some LOADED ∧
    state_of (md_name meta) w2 = Some ENABLED ∧
    state_of (md_name meta) w3 = Some DISABLED ∧
    state_of (md_name meta) w4 = Some ENABLED ∧
    trace w4 = trace w ++ t ∧
    hooks_run t = hooks_defined (md_name meta) plug [onLoad; onEnable; onDisable; onEnable] ∧
    emitted t = [plugin_loaded (md_name meta) (md_version meta);
                 plugin_enabled (md_name meta);
                 plugin_disabled (md_name meta);
                 plugin_enabled (md_name meta)].
Proof.
  intros Hwb Hq.
  destruct (loadPlugin_succeeds plug meta pth w Hwb Hq) as
    (w1 & t1 & Hl & Hg1 & _ & _ & Hq1 & Ht1 & Hh1 & He1).
  destruct (enablePlugin_succeeds _ _ _ _ Hg1) as
    (w2 & t2 & Hen & Hg2 & _ & _ & Hq2 & Ht2 & Hh2 & He2); [done | done | done |].
  destruct (disablePlugin_succeeds _ _ _ _ Hg2) as
    (w3 & t3 & Hdi & Hg3 & _ & _ & Hq3 & Ht3 & Hh3 & He3); [done | done | done | done |].
  destruct (enablePlugin_succeeds _ _ _ _ Hg3) as
    (w4 & t4 & Hen' & Hg4 & _ & _ & Hq4 & Ht4 & Hh4 & He4); [done | done | done |].
  exists (length (heap w)), w1, w2, w3, w4, (t1 ++ t2 ++ t3 ++ t4).
  unfold state_of. rewrite Hg1, Hg2, Hg3, Hg4.
  repeat (split; [done|]).
  split; [by rewrite Ht4, Ht3, Ht2, Ht1, <- !app_assoc|].
  rewrite !hooks_run_app, !emitted_app, Hh1, Hh2, Hh3, Hh4, He1, He2, He3, He4.
  split; [|done]. unfold hooks_defined. simpl. by repeat case_match.
Qed.

Lemma lifecycle_load_enable_disable_enable_witness :
  ∃ r w1 w2 w3 w4 t,
    loadPlugin (healthy "auth" "1.0.0") (meta_of "auth" "1.0.0") ["plugins"; "auth"]
      empty_world = (Returned r, w1) ∧
    enablePlugin "auth" w1 = (Returned tt, w2) ∧
    disablePlugin "auth" w2 = (Returned tt, w3) ∧
    enablePlugin "auth" w3 = (Returned tt, w4) ∧
    state_of "auth" w1 = Some LOADED ∧
    state_of "auth" w2 = Some ENABLED ∧
    state_of "auth" w3 = Some DISABLED ∧
    state_of "auth" w4 = Some ENABLED ∧
    trace w4 = t ∧
    hooks_run t = [("auth", onLoad); ("auth", onEnable); ("auth", onDisable);
                   ("auth", onEnable)] ∧
    emitted t = [plugin_loaded "auth" "1.0.0"; plugin_enabled "auth";
                 plugin_disabled "auth"; plugin_enabled "auth"].
Proof.
  apply (lifecycle_load_enable_disable_enable (healthy "auth" "1.0.0")
           (meta_of "auth" "1.0.0") ["plugins"; "auth"] empty_world).
  - intros h f ctx t Hf. destruct h; injection Hf as <-; reflexivity.
  - intros kl Hkl. by apply elem_of_nil in Hkl.
Defined.

(** X6: [unloadPlugin] on a registered well-behaved plugin, on a quiet bus,
    returns normally; when the plugin is enabled it first runs [onDisable]
    and emits [plugin:disabled], then runs [onUnload] and emits
    [plugin:unloaded] (otherwise only the latter two); the instance ends in
    state [unloaded] and its name is no longer registered. *)
Theorem unloadPlugin_disables_then_unloads name w r inst :
  pluginRegistry.get name w = Some (r, inst) →
  well_behaved (plugin inst) → quiet_bus w →
  ∃ w1 t, unloadPlugin name w = (Returned tt, w1) ∧
          pluginRegistry.get name w1 = None ∧
          pluginRegistry.has name w1 = false ∧
          heap w1 !! r = Some (with_state UNLOADED inst) ∧
          trace w1 = trace w ++ t ∧
          hooks_run t = hooks_defined name (plugin inst)
                          (if decide (state inst = ENABLED) then [onDisable; onUnload]
                           else [onUnload]) ∧
          emitted t = (if decide (state inst = ENABLED) then [plugin_disabled name] else [])
                        ++ [plugin_unloaded name].
Proof.
  intros Hget Hwb Hq.
  destruct (unloadPlugin_succeeds _ _ _ _ Hget Hwb Hq) as
    (w1 & t & Hun & Hg & Hp & Hh & _ & _ & Ht & Hhooks & Hem).
  exists w1, t. split; [done|]. split; [done|].
  split.
  { unfold pluginRegistry.has, JsMap.has. rewrite Hp, JsMapFacts.get_remove_eq.
    apply bool_decide_eq_false. by intros [? ?]. }
  done.
Qed.

Lemma unloadPlugin_disables_then_unloads_witness :
  ∃ w1 t, unloadPlugin "auth" three_enabled = (Returned tt, w1) ∧
          pluginRegistry.get "auth" w1 = None ∧
          pluginRegistry.has "auth" w1 = false ∧
          state <$> heap w1 !! 0 = Some UNLOADED ∧
          trace w1 = trace three_enabled ++ t ∧
          hooks_run t = [("auth", onDisable); ("auth", onUnload)] ∧
          emitted t = [plugin_disabled "auth"; plugin_unloaded "auth"].
Proof.
  destruct (unloadPlugin_disables_then_unloads "auth" three_enabled 0
              {| plugin := healthy "auth" "1.0.0"; metadata := meta_of "auth" "1.0.0";
                 context := createPluginContext (meta_of "auth" "1.0.0");
                 state := ENABLED; path := ["plugins"; "auth"] |})
    as (w1 & t & Hun & Hg & Hhas & Hh & Ht & Hhooks & Hem).
  - reflexivity.
  - intros h f ctx t Hf. destruct h; injection Hf as <-; reflexivity.
  - intros kl Hkl. by apply elem_of_nil in Hkl.
  - exists w1, t. split; [exact Hun|]. split; [exact Hg|]. split; [exact Hhas|].
    split; [by rewrite Hh|]. split; [exact Ht|]. split; [exact Hhooks | exact Hem].
Defined.

(** X7: when the [onUnload] hook of a registered plugin that is not enabled
    rejects, [unloadPlugin] throws, the instance stays registered, in state
    [error], and [plugin:unloaded] is not emitted.  What it throws is a
    [PluginLifecycleError] for the hook [onUnload] carrying the message of
    the rejection when that message can be read, and otherwise what reading
    it throws (a [TypeError] when the hook rejected with [null] or
    [undefined]). *)
Theorem unloadPlugin_onUnload_failure_keeps_instance name w r inst e :
  pluginRegistry.get name w = Some (r, inst) →
  state inst ≠ ENABLED →
  hook_result name onUnload (plugin inst) (context inst)
    (trace w ++ [Invoked OpUnload name]) = Some e →
  ∃ w' t, unloadPlugin name w =
            (Threw (match message_of e with
                    | Returned message => PluginLifecycleError name "onUnload" message
                    | Threw e' => e'
                    end), w') ∧
          pluginRegistry.get name w' = Some (r, with_state ERROR inst) ∧
          plugins w' = plugins w ∧
          trace w' = trace w ++ t ∧
          hooks_run t = [(name, onUnload)] ∧
          emitted t = [].
Proof.
  intros Hget Hst Hhook.
  rewrite (unloadPlugin_found _ _ _ _ Hget). unfold unloadPlugin_outcome.
  rewrite decide_False by done. unfold unload_finish. simpl. rewrite Hhook.
  eexists _, _. split; [done|]. split; [by eapply registry_get_alter|].
  split; [done|]. split; [simpl; by rewrite <- !app_assoc|].
  autorewrite with history. unfold hook_result in Hhook.
  split; [|done]. by destruct (hook_of (plugin inst) onUnload).
Qed.

Lemma unloadPlugin_onUnload_failure_keeps_instance_witness :
  ∃ w' t, unloadPlugin "cache" stubborn_loaded =
            (Threw (PluginLifecycleError "cache" "onUnload" (Some "flush failed")), w') ∧
          state_of "cache" w' = Some ERROR ∧
          plugins w' = plugins stubborn_loaded ∧
          trace w' = trace stubborn_loaded ++ t ∧
          hooks_run t = [("cache", onUnload)] ∧
          emitted t = [].
Proof.
  destruct (unloadPlugin_onUnload_failure_keeps_instance "cache" stubborn_loaded 0
              {| plugin := stubborn; metadata := meta_of "cache" "2.0.0";
                 context := createPluginContext (meta_of "cache" "2.0.0");
                 state := LOADED; path := ["plugins"; "cache"] |}
              (JsError "flush failed"))
    as (w' & t & Hrun & Hget & Hp & Ht & Hh & He);
    [reflexivity | done | reflexivity |].
  exists w', t. split; [exact Hrun|]. split; [|done].
  unfold state_of. by rewrite Hget.
Defined.

(** ** What an operation on one plugin does to the others *)

Lemma JsMap_get_elem {V} k (v : V) (m : list (string * V)) :
  JsMap.get k m = Some v → (k, v) ∈ m.
Proof.
  induction m as [|[k0 v0] m IH]; simpl; [done|].
  destruct (decide (k0 = k)) as [->|Hne].
  - intros [= ->]. apply elem_of_cons. by left.
  - intros H. apply elem_of_cons. right. by apply IH.
Qed.

Lemma footprint_refl name r w w' :
  plugins w' = plugins w → heap w' = heap w → footprint name r w w'.
Proof. intros Hp Hh. split; [by left|]. intros. by rewrite Hh. Qed.

Lemma footprint_alter name r w w' f :
  plugins w' = plugins w → heap w' = alter f r (heap w) → footprint name r w w'.
Proof.
  intros Hp Hh. split; [by left|]. intros r' Hne. rewrite Hh.
  by rewrite list_lookup_alter_ne.
Qed.

Lemma footprint_trans name r w1 w2 w3 :
  footprint name r w1 w2 → footprint name r w2 w3 → footprint name r w1 w3.
Proof.
  intros [Hp1 Hh1] [Hp2 Hh2]. split.
  - destruct Hp1 as [Hp1|Hp1], Hp2 as [Hp2|Hp2]; rewrite Hp2, Hp1; auto.
    right. unfold JsMap.remove. rewrite list_filter_filter. apply list_filter_iff.
    intros x; tauto.
  - intros r' Hne. by rewrite Hh2, Hh1.
Qed.

Lemma transition_outcome_footprint name h target ev msg r inst w0 res w' :
  transition_outcome name h target ev msg r inst w0 = (res, w') →
  footprint name r w0 w'.
Proof.
  intros Hrun. apply transition_outcome_state in Hrun as [Hp Hh].
  by eapply footprint_alter.
Qed.

Lemma enablePlugin_footprint name w r inst res w' :
  pluginRegistry.get name w = Some (r, inst) →
  enablePlugin name w = (res, w') → footprint name r w w'.
Proof.
  intros Hget Hrun.
  destruct (decide (state inst = ENABLED)) as [Hst|Hst].
  - rewrite (enablePlugin_already _ _ _ _ Hget Hst) in Hrun. injection Hrun as <- <-.
    by apply footprint_refl.
  - rewrite (enablePlugin_run _ _ _ _ Hget Hst) in Hrun.
    eapply footprint_trans; [|eapply transition_outcome_footprint; exact Hrun].
    by apply footprint_refl.
Qed.

Lemma disablePlugin_footprint name w r inst res w' :
  pluginRegistry.get name w = Some (r, inst) →
  disablePlugin name w = (res, w') → footprint name r w w'.
Proof.
  intros Hget Hrun.
  destruct (decide (state inst = DISABLED ∨ state inst = LOADED)) as [Hst|Hst].
  - rewrite (disablePlugin_already _ _ _ _ Hget Hst) in Hrun. injection Hrun as <- <-.
    by apply footprint_refl.
  - rewrite (disablePlugin_run _ _ _ _ Hget) in Hrun by tauto.
    eapply footprint_trans; [|eapply transition_outcome_footprint; exact Hrun].
    by apply footprint_refl.
Qed.

Lemma unload_finish_footprint name r inst wa res w' :
  unload_finish name r inst wa = (res, w') → footprint name r wa w'.
Proof.
  unfold unload_finish. destruct (hook_result _ _ _ _ _).
  - intros [= <- <-]. by eapply footprint_alter.
  - destruct (emit_outcome _ _); intros [= <- <-].
    + split; [by right|]. intros r' Hne. simpl. by rewrite list_lookup_alter_ne.
    + split; [by right|]. intros r' Hne. simpl. by rewrite !list_lookup_alter_ne.
Qed.

Lemma unloadPlugin_footprint name w r inst res w' :
  pluginRegistry.get name w = Some (r, inst) →
  unloadPlugin name w = (res, w') → footprint name r w w'.
Proof.
  intros Hget Hrun. rewrite (unloadPlugin_found _ _ _ _ Hget) in Hrun.
  unfold unloadPlugin_outcome in Hrun.
  set (w0 := set_trace (trace w ++ [Invoked OpUnload name]) w) in *.
  assert (H0 : footprint name r w w0) by (by apply footprint_refl).
  assert (Hget0 : pluginRegistry.get name w0 = Some (r, inst)) by done.
  destruct (decide (state inst = ENABLED)) as [Hst|Hst].
  - destruct (disablePlugin name w0) as [[[]|e] wa] eqn:Hdis;
      pose proof (disablePlugin_footprint _ _ _ _ _ _ Hget0 Hdis) as Hfa.
    + eapply footprint_trans; [exact H0|]. eapply footprint_trans; [exact Hfa|].
      by eapply unload_finish_footprint.
    + injection Hrun as <- <-.
      eapply footprint_trans; [exact H0|]. eapply footprint_trans; [exact Hfa|].
      by eapply footprint_alter.
  - eapply footprint_trans; [exact H0|]. by eapply unload_finish_footprint.
Qed.

Lemma footprint_frame name r inst w w' name' :
  registry_ok w →
  pluginRegistry.get name w = Some (r, inst) →
  footprint name r w w' →
  name' ≠ name →
  pluginRegistry.get name' w' = pluginRegistry.get name' w.
Proof.
  intros Hok Hget [Hp Hh] Hne.
  assert (Hk : JsMap.get name' (plugins w') = JsMap.get name' (plugins w)).
  { destruct Hp as [->| ->]; [done|]. by apply JsMapFacts.get_remove_ne. }
  unfold pluginRegistry.get at 1 2. rewrite Hk.
  destruct (JsMap.get name' (plugins w)) as [r'|] eqn:Hk'; simpl; [|done].
  destruct (decide (r' = r)) as [->|Hr]; [|by rewrite Hh].
  exfalso. destruct Hok as [_ Hin]. apply JsMap_get_elem in Hk'.
  destruct (Hin _ _ Hk') as (i' & Hi' & Hn').
  apply registry_get_inv in Hget as [Hkn Hhn]. apply JsMap_get_elem in Hkn.
  destruct (Hin _ _ Hkn) as (i & Hi & Hn). congruence.
Qed.

Lemma loadPlugin_shape plug meta pth w res w' :
  loadPlugin plug meta pth w = (res, w') →
  ∃ s, heap w' = heap w ++ [{| plugin := plug; metadata := meta;
                               context := createPluginContext meta;
                               state := s; path := pth |}] ∧
       (plugins w' = plugins w ∨
        plugins w' = JsMap.set (md_name meta) (length (heap w)) (plugins w)) ∧
       (∀ r, res = Returned r →
             r = length (heap w) ∧ s = LOADED ∧
             plugins w' = JsMap.set (md_name meta) (length (heap w)) (plugins w)).
Proof.
  rewrite loadPlugin_eq. unfold loadPlugin_outcome.
  destruct (hook_result _ _ _ _ _).
  - intros [= <- <-]. exists ERROR. simpl. split; [done|]. split; [by left|]. done.
  - destruct (emit_outcome _ _); intros [= <- <-].
    + exists LOADED. simpl. split; [done|]. split; [by right|].
      by intros r [= <-].
    + exists ERROR. simpl. split; [done|]. split; [by right|]. done.
Qed.

Lemma loadPlugin_frame plug meta pth w res w' name' :
  registry_ok w →
  loadPlugin plug meta pth w = (res, w') →
  name' ≠ md_name meta →
  pluginRegistry.get name' w' = pluginRegistry.get name' w.
Proof.
  intros [_ Hin] Hrun Hne.
  apply loadPlugin_shape in Hrun as (s & Hh & Hp & _).
  assert (Hk : JsMap.get name' (plugins w') = JsMap.get name' (plugins w)).
  { destruct Hp as [->| ->]; [done|]. by apply JsMapFacts.get_set_ne. }
  unfold pluginRegistry.get. rewrite Hk, Hh.
  destruct (JsMap.get name' (plugins w)) as [r'|] eqn:Hk'; simpl; [|done].
  apply JsMap_get_elem in Hk'. destruct (Hin _ _ Hk') as (i' & Hi' & _).
  by rewrite (lookup_app_l_Some _ _ _ _ Hi'), Hi'.
Qed.

(** X8: a lifecycle operation on one plugin leaves every other registered
    plugin alone.  Under the registry invariant, after [enablePlugin],
    [disablePlugin] or [unloadPlugin] of [name], and after [loadPlugin] of a
    plugin named [name], whether the operation returned or threw, every
    other name is registered exactly when it was, with the same instance in
    the same state. *)
Theorem lifecycle_leaves_other_plugins_alone w name name' :
  registry_ok w →
  name' ≠ name →
  (∀ res w', enablePlugin name w = (res, w') ∨ disablePlugin name w = (res, w') ∨
             unloadPlugin name w = (res, w') →
             pluginRegistry.get name' w' = pluginRegistry.get name' w) ∧
  (∀ plug meta pth res w', md_name meta = name →
             loadPlugin plug meta pth w = (res, w') →
             pluginRegistry.get name' w' = pluginRegistry.get name' w).
Proof.
  intros Hok Hne. split.
  - intros res w' Hrun.
    destruct (pluginRegistry.get name w) as [[r inst]|] eqn:Hget.
    + eapply footprint_frame; [exact Hok | exact Hget | | exact Hne].
      destruct Hrun as [Hrun|[Hrun|Hrun]].
      * by eapply enablePlugin_footprint.
      * by eapply disablePlugin_footprint.
      * by eapply unloadPlugin_footprint.
    + rewrite (enablePlugin_not_found _ _ Hget), (disablePlugin_not_found _ _ Hget),
        (unloadPlugin_not_found _ _ Hget) in Hrun.
      destruct Hrun as [Hrun|[Hrun|Hrun]]; by injection Hrun as <- <-.
  - intros plug meta pth res w' <- Hrun. by eapply loadPlugin_frame.
Qed.

Lemma lifecycle_leaves_other_plugins_alone_witness :
  pluginRegistry.get "auth" (unloadPlugin "jobs" three_enabled).2
    = pluginRegistry.get "auth" three_enabled ∧
  pluginRegistry.get "cache" (disablePlugin "jobs" three_enabled).2
    = pluginRegistry.get "cache" three_enabled.
Proof.
  assert (Hok : registry_ok three_enabled).
  { split.
    - vm_compute. repeat constructor; intros H;
        repeat (apply elem_of_cons in H as [H|H]; [discriminate H|]);
        by apply elem_of_nil in H.
    - intros k r H. vm_compute in H.
      repeat (apply elem_of_cons in H as [H|H];
              [injection H as -> ->; eexists; split; reflexivity|]).
      by apply elem_of_nil in H. }
  split.
  - destruct (lifecycle_leaves_other_plugins_alone three_enabled "jobs" "auth" Hok)
      as [H _]; [discriminate|].
    apply (H (unloadPlugin "jobs" three_enabled).1). right. right.
    apply surjective_pairing.
  - destruct (lifecycle_leaves_other_plugins_alone three_enabled "jobs" "cache" Hok)
      as [H _]; [discriminate|].
    apply (H (disablePlugin "jobs" three_enabled).1). right. left.
    apply surjective_pairing.
Defined.

(** ** A discovered plugin is loaded *)





(** ** The registry invariant is kept *)

(** X9: every operation of the lifecycle manager keeps the registry
    well-formed, whether it returns or throws: the map never holds two
    entries for one name, and every entry is an existing instance filed
    under the name of its own metadata. *)
Theorem lifecycle_preserves_registry_ok w :
  registry_ok w →
  (∀ plug meta pth, registry_ok (loadPlugin plug meta pth w).2) ∧
  (∀ name, registry_ok (enablePlugin name w).2) ∧
  (∀ name, registry_ok (disablePlugin name w).2) ∧
  (∀ name, registry_ok (unloadPlugin name w).2) ∧
  registry_ok (unloadAllPlugins w).2.
Proof.
  intros Hok. split; [|split; [|split; [|split]]]; intros.
  - eapply loadPlugin_registry_ok; [apply surjective_pairing | done].
  - eapply enablePlugin_registry_ok; [apply surjective_pairing | done].
  - eapply disablePlugin_registry_ok; [apply surjective_pairing | done].
  - eapply unloadPlugin_registry_ok; [apply surjective_pairing | done].
  - eapply unloadAllPlugins_registry_ok; [apply surjective_pairing | done].
Qed.

Lemma lifecycle_preserves_registry_ok_witness :
  registry_ok (loadPlugin mailer (meta_of "mailer" "1.0.0") ["plugins"; "mailer"]
                 empty_world).2.
Proof.
  destruct (lifecycle_preserves_registry_ok empty_world registry_ok_empty) as [H _].
  apply H.
Defined.

(** ** Status reports *)

Lemma JsMap_set_absent {V} k (v : V) (m : list (string * V)) :
  JsMap.get k m = None → JsMap.set k v m = m ++ [(k, v)].
Proof.
  induction m as [|[k0 v0] m IH]; simpl; [done|].
  destruct (decide (k0 = k)); [done|]. intros H. by rewrite IH.
Qed.

Lemma getAll_snoc w w' i k :
  registry_ok w →
  heap w' = heap w ++ [i] →
  plugins w' = plugins w ++ [(k, length (heap w))] →
  pluginRegistry.getAll w' = pluginRegistry.getAll w ++ [(length (heap w), i)].
Proof.
  intros [_ Hin] Hh Hp. unfold pluginRegistry.getAll, JsMap.values.
  rewrite Hp, Hh, fmap_app, omap_app. f_equal.
  - revert Hin. generalize (plugins w). intros m Hin.
    induction m as [|[k0 r0] m IH]; [done|].
    destruct (Hin k0 r0) as (i0 & Hi0 & _); [apply elem_of_cons; by left|].
    csimpl. rewrite (lookup_app_l_Some _ _ _ _ Hi0), Hi0. csimpl. f_equal.
    apply IH. intros k' r' H. apply Hin. apply elem_of_cons. by right.
  - csimpl. by rewrite lookup_last.
Qed.

(** X10: after a [loadPlugin] that returned, for a name that was not
    registered, [getAllPluginStatuses] reports what it reported before,
    followed by one new entry: the name, state [loaded] and the version of
    the descriptor (not the version the module declares). *)
Theorem statuses_after_load plug meta pth w r w' :
  registry_ok w →
  pluginRegistry.has (md_name meta) w = false →
  loadPlugin plug meta pth w = (Returned r, w') →
  getAllPluginStatuses w' =
    getAllPluginStatuses w ++ [(md_name meta, LOADED, md_version meta)] ∧
  getPluginStatus (md_name meta) w' = Some (LOADED, meta).
Proof.
  intros Hok Hhas Hrun.
  assert (Hnone : JsMap.get (md_name meta) (plugins w) = None).
  { unfold pluginRegistry.has, JsMap.has in Hhas. apply bool_decide_eq_false in Hhas.
    destruct (JsMap.get (md_name meta) (plugins w)); [|done]. exfalso. apply Hhas. by eexists. }
  apply loadPlugin_shape in Hrun as (s & Hh & _ & Hret).
  destruct (Hret r eq_refl) as (-> & -> & Hp).
  rewrite JsMap_set_absent in Hp by done. split.
  - unfold getAllPluginStatuses. rewrite (getAll_snoc w w' _ _ Hok Hh Hp).
    by rewrite fmap_app.
  - unfold getPluginStatus, pluginRegistry.get. rewrite Hp, Hh.
    rewrite <- (JsMap_set_absent _ (length (heap w))) by done.
    rewrite JsMapFacts.get_set_eq. simpl. by rewrite lookup_last.
Qed.

Lemma statuses_after_load_witness :
  getAllPluginStatuses
    (loadPlugin (plain "cache" "2.0.0") (meta_of "cache" "2.0.0") ["plugins"; "cache"]
       mailer_loaded).2
  = [("mailer", LOADED, "1.0.0"); ("cache", LOADED, "2.0.0")].
Proof.
  assert (Hok : registry_ok mailer_loaded).
  { eapply loadPlugin_registry_ok; [apply surjective_pairing | apply registry_ok_empty]. }
  destruct (statuses_after_load (plain "cache" "2.0.0") (meta_of "cache" "2.0.0")
              ["plugins"; "cache"] mailer_loaded 1
              (loadPlugin (plain "cache" "2.0.0") (meta_of "cache" "2.0.0")
                 ["plugins"; "cache"] mailer_loaded).2 Hok) as [H _].
  - reflexivity.
  - apply pair_of_fst. reflexivity.
  - exact H.
Defined.

(** X11: [loadPlugin] under a name that is already registered replaces the
    registered instance in place (last write wins): the new instance
    answers to the name, at the same place in the enumeration order; the
    old instance object is left as it was, in whatever state it had, and
    none of its hooks runs ([onDisable] and [onUnload] are not called, no
    [plugin:unloaded] is emitted). *)
Theorem loadPlugin_overwrites_registered_name plug meta pth w r0 old r w' :
  pluginRegistry.get (md_name meta) w = Some (r0, old) →
  loadPlugin plug meta pth w = (Returned r, w') →
  pluginRegistry.get (md_name meta) w' =
    Some (r, {| plugin := plug; metadata := meta; context := createPluginContext meta;
                state := LOADED; path := pth |}) ∧
  r ≠ r0 ∧
  heap w' !! r0 = Some old ∧
  JsMap.keys (plugins w') = JsMap.keys (plugins w) ∧
  ∃ t, trace w' = trace w ++ t ∧
       hooks_run t = hooks_defined (md_name meta) plug [onLoad] ∧
       emitted t = [plugin_loaded (md_name meta) (md_version meta)].
Proof.
  intros Hget Hrun.
  destruct (registry_get_inv _ _ _ _ Hget) as [Hk Hold].
  pose proof (lookup_lt_Some _ _ _ Hold) as Hlt.
  pose proof Hrun as Hshape.
  apply loadPlugin_shape in Hshape as (s & Hh & _ & Hret).
  destruct (Hret r eq_refl) as (-> & -> & Hp).
  split.
  { unfold pluginRegistry.get. rewrite Hp, Hh, JsMapFacts.get_set_eq. simpl.
    by rewrite lookup_last. }
  split; [lia|]. split; [rewrite Hh; by apply lookup_app_l_Some|].
  split.
  { rewrite Hp. apply JsMapFacts.keys_set_present.
    destruct (decide (md_name meta ∈ JsMap.keys (plugins w))) as [|Hn]; [done|].
    apply JsMapFacts.get_None_keys in Hn. congruence. }
  rewrite loadPlugin_eq in Hrun. unfold loadPlugin_outcome in Hrun.
  destruct (hook_result _ _ _ _ _); [done|].
  destruct (emit_outcome _ _); [|done].
  injection Hrun as <-. simpl. eexists. split; [by rewrite <- !app_assoc|].
  autorewrite with history. unfold hooks_defined. simpl.
  split; [by repeat case_match|done].
Qed.

Lemma loadPlugin_overwrites_registered_name_witness :
  state_of "auth" healthy_loaded = Some LOADED ∧
  ∃ w', (loadPlugin (plain "auth" "9.9.9") (meta_of "auth" "9.9.9") ["elsewhere"]
           (enablePlugin "auth" healthy_loaded).2) = (Returned 1, w') ∧
        getPluginStatus "auth" w' = Some (LOADED, meta_of "auth" "9.9.9") ∧
        state <$> heap w' !! 0 = Some ENABLED ∧
        JsMap.keys (plugins w') = ["auth"] ∧
        hooks_run (drop (length (trace (enablePlugin "auth" healthy_loaded).2)) (trace w'))
          = [].
Proof.
  split; [reflexivity|].
  eexists. split; [apply pair_of_fst; reflexivity|].
  destruct (loadPlugin_overwrites_registered_name (plain "auth" "9.9.9")
              (meta_of "auth" "9.9.9") ["elsewhere"] (enablePlugin "auth" healthy_loaded).2
              0 (with_state ENABLED
                   {| plugin := healthy "auth" "1.0.0"; metadata := meta_of "auth" "1.0.0";
                      context := createPluginContext (meta_of "auth" "1.0.0");
                      state := LOADED; path := ["plugins"; "auth"] |})
              1 (loadPlugin (plain "auth" "9.9.9") (meta_of "auth" "9.9.9") ["elsewhere"]
                   (enablePlugin "auth" healthy_loaded).2).2)
    as (Hg & _ & Hold & Hkeys & t & Ht & Hhooks & _).
  - reflexivity.
  - apply pair_of_fst. reflexivity.
  - split; [exact (f_equal (λ o, ri ← o; Some (state ri.2, metadata ri.2)) Hg)|].
    split; [exact (f_equal (fmap state) Hold)|]. split; [exact Hkeys|].
    rewrite Ht, drop_app_length. exact Hhooks.
Defined.

(** ** After the shutdown sweep *)

Lemma unloadPlugin_post name w res w' r i :
  unloadPlugin name w = (res, w') →
  pluginRegistry.get name w' = Some (r, i) →
  state i = ERROR.
Proof.
  intros Hrun Hafter.
  destruct (pluginRegistry.get name w) as [[r0 inst]|] eqn:Hget.
  - destruct (registry_get_inv _ _ _ _ Hget) as [Hk Hh].
    assert (Herr : ∀ wa w1, plugins wa = plugins w →
              plugins w1 = plugins wa →
              heap w1 = alter (with_state ERROR) r0 (heap wa) →
              pluginRegistry.get name w1 = Some (r, i) → state i = ERROR).
    { intros wa w1 Hpa Hp1 Hh1 Hg. unfold pluginRegistry.get in Hg.
      rewrite Hp1, Hpa, Hk, Hh1 in Hg. simpl in Hg.
      rewrite list_lookup_alter_eq in Hg.
      destruct (heap wa !! r0); simpl in Hg; [|done]. by simplify_eq. }
    assert (Hfin : ∀ wa, plugins wa = plugins w →
              unload_finish name r0 inst wa = (res, w') → state i = ERROR).
    { intros wa Hpa. unfold unload_finish.
      destruct (hook_result _ _ _ _ _).
      - intros [= <- <-]. refine (Herr wa _ Hpa _ _ Hafter); done.
      - assert (Hgone : ∀ w1, plugins w1 = JsMap.remove name (plugins wa) →
                  pluginRegistry.get name w1 = Some (r, i) → False).
        { intros w1 Hp1. unfold pluginRegistry.get.
          by rewrite Hp1, JsMapFacts.get_remove_eq. }
        destruct (emit_outcome _ _); intros [= <- <-]; exfalso;
          eapply Hgone; try exact Hafter; done. }
    rewrite (unloadPlugin_found _ _ _ _ Hget) in Hrun. unfold unloadPlugin_outcome in Hrun.
    destruct (decide (state inst = ENABLED)) as [Hst|Hst].
    + destruct (disablePlugin name _) as [[[]|e] wa] eqn:Hdis;
        apply disablePlugin_plugins in Hdis.
      * by eapply (Hfin wa).
      * injection Hrun as <- <-. refine (Herr wa _ Hdis _ _ Hafter); done.
    + eapply Hfin; [|exact Hrun]; done.
  - rewrite (unloadPlugin_not_found _ _ Hget) in Hrun. injection Hrun as <- <-.
    change (pluginRegistry.get name (set_trace _ w)) with (pluginRegistry.get name w) in Hafter.
    congruence.
Qed.

Lemma unloadPlugin_frame name w res w' name' :
  registry_ok w → name' ≠ name →
  unloadPlugin name w = (res, w') →
  pluginRegistry.get name' w' = pluginRegistry.get name' w.
Proof.
  intros Hok Hne Hrun.
  destruct (pluginRegistry.get name w) as [[r inst]|] eqn:Hget.
  - eapply footprint_frame; [exact Hok | exact Hget | | exact Hne].
    by eapply unloadPlugin_footprint.
  - rewrite (unloadPlugin_not_found _ _ Hget) in Hrun. by injection Hrun as <- <-.
Qed.

Lemma sweep_leaves_errors (l : list (nat * PluginInstance)) w res w' :
  registry_ok w →
  (∀ k r i, pluginRegistry.get k w = Some (r, i) →
            k ∈ (λ ri, md_name (metadata ri.2)) <$> l ∨ state i = ERROR) →
  for_of l (λ ri,
    try_catch (unloadPlugin (md_name (metadata ri.2)))
      (λ _, log LogError "Error unloading plugin during shutdown"
              (md_name (metadata ri.2)))) w = (res, w') →
  ∀ k r i, pluginRegistry.get k w' = Some (r, i) → state i = ERROR.
Proof.
  revert w. induction l as [|ri l IH]; intros w Hok Hinv Hrun k r i Hg.
  - injection Hrun as <- <-. destruct (Hinv _ _ _ Hg) as [H|H]; [|done].
    by apply elem_of_nil in H.
  - simpl in Hrun. unfold bind at 1 in Hrun. unfold try_catch in Hrun.
    set (n := md_name (metadata ri.2)) in *.
    destruct (unloadPlugin n w) as [res1 w1] eqn:Hun.
    pose proof (unloadPlugin_registry_ok _ _ _ _ Hun Hok) as Hok1.
    assert (Hinv1 : ∀ k r i, pluginRegistry.get k w1 = Some (r, i) →
              k ∈ (λ ri, md_name (metadata ri.2)) <$> l ∨ state i = ERROR).
    { intros k0 r1 i1 Hg1. destruct (decide (k0 = n)) as [->|Hne].
      - right. by eapply unloadPlugin_post.
      - rewrite (unloadPlugin_frame _ _ _ _ _ Hok Hne Hun) in Hg1.
        destruct (Hinv _ _ _ Hg1) as [H|H]; [|by right].
        rewrite fmap_cons in H. apply elem_of_cons in H as [H|H]; [done|by left]. }
    destruct res1 as [[]|e].
    + exact (IH w1 Hok1 Hinv1 Hrun k r i Hg).
    + monad_unfold. simpl in Hrun.
      refine (IH _ _ _ Hrun k r i Hg).
      * eapply registry_ok_same; [| |exact Hok1]; done.
      * intros k0 r1 i1 Hg1. exact (Hinv1 k0 r1 i1 Hg1).
Qed.

Lemma registry_get_in_getAll k w r i :
  pluginRegistry.get k w = Some (r, i) → (r, i) ∈ pluginRegistry.getAll w.
Proof.
  intros Hg. apply registry_get_inv in Hg as [Hk Hh]. apply JsMap_get_elem in Hk.
  unfold pluginRegistry.getAll, JsMap.values. apply list_elem_of_omap.
  exists r. split; [|by rewrite Hh].
  apply list_elem_of_fmap. by exists (k, r).
Qed.

(** X12: after [unloadAllPlugins], every plugin that is still registered is
    in state [error]: each plugin was either removed from the registry or,
    when its unload failed, left there marked [error].  (Under the registry
    invariant; whatever the hooks and the listeners do.) *)
Theorem unloadAllPlugins_leaves_only_errors w k r i :
  registry_ok w →
  pluginRegistry.get k (unloadAllPlugins w).2 = Some (r, i) →
  state i = ERROR.
Proof.
  intros Hok Hg.
  destruct (unloadAllPlugins w) as [res w'] eqn:Hrun. simpl in Hg.
  unfold unloadAllPlugins in Hrun. unfold bind at 1 in Hrun. unfold gets in Hrun.
  eapply (sweep_leaves_errors _ w res w' Hok); [|exact Hrun|exact Hg].
  intros k0 r0 i0 Hg0. left.
  pose proof (registry_get_in_getAll _ _ _ _ Hg0) as Hin.
  destruct Hok as [_ Hreg].
  apply registry_get_inv in Hg0 as [Hk0 Hh0]. apply JsMap_get_elem in Hk0.
  destruct (Hreg _ _ Hk0) as (i' & Hi' & Hn). assert (i' = i0) as -> by congruence.
  rewrite fmap_reverse. apply elem_of_reverse. apply list_elem_of_fmap.
  exists (r0, i0). by split.
Qed.

Lemma unloadAllPlugins_leaves_only_errors_witness :
  ∃ i, pluginRegistry.get "jobs" (unloadAllPlugins three_enabled).2 = Some (1, i) ∧
       state i = ERROR.
Proof.
  eexists. split; [reflexivity|].
  eapply (unloadAllPlugins_leaves_only_errors three_enabled "jobs" 1); [|reflexivity].
  split.
  - vm_compute. repeat constructor; intros H;
      repeat (apply elem_of_cons in H as [H|H]; [discriminate H|]);
      by apply elem_of_nil in H.
  - intros k r H. vm_compute in H.
    repeat (apply elem_of_cons in H as [H|H];
            [injection H as -> ->; eexists; split; reflexivity|]).
    by apply elem_of_nil in H.
Defined.

(** ** What the operations throw *)

Lemma hook_result_readable name h p ctx t e :
  rejects_readable p → hook_result name h p ctx t = Some e → readable e.
Proof.
  intros Hp. unfold hook_result. destruct (hook_of p h) as [f|] eqn:Hf; [|done].
  by apply (Hp h f).
Qed.

Lemma first_throw_elem ev ls e :
  first_throw ev ls = Some e → ∃ l, l ∈ ls ∧ l_run l ev = Some e.
Proof.
  induction ls as [|l ls IH]; simpl; [done|].
  destruct (l_run l ev) as [e'|] eqn:Hl.
  - intros [= <-]. exists l. split; [by left | done].
  - intros H. destruct (IH H) as (l' & Hl' & Hr). exists l'. split; [by right | done].
Qed.

Lemma emit_outcome_readable ev w e :
  throws_readable w → emit_outcome ev w = Threw e → readable e.
Proof.
  intros Hw. unfold emit_outcome.
  destruct (first_throw ev (listeners_of (ev_name ev) w)) as [e'|] eqn:Hft; [|done].
  intros [= <-]. apply first_throw_elem in Hft as (l & Hl & Hr).
  unfold listeners_of in Hl. apply list_elem_of_fmap in Hl as (kl & -> & Hkl).
  apply list_elem_of_filter in Hkl as [_ Hkl]. by eapply Hw.
Qed.

Lemma rethrown_readable C e : readable e → ∃ m, rethrown C e = C m.
Proof. intros [m Hm]. exists m. unfold rethrown. by rewrite Hm. Qed.

Lemma throws_readable_subseteq w w' :
  listeners w' ⊆ listeners w → throws_readable w → throws_readable w'.
Proof. intros Hsub Hw kl Hkl. apply Hw. by apply Hsub. Qed.

Lemma transition_outcome_typed name h target ev msg r inst w0 e w' :
  rejects_readable (plugin inst) → throws_readable w0 →
  transition_outcome name h target ev msg r inst w0 = (Threw e, w') →
  ∃ m, e = PluginLifecycleError name (hook_label h) m.
Proof.
  intros Hp Hw. unfold transition_outcome.
  destruct (hook_result _ _ _ _ _) as [err|] eqn:Hh.
  - intros [= <- <-]. apply rethrown_readable. by eapply hook_result_readable.
  - destruct (emit_outcome _ _) as [b|err] eqn:He; [done|]. intros [= <- <-].
    apply rethrown_readable. eapply emit_outcome_readable; [|exact He].
    by eapply throws_readable_subseteq; [|exact Hw].
Qed.

Lemma unload_finish_typed name r inst wa e w' :
  rejects_readable (plugin inst) → throws_readable wa →
  unload_finish name r inst wa = (Threw e, w') →
  ∃ m, e = PluginLifecycleError name "onUnload" m.
Proof.
  intros Hp Hw. unfold unload_finish.
  destruct (hook_result _ _ _ _ _) as [err|] eqn:Hh.
  - intros [= <- <-]. apply rethrown_readable. by eapply hook_result_readable.
  - destruct (emit_outcome _ _) as [b|err] eqn:He; [done|]. intros [= <- <-].
    apply rethrown_readable. eapply emit_outcome_readable; [|exact He].
    by eapply throws_readable_subseteq; [|exact Hw].
Qed.

Lemma disablePlugin_listeners name w w' :
  disablePlugin name w = (Returned tt, w') → listeners w' ⊆ listeners w.
Proof.
  intros Hrun.
  destruct (pluginRegistry.get name w) as [[r inst]|] eqn:Hget.
  - destruct (decide (state inst = DISABLED ∨ state inst = LOADED)) as [Hst|Hst].
    + rewrite (disablePlugin_already _ _ _ _ Hget Hst) in Hrun. by injection Hrun as <-.
    + rewrite (disablePlugin_run _ _ _ _ Hget) in Hrun by tauto.
      apply transition_outcome_returned in Hrun as (_ & Hl & _).
      rewrite Hl. simpl. apply drop_once_subseteq.
  - by rewrite (disablePlugin_not_found _ _ Hget) in Hrun.
Qed.

(** X13: as long as what the hooks reject with and what the listeners throw
    has a message that can be read (every [Error] has one; [null] and
    [undefined] have not), what leaves a lifecycle operation is a typed
    error naming the plugin: [loadPlugin] throws only [PluginLoadError];
    [enablePlugin] and [disablePlugin] throw [PluginLoadError] "Plugin not
    found" exactly when the name is not registered and otherwise
    [PluginLifecycleError] for their own hook; [unloadPlugin] throws only
    [PluginLifecycleError] for the hook [onUnload], also when the failure
    came from [onDisable]. *)
Theorem lifecycle_errors_are_typed w e w' :
  throws_readable w →
  (∀ plug meta pth, rejects_readable plug →
     loadPlugin plug meta pth w = (Threw e, w') →
     ∃ m, e = PluginLoadError (md_name meta) m) ∧
  (∀ name, (∀ r inst, pluginRegistry.get name w = Some (r, inst) →
                      rejects_readable (plugin inst)) →
     enablePlugin name w = (Threw e, w') →
     (pluginRegistry.get name w = None ∧
      e = PluginLoadError name (Some "Plugin not found")) ∨
     (is_Some (pluginRegistry.get name w) ∧
      ∃ m, e = PluginLifecycleError name "onEnable" m)) ∧
  (∀ name, (∀ r inst, pluginRegistry.get name w = Some (r, inst) →
                      rejects_readable (plugin inst)) →
     disablePlugin name w = (Threw e, w') →
     (pluginRegistry.get name w = None ∧
      e = PluginLoadError name (Some "Plugin not found")) ∨
     (is_Some (pluginRegistry.get name w) ∧
      ∃ m, e = PluginLifecycleError name "onDisable" m)) ∧
  (∀ name, (∀ r inst, pluginRegistry.get name w = Some (r, inst) →
                      rejects_readable (plugin inst)) →
     unloadPlugin name w = (Threw e, w') →
     is_Some (pluginRegistry.get name w) ∧
     ∃ m, e = PluginLifecycleError name "onUnload" m).
Proof.
  intros Hw. split; [|split; [|split]].
  - intros plug meta pth Hp. rewrite loadPlugin_eq. unfold loadPlugin_outcome.
    destruct (hook_result _ _ _ _ _) as [err|] eqn:Hh.
    + intros [= <- <-]. apply rethrown_readable. by eapply hook_result_readable.
    + destruct (emit_outcome _ _) as [b|err] eqn:He; [done|]. intros [= <- <-].
      apply rethrown_readable. eapply emit_outcome_readable; [|exact He].
      by eapply throws_readable_subseteq; [|exact Hw].
  - intros name Hp Hrun.
    destruct (pluginRegistry.get name w) as [[r inst]|] eqn:Hget.
    + right. split; [by eexists|].
      destruct (decide (state inst = ENABLED)) as [Hst|Hst].
      * by rewrite (enablePlugin_already _ _ _ _ Hget Hst) in Hrun.
      * rewrite (enablePlugin_run _ _ _ _ Hget Hst) in Hrun.
        eapply (transition_outcome_typed _ onEnable); [by eapply Hp| |exact Hrun].
        by eapply throws_readable_subseteq; [|exact Hw].
    + left. rewrite (enablePlugin_not_found _ _ Hget) in Hrun. by injection Hrun as <- <-.
  - intros name Hp Hrun.
    destruct (pluginRegistry.get name w) as [[r inst]|] eqn:Hget.
    + right. split; [by eexists|].
      destruct (decide (state inst = DISABLED ∨ state inst = LOADED)) as [Hst|Hst].
      * by rewrite (disablePlugin_already _ _ _ _ Hget Hst) in Hrun.
      * rewrite (disablePlugin_run _ _ _ _ Hget) in Hrun by tauto.
        eapply (transition_outcome_typed _ onDisable); [by eapply Hp| |exact Hrun].
        by eapply throws_readable_subseteq; [|exact Hw].
    + left. rewrite (disablePlugin_not_found _ _ Hget) in Hrun. by injection Hrun as <- <-.
  - intros name Hp Hrun.
    destruct (pluginRegistry.get name w) as [[r inst]|] eqn:Hget.
    + split; [by eexists|].
      rewrite (unloadPlugin_found _ _ _ _ Hget) in Hrun. unfold unloadPlugin_outcome in Hrun.
      set (w0 := set_trace (trace w ++ [Invoked OpUnload name]) w) in *.
      assert (Hw0 : throws_readable w0) by (by eapply throws_readable_subseteq; [|exact Hw]).
      destruct (decide (state inst = ENABLED)) as [Hst|Hst].
      * destruct (disablePlugin name w0) as [[[]|err] wa] eqn:Hdis.
        -- eapply unload_finish_typed; [by eapply Hp| |exact Hrun].
           eapply throws_readable_subseteq; [|exact Hw0].
           by eapply disablePlugin_listeners.
        -- injection Hrun as <- <-. apply rethrown_readable.
           assert (Hget0 : pluginRegistry.get name w0 = Some (r, inst)) by done.
           rewrite (disablePlugin_run _ _ _ _ Hget0) in Hdis
             by (rewrite Hst; discriminate).
           apply transition_outcome_typed in Hdis as [m ->];
             [by eexists | by eapply Hp | done].
      * eapply unload_finish_typed; [by eapply Hp|exact Hw0|exact Hrun].
    + by rewrite (unloadPlugin_not_found _ _ Hget) in Hrun.
Qed.

Lemma lifecycle_errors_are_typed_witness :
  ∃ m, (unloadPlugin "jobs" sticky_enabled).1 = Threw (PluginLifecycleError "jobs" "onUnload" m).
Proof.
  destruct (lifecycle_errors_are_typed sticky_enabled
              (AppError PLUGIN_LIFECYCLE_ERROR
                 "queue busy (onDisable): jobs (onUnload): jobs")
              (unloadPlugin "jobs" sticky_enabled).2) as (_ & _ & _ & H).
  { intros kl Hkl. by apply elem_of_nil in Hkl. }
  destruct (H "jobs") as (_ & m & Hm).
  - intros r inst [= <- <-] h f ctx t e Hf Hr.
    destruct h; simpl in Hf; try discriminate; injection Hf as <-; cbv in Hr;
      first [discriminate Hr | injection Hr as <-; by eexists].
  - apply pair_of_fst. reflexivity.
  - exists m. rewrite <- Hm. reflexivity.
Defined.

(** ** Descriptor validation *)

Lemma string_or_undefined_Some x s :
  string_or_undefined x = Some s → x = Some (JString s).
Proof. destruct x as [[]|]; simpl; congruence. Qed.

(** X14: [validateMetadata] answers metadata only for an object whose
    [name] and [version] are non-empty strings, and then copies them;
    in every other case it throws a [PluginLoadError] that names the
    directory (the plugin has no name yet), the missing name being reported
    before the missing version. *)
Theorem validateMetadata_accepts_or_names_directory raw dirname :
  (∀ meta, validateMetadata raw dirname = Returned meta →
     is_object raw = true ∧
     md_name meta ≠ "" ∧ md_version meta ≠ "" ∧
     get_prop raw "name" = Some (JString (md_name meta)) ∧
     get_prop raw "version" = Some (JString (md_version meta))) ∧
  (∀ e, validateMetadata raw dirname = Threw e →
     ∃ reason, e = PluginLoadError dirname (Some reason)) ∧
  (is_object raw = false →
     validateMetadata raw dirname =
       Threw (PluginLoadError dirname (Some "Invalid plugin.json: not an object"))) ∧
  (is_object raw = true → string_or_undefined (get_prop raw "name") = None →
     validateMetadata raw dirname =
       Threw (PluginLoadError dirname (Some "Invalid plugin.json: missing or invalid name"))).
Proof.
  unfold validateMetadata. split; [|split; [|split]].
  - intros meta. destruct (is_object raw); simpl; [|done].
    destruct (string_or_undefined (get_prop raw "name")) as [[|c n]|] eqn:Hn; try done.
    destruct (string_or_undefined (get_prop raw "version")) as [[|c' v]|] eqn:Hv; try done.
    intros [= <-]. simpl.
    apply string_or_undefined_Some in Hn. apply string_or_undefined_Some in Hv. done.
  - intros e. destruct (is_object raw); simpl; [|intros [= <-]; by eexists].
    destruct (string_or_undefined (get_prop raw "name")) as [[|c n]|];
      try (intros [= <-]; by eexists).
    destruct (string_or_undefined (get_prop raw "version")) as [[|c' v]|];
      try (intros [= <-]; by eexists).
  - by intros ->.
  - by intros -> ->.
Qed.

Lemma validateMetadata_accepts_or_names_directory_witness :
  validateMetadata (JString "auth") "plugins/auth" =
    Threw (PluginLoadError "plugins/auth" (Some "Invalid plugin.json: not an object")) ∧
  validateMetadata (JArray [JString "auth"]) "plugins/auth" =
    Threw (PluginLoadError "plugins/auth"
             (Some "Invalid plugin.json: missing or invalid name")).
Proof.
  destruct (validateMetadata_accepts_or_names_directory (JString "auth") "plugins/auth")
    as (_ & _ & H1 & _).
  destruct (validateMetadata_accepts_or_names_directory (JArray [JString "auth"])
              "plugins/auth") as (_ & _ & _ & H2).
  split; [apply H1; reflexivity | apply H2; reflexivity].
Defined.

(** X15: only the literal [false] disables a plugin.  In accepted metadata
    [enabled] is [false] exactly when the descriptor has [enabled: false];
    any other value of the field ([0], [null], the string ["false"], ...)
    and a missing field give [enabled = true]. *)
Theorem enabled_is_false_only_for_literal_false raw dirname meta :
  validateMetadata raw dirname = Returned meta →
  (md_enabled meta = false ↔ get_prop raw "enabled" = Some (JBool false)).
Proof.
  unfold validateMetadata. destruct (is_object raw); simpl; [|done].
  destruct (string_or_undefined (get_prop raw "name")) as [[|c n]|]; try done.
  destruct (string_or_undefined (get_prop raw "version")) as [[|c' v]|]; try done.
  intros [= <-]. simpl.
  destruct (get_prop raw "enabled") as [[|[]| | | |]|]; simpl; split; done.
Qed.

Lemma enabled_is_false_only_for_literal_false_witness :
  ∃ meta,
    validateMetadata
      (JObject [("name", JString "auth"); ("version", JString "1.0.0");
                ("enabled", JString "false")]) "plugins/auth" = Returned meta ∧
    md_enabled meta = true.
Proof.
  eexists. split; [reflexivity|].
  destruct (enabled_is_false_only_for_literal_false
              (JObject [("name", JString "auth"); ("version", JString "1.0.0");
                        ("enabled", JString "false")]) "plugins/auth" _ eq_refl)
    as [H _].
  destruct (md_enabled _) eqn:He; [done|]. specialize (H eq_refl). discriminate H.
Defined.

(** ** Discovery at the edges *)

(** X16: a directory without descriptor is skipped, not failed: whatever
    entry modules it holds, [loadPluginFromDirectory] answers nothing with a
    warning, and the step of [loadAllPlugins] returns the results unchanged
    and touches neither the instances nor the registry. *)
Theorem directory_without_descriptor_is_skipped fs this results dir w :
  plugin_json (fs_package fs dir) = None →
  ∃ w', loadAllPlugins_step fs this results dir w = (Returned results, w') ∧
        (loadPluginFromDirectory fs dir w).1 = Returned None ∧
        heap w' = heap w ∧ plugins w' = plugins w ∧ listeners w' = listeners w ∧
        trace w' = trace w ++ [Invoked OpDiscover (path_string dir);
                               Logged LogWarn "Skipping directory: no plugin.json found"
                                 (path_string dir)].
Proof.
  intros Hjson. unfold loadAllPlugins_step, loadAllPlugins_try.
  unfold try_catch, bind at 1.
  rewrite loadPluginFromDirectory_eq. unfold discovery. rewrite Hjson. simpl.
  unfold ret. eexists. repeat split; done.
Qed.

Lemma directory_without_descriptor_is_skipped_witness :
  ∃ w', loadAllPlugins_step demo_fs demo_loader [] ["plugins"; "empty"] empty_world
          = (Returned [], w') ∧
        (loadPluginFromDirectory demo_fs ["plugins"; "empty"] empty_world).1
          = Returned None ∧
        heap w' = [] ∧ plugins w' = [] ∧ listeners w' = [] ∧
        trace w' = [Invoked OpDiscover "plugins/empty";
                    Logged LogWarn "Skipping directory: no plugin.json found"
                      "plugins/empty"].
Proof.
  apply (directory_without_descriptor_is_skipped demo_fs demo_loader []
           ["plugins"; "empty"] empty_world).
  reflexivity.
Defined.

(** X17: [index.ts] comes first and there is no fallback: when the
    descriptor is valid and enabled and [index.ts] exists, what
    [loadPluginFromDirectory] answers does not depend on [index.js]; in
    particular, when importing [index.ts] throws, that error leaves, even
    if [index.js] holds a good module. *)
Theorem index_ts_shadows_index_js fs fs' dir w raw meta m :
  plugin_json (fs_package fs dir) = Some (Returned raw) →
  plugin_json (fs_package fs' dir) = Some (Returned raw) →
  index_ts (fs_package fs dir) = Some m →
  index_ts (fs_package fs' dir) = Some m →
  validateMetadata raw (path_string dir) = Returned meta →
  md_enabled meta = true →
  loadPluginFromDirectory fs dir w = loadPluginFromDirectory fs' dir w ∧
  (∀ e, m = Threw e → (loadPluginFromDirectory fs dir w).1 = Threw e).
Proof.
  intros Hj Hj' Hts Hts' Hv He.
  rewrite !loadPluginFromDirectory_eq. unfold discovery, entry_module.
  rewrite Hj, Hj', Hts, Hts', Hv, He. split; [done|]. by intros e ->.
Qed.

Lemma index_ts_shadows_index_js_witness :
  loadPluginFromDirectory ts_fails_fs ["plugins"; "auth"] empty_world =
    loadPluginFromDirectory ts_fails_js_good_fs ["plugins"; "auth"] empty_world ∧
  (loadPluginFromDirectory ts_fails_js_good_fs ["plugins"; "auth"] empty_world).1 =
    Threw (JsError "Cannot find module './service'").
Proof.
  split.
  - apply (index_ts_shadows_index_js ts_fails_fs ts_fails_js_good_fs ["plugins"; "auth"]
             empty_world (descriptor "auth" "1.0.0") (meta_of "auth" "1.0.0")
             (Threw (JsError "Cannot find module './service'")));
      reflexivity.
  - apply (index_ts_shadows_index_js ts_fails_js_good_fs ts_fails_fs ["plugins"; "auth"]
             empty_world (descriptor "auth" "1.0.0") (meta_of "auth" "1.0.0")
             (Threw (JsError "Cannot find module './service'")));
      reflexivity.
Defined.

(** ** What [loadAllPlugins] returns *)

Lemma loadAllPlugins_step_shape fs this results dir w rs w' :
  loadAllPlugins_step fs this results dir w = (Returned rs, w') →
  rs = results ∨
  (∃ name, rs = results ++ [{| success := true; pluginName := name; error := None |}]) ∨
  (∃ err error, as_Error err = Returned error ∧
                rs = results ++ [{| success := false; pluginName := path_basename dir;
                                    error := Some error |}]).
Proof.
  rewrite loadAllPlugins_step_eq. unfold loadAllPlugins_try. unfold bind at 1.
  destruct (loadPluginFromDirectory fs dir w) as [[[[plug meta]|]|e] w1].
  - unfold bind at 1. destruct (loadPlugin plug meta dir w1) as [[r|e] w2].
    + unfold bind at 1.
      destruct ((if autoEnable this then enablePlugin (md_name meta) else ret tt) w2)
        as [[[]|e] w3].
      * intros [= <- <-]. right; left. by eexists.
      * destruct (as_Error e) eqn:He; intros [= <- <-]. right; right. by eexists _, _.
    + destruct (as_Error e) eqn:He; intros [= <- <-]. right; right. by eexists _, _.
  - intros [= <- <-]. by left.
  - destruct (as_Error e) eqn:He; intros [= <- <-]. right; right. by eexists _, _.
Qed.

Lemma as_Error_is_Error err error :
  as_Error err = Returned error → instanceof_Error error = true.
Proof. destruct err as [| | | | |[s|e] m]; simpl; intros [= <-]; done. Qed.

Lemma loadAllPlugins_loop_results fs this dirs results w rs w' :
  loadAllPlugins_loop fs this dirs results w = (Returned rs, w') →
  ∃ more, rs = results ++ more ∧
          (length more ≤ length dirs)%nat ∧
          Forall result_ok more ∧
          ∀ r, r ∈ more → success r = false → pluginName r ∈ path_basename <$> dirs.
Proof.
  revert results w. induction dirs as [|dir dirs IH]; intros results w;
    cbn [loadAllPlugins_loop].
  - intros [= <- <-]. exists []. rewrite app_nil_r. split; [done|]. split; [done|].
    split; [done|]. intros r Hr. by apply elem_of_nil in Hr.
  - unfold bind.
    destruct (loadAllPlugins_step fs this results dir w) as [[rs1|e] w1] eqn:Hs; [|done].
    intros Hloop.
    apply IH in Hloop as (m2 & -> & Hlen & Hok & Hnames).
    apply loadAllPlugins_step_shape in Hs as [-> | [[name ->] | (err & error & Herr & ->)]].
    + exists m2. split; [done|]. split; [simpl; lia|]. split; [done|].
      intros r Hr Hf. rewrite fmap_cons. apply elem_of_cons. right. by apply Hnames.
    + eexists (_ :: m2). split; [by rewrite <- app_assoc|]. split; [simpl; lia|].
      split; [apply Forall_cons; split; [done | exact Hok]|].
      intros r Hr Hf. rewrite fmap_cons. apply elem_of_cons.
      apply elem_of_cons in Hr as [-> | Hr]; [done|]. right. by apply Hnames.
    + eexists (_ :: m2). split; [by rewrite <- app_assoc|]. split; [simpl; lia|].
      split.
      { apply Forall_cons; split; [|exact Hok]. unfold result_ok. simpl.
        eexists; split; [done|]. by eapply as_Error_is_Error. }
      intros r Hr Hf. rewrite fmap_cons. apply elem_of_cons.
      apply elem_of_cons in Hr as [-> | Hr]; [by left|]. right. by apply Hnames.
Qed.

(** X18: when [loadAllPlugins] returns, the array it returns has at most one
    entry per directory of the plugins root; every entry is well formed (a
    success has no [error], a failure has one and it is an [Error] object,
    also when what was thrown is no [Error]); and a failure is filed under
    the base name of one of the directories. *)
Theorem loadAllPlugins_results_wellformed fs this w rs w' :
  loadAllPlugins fs this w = (Returned rs, w') →
  (length rs ≤ length (discovered_dirs fs this))%nat ∧
  Forall result_ok rs ∧
  ∀ r, r ∈ rs → success r = false →
       pluginName r ∈ path_basename <$> discovered_dirs fs this.
Proof.
  unfold loadAllPlugins, discovered_dirs.
  destruct (fs_readdir fs (pluginsDir this)) as [[entries|e]|]; simpl.
  - unfold bind, lift. intros Hrun.
    apply loadAllPlugins_loop_results in Hrun as (more & -> & Hlen & Hok & Hn). done.
  - done.
  - monad_unfold. simpl. intros [= <- <-]. split; [done|]. split; [done|].
    intros r Hr. by apply elem_of_nil in Hr.
Qed.

Lemma loadAllPlugins_results_wellformed_witness :
  ∃ rs, (loadAllPlugins demo_fs demo_loader empty_world).1 = Returned rs ∧
        (length rs ≤ 8)%nat ∧
        Forall result_ok rs.
Proof.
  eexists. split; [reflexivity|].
  destruct (loadAllPlugins_results_wellformed demo_fs demo_loader empty_world _
              (loadAllPlugins demo_fs demo_loader empty_world).2
              (pair_of_fst _ _ eq_refl)) as (Hlen & Hok & _).
  split; [exact Hlen | exact Hok].
Defined.

(** ** Loading without enabling *)

Lemma loading_only_nil : loading_only [].
Proof.
  split; [done|]. split; intros x Hx; by apply elem_of_nil in Hx.
Qed.

Lemma loading_only_app t1 t2 : loading_only t1 → loading_only t2 → loading_only (t1 ++ t2).
Proof.
  intros (Hc1 & Hh1 & He1) (Hc2 & Hh2 & He2). unfold loading_only.
  rewrite calls_of_app, hooks_run_app, emitted_app, Hc1, Hc2.
  split; [done|]. split; intros x Hx; apply elem_of_app in Hx as [Hx|Hx]; auto.
Qed.

Lemma loading_only_quiet t :
  calls_of OpEnable t = [] → hooks_run t = [] → emitted t = [] → loading_only t.
Proof.
  intros Hc Hh He. unfold loading_only. rewrite Hc, Hh, He.
  split; [done|]. split; intros x Hx; by apply elem_of_nil in Hx.
Qed.

Lemma loadPlugin_loading_only plug meta pth w res w' :
  loadPlugin plug meta pth w = (res, w') →
  ∃ t s, trace w' = trace w ++ t ∧ loading_only t ∧
         heap w' = heap w ++ [{| plugin := plug; metadata := meta;
                                 context := createPluginContext meta;
                                 state := s; path := pth |}] ∧
         (s = LOADED ∨ s = ERROR) ∧
         (plugins w' = plugins w ∨
          plugins w' = JsMap.set (md_name meta) (length (heap w)) (plugins w)).
Proof.
  assert (Hhook : ∀ nh, nh ∈ hooks_run (hook_items (md_name meta) onLoad plug) → nh.2 = onLoad).
  { intros nh. rewrite hooks_run_hook_items. destruct (hook_of plug onLoad).
    - by intros ->%list_elem_of_singleton.
    - by intros ?%elem_of_nil. }
  assert (Hitems : loading_only ([Invoked OpLoad (md_name meta)]
                                   ++ hook_items (md_name meta) onLoad plug)).
  { apply loading_only_app; [by apply loading_only_quiet|].
    unfold loading_only. rewrite calls_of_hook_items, emitted_hook_items.
    split; [done|]. split; [exact Hhook|]. by intros e ?%elem_of_nil. }
  rewrite loadPlugin_eq. unfold loadPlugin_outcome.
  destruct (hook_result _ _ _ _ _).
  - intros [= <- <-]. simpl. eexists _, ERROR.
    split; [by rewrite <- !app_assoc|]. split; [exact Hitems|].
    split; [done|]. split; [by right | by left].
  - assert (Hemit : ∀ ls tail,
              calls_of OpEnable tail = [] → hooks_run tail = [] → emitted tail = [] →
              loading_only ([Invoked OpLoad (md_name meta)]
                              ++ hook_items (md_name meta) onLoad plug
                              ++ [Emitted (plugin_loaded (md_name meta) (md_version meta))]
                              ++ deliveries (plugin_loaded (md_name meta) (md_version meta)) ls
                              ++ tail)).
    { intros ls tail Hc Hh He. rewrite app_assoc. apply loading_only_app; [exact Hitems|].
      unfold loading_only. autorewrite with history. rewrite Hc, Hh, He.
      split; [done|]. split; [by intros nh ?%elem_of_nil|].
      by intros e ->%list_elem_of_singleton. }
    destruct (emit_outcome _ _); intros [= <- <-]; simpl.
    + eexists _, LOADED. split.
      { rewrite <- !app_assoc. simpl. reflexivity. }
      split.
      { apply (Hemit _ [Logged LogInfo "Plugin loaded" (md_name meta)]); done. }
      split; [done|]. split; [by left | by right].
    + eexists _, ERROR. split.
      { rewrite <- !app_assoc. simpl. rewrite <- (app_nil_r (deliveries _ _)). reflexivity. }
      split; [by apply Hemit|].
      split; [done|]. split; [by right | by right].
Qed.

Lemma manual_step fs this results dir w res w' :
  autoEnable this = false →
  loadAllPlugins_step fs this results dir w = (res, w') →
  ∃ t new, trace w' = trace w ++ t ∧ loading_only t ∧
           heap w' = heap w ++ new ∧
           Forall (λ i, state i = LOADED ∨ state i = ERROR) new ∧
           ∀ k r, (k, r) ∈ plugins w' → (k, r) ∈ plugins w ∨ (length (heap w) ≤ r)%nat.
Proof.
  intros Hauto. rewrite loadAllPlugins_step_eq. unfold loadAllPlugins_try.
  unfold bind at 1.
  destruct (loadPluginFromDirectory fs dir w) as [res1 w1] eqn:Hd.
  apply loadPluginFromDirectory_frame in Hd as (Hh1 & Hp1 & _ & t1 & Ht1 & Hc1 & Hhk1 & He1).
  assert (Hl1 : loading_only t1).
  { apply loading_only_quiet; [|done|done]. rewrite Hc1. by rewrite decide_False. }
  assert (Hkeep : ∀ (w2 : World) new2 t2 tail,
            trace w2 = trace w ++ t2 → loading_only t2 →
            heap w2 = heap w ++ new2 →
            Forall (λ i, state i = LOADED ∨ state i = ERROR) new2 →
            (∀ k r, (k, r) ∈ plugins w2 → (k, r) ∈ plugins w ∨ (length (heap w) ≤ r)%nat) →
            calls_of OpEnable tail = [] → hooks_run tail = [] → emitted tail = [] →
            ∃ t new, trace w2 ++ tail = trace w ++ t ∧ loading_only t ∧
                     heap w2 = heap w ++ new ∧
                     Forall (λ i, state i = LOADED ∨ state i = ERROR) new ∧
                     ∀ k r, (k, r) ∈ plugins w2 →
                            (k, r) ∈ plugins w ∨ (length (heap w) ≤ r)%nat).
  { intros w2 new2 t2 tail Ht2 Hl2 Hh2 Hf2 Hp2 Hc Hh He. exists (t2 ++ tail), new2.
    split; [by rewrite Ht2, <- app_assoc|].
    split; [apply loading_only_app; [done | by apply loading_only_quiet]|]. done. }
  assert (Hcatch : ∀ (e : Thrown) (w2 : World) new2 t2,
            trace w2 = trace w ++ t2 → loading_only t2 →
            heap w2 = heap w ++ new2 →
            Forall (λ i, state i = LOADED ∨ state i = ERROR) new2 →
            (∀ k r, (k, r) ∈ plugins w2 → (k, r) ∈ plugins w ∨ (length (heap w) ≤ r)%nat) →
            (let w3 := set_trace (trace w2 ++ [Logged LogError "Failed to load plugin"
                                                 (path_basename dir)]) w2 in
             match as_Error e with
             | Returned error =>
                 (Returned (results ++ [{| success := false; pluginName := path_basename dir;
                                           error := Some error |}]), w3)
             | Threw e' => (Threw e', w3)
             end) = (res, w') →
            ∃ t new, trace w' = trace w ++ t ∧ loading_only t ∧
                     heap w' = heap w ++ new ∧
                     Forall (λ i, state i = LOADED ∨ state i = ERROR) new ∧
                     ∀ k r, (k, r) ∈ plugins w' →
                            (k, r) ∈ plugins w ∨ (length (heap w) ≤ r)%nat).
  { intros e w2 new2 t2 Ht2 Hl2 Hh2 Hf2 Hp2 Hrun.
    destruct (Hkeep w2 new2 t2 [Logged LogError "Failed to load plugin" (path_basename dir)]
                Ht2 Hl2 Hh2 Hf2 Hp2 eq_refl eq_refl eq_refl) as (t & new & Ht & H).
    destruct (as_Error e); injection Hrun as <- <-; by exists t, new. }
  assert (H1 : ∀ k r, (k, r) ∈ plugins w1 → (k, r) ∈ plugins w ∨ (length (heap w) ≤ r)%nat).
  { intros k r Hin. left. by rewrite <- Hp1. }
  destruct res1 as [[[plug meta]|]|e].
  - unfold bind at 1.
    destruct (loadPlugin plug meta dir w1) as [res2 w2] eqn:Hl.
    apply loadPlugin_loading_only in Hl as (t2 & s & Ht2 & Hl2 & Hh2 & Hs & Hp2).
    assert (H2 : ∀ k r, (k, r) ∈ plugins w2 →
                        (k, r) ∈ plugins w ∨ (length (heap w) ≤ r)%nat).
    { intros k r Hin. destruct Hp2 as [Hp2|Hp2]; rewrite Hp2 in Hin.
      - by apply H1.
      - apply elem_of_JsMap_set in Hin as [[= -> ->]|Hin].
        + right. by rewrite Hh1.
        + by apply H1. }
    assert (Ht2' : trace w2 = trace w ++ (t1 ++ t2)) by (by rewrite Ht2, Ht1, <- app_assoc).
    assert (Hh2' : heap w2 = heap w ++ [{| plugin := plug; metadata := meta;
                                           context := createPluginContext meta;
                                           state := s; path := dir |}])
      by (by rewrite Hh2, Hh1).
    assert (Hf2 : Forall (λ i, state i = LOADED ∨ state i = ERROR)
                    [{| plugin := plug; metadata := meta;
                        context := createPluginContext meta;
                        state := s; path := dir |}]) by (by apply Forall_singleton).
    destruct res2 as [r|e].
    + unfold bind at 1. rewrite Hauto. unfold ret. intros [= <- <-].
      eexists _, _. split; [exact Ht2'|]. split; [by apply loading_only_app|]. done.
    + by apply (Hcatch e w2 _ _ Ht2' (loading_only_app _ _ Hl1 Hl2) Hh2' Hf2 H2).
  - unfold ret. intros [= <- <-]. exists t1, [].
    split; [done|]. split; [done|]. split; [by rewrite app_nil_r|]. done.
  - apply (Hcatch e w1 [] t1 Ht1 Hl1); [by rewrite app_nil_r | done | done].
Qed.

Lemma manual_loop fs this dirs results w res w' :
  autoEnable this = false →
  loadAllPlugins_loop fs this dirs results w = (res, w') →
  ∃ t new, trace w' = trace w ++ t ∧ loading_only t ∧
           heap w' = heap w ++ new ∧
           Forall (λ i, state i = LOADED ∨ state i = ERROR) new ∧
           ∀ k r, (k, r) ∈ plugins w' → (k, r) ∈ plugins w ∨ (length (heap w) ≤ r)%nat.
Proof.
  intros Hauto. revert results w. induction dirs as [|dir dirs IH]; intros results w; simpl.
  - intros [= <- <-]. exists [], []. rewrite !app_nil_r.
    split; [done|]. split; [apply loading_only_nil|]. split; [done|]. split; [done|].
    intros k r Hin. by left.
  - unfold bind.
    destruct (loadAllPlugins_step fs this results dir w) as [[rs1|e] w1] eqn:Hs.
    + intros Hloop.
      apply (manual_step _ _ _ _ _ _ _ Hauto) in Hs as (t1 & n1 & Ht1 & Hl1 & Hh1 & Hf1 & Hp1).
      apply IH in Hloop as (t2 & n2 & Ht2 & Hl2 & Hh2 & Hf2 & Hp2).
      exists (t1 ++ t2), (n1 ++ n2).
      split; [by rewrite Ht2, Ht1, <- app_assoc|].
      split; [by apply loading_only_app|].
      split; [by rewrite Hh2, Hh1, <- app_assoc|].
      split; [by apply Forall_app|].
      intros k r Hin. apply Hp2 in Hin as [Hin|Hin].
      * by apply Hp1.
      * right. rewrite Hh1, length_app in Hin. lia.
    + intros [= <- <-].
      by apply (manual_step _ _ _ _ _ _ _ Hauto) in Hs.
Qed.

(** X19: a loader created with [autoEnable = false] enables nothing,
    however [loadAllPlugins] ends.  [enablePlugin] is never entered, the
    only hooks run are [onLoad] hooks and the only events emitted are
    [plugin:loaded]; the instances that existed are not written, every
    instance created is left in state [loaded] or [error], and every entry
    of the registry that refers to an enabled instance afterwards was there
    before, referring to the same enabled instance. *)
Theorem loadAllPlugins_without_autoEnable fs this w res w' :
  autoEnable this = false →
  loadAllPlugins fs this w = (res, w') →
  ∃ t new,
    trace w' = trace w ++ t ∧ loading_only t ∧
    heap w' = heap w ++ new ∧
    Forall (λ i, state i = LOADED ∨ state i = ERROR) new ∧
    ∀ k r i, (k, r) ∈ plugins w' → heap w' !! r = Some i → state i = ENABLED →
             (k, r) ∈ plugins w ∧ heap w !! r = Some i.
Proof.
  intros Hauto Hrun.
  assert (∃ t new, trace w' = trace w ++ t ∧ loading_only t ∧
            heap w' = heap w ++ new ∧
            Forall (λ i, state i = LOADED ∨ state i = ERROR) new ∧
            ∀ k r, (k, r) ∈ plugins w' → (k, r) ∈ plugins w ∨ (length (heap w) ≤ r)%nat)
    as (t & new & Ht & Hl & Hh & Hf & Hp).
  { revert Hrun. unfold loadAllPlugins.
    destruct (fs_readdir fs (pluginsDir this)) as [[entries|e]|].
    - unfold bind, lift. by apply manual_loop.
    - unfold bind, lift. intros [= <- <-]. exists [], []. rewrite !app_nil_r.
      split; [done|]. split; [apply loading_only_nil|]. split; [done|]. split; [done|].
      intros k r Hin. by left.
    - monad_unfold. simpl. intros [= <- <-]. simpl.
      exists [Logged LogWarn "Plugins directory does not exist"
                (path_string (pluginsDir this))], [].
      rewrite app_nil_r. split; [done|]. split; [by apply loading_only_quiet|].
      split; [done|]. split; [done|]. intros k r Hin. by left. }
  exists t, new. split; [done|]. split; [done|]. split; [done|]. split; [done|].
  intros k r i Hin Hlk Hst. rewrite Hh in Hlk.
  destruct (decide (r < length (heap w))%nat) as [Hlt|Hge].
  - rewrite lookup_app_l in Hlk by done. split; [|done].
    apply Hp in Hin as [Hin|Hin]; [done|lia].
  - exfalso. rewrite lookup_app_r in Hlk by lia.
    apply list_elem_of_lookup_2 in Hlk.
    rewrite Forall_forall in Hf. destruct (Hf _ Hlk) as [Hs|Hs]; congruence.
Qed.

Lemma loadAllPlugins_without_autoEnable_witness :
  ∃ t new,
    trace (loadAllPlugins demo_fs manual_loader empty_world).2 = trace empty_world ++ t ∧
    loading_only t ∧
    heap (loadAllPlugins demo_fs manual_loader empty_world).2 = heap empty_world ++ new ∧
    Forall (λ i, state i = LOADED ∨ state i = ERROR) new.
Proof.
  destruct (loadAllPlugins_without_autoEnable demo_fs manual_loader empty_world _ _
              eq_refl (surjective_pairing _)) as (t & new & Ht & Hl & Hh & Hf & _).
  by exists t, new.
Defined.

(** ** Reloading *)

Lemma JsMap_keys_remove {V} k (m : list (string * V)) :
  JsMap.keys (JsMap.remove k m) = filter (λ k', k' ≠ k) (JsMap.keys m).
Proof.
  unfold JsMap.keys, JsMap.remove. induction m as [|[k0 v0] m IH]; [done|].
  rewrite filter_cons. csimpl. rewrite filter_cons. simpl.
  destruct (decide (k0 ≠ k)); csimpl; by rewrite IH.
Qed.

Lemma not_elem_of_keys_remove {V} k (m : list (string * V)) :
  k ∉ JsMap.keys (JsMap.remove k m).
Proof. rewrite JsMap_keys_remove. rewrite list_elem_of_filter. by intros [? _]. Qed.

(** X20: a reload that goes well.  For a registered plugin whose hooks never
    reject, on a bus whose listeners never throw, when the directory the
    instance came from still holds a loadable package of the same name whose
    hooks never reject, [reloadPlugin] returns; the old instance object ends
    [unloaded], a new instance made from the package is registered under the
    name and is [enabled] (whatever the state of the old one was), the name
    moves to the end of the registration order, and the hooks and events are
    those of an unload followed by a load and an enable. *)
Theorem reloadPlugin_replaces_instance fs name w r inst plug meta :
  pluginRegistry.get name w = Some (r, inst) →
  well_behaved (plugin inst) → quiet_bus w →
  (discovery (fs_package fs (path inst)) (path_string (path inst))).1
    = Returned (Some (plug, meta)) →
  md_name meta = name →
  well_behaved plug →
  ∃ w' t,
    reloadPlugin fs name w = (Returned tt, w') ∧
    pluginRegistry.get name w' =
      Some (length (heap w),
            {| plugin := plug; metadata := meta; context := createPluginContext meta;
               state := ENABLED; path := path inst |}) ∧
    heap w' !! r = Some (with_state UNLOADED inst) ∧
    JsMap.keys (plugins w') = filter (λ k, k ≠ name) (JsMap.keys (plugins w)) ++ [name] ∧
    trace w' = trace w ++ t ∧
    hooks_run t =
      hooks_defined name (plugin inst)
        (if decide (state inst = ENABLED) then [onDisable; onUnload] else [onUnload])
      ++ hooks_defined name plug [onLoad; onEnable] ∧
    emitted t =
      (if decide (state inst = ENABLED) then [plugin_disabled name] else [])
      ++ [plugin_unloaded name; plugin_loaded name (md_version meta); plugin_enabled name].
Proof.
  intros Hget Hwb Hq Hdisc Hname Hwb'.
  unfold reloadPlugin. unfold bind at 1, gets. rewrite Hget. unfold bind at 1.
  destruct (unloadPlugin_succeeds name w r inst Hget Hwb Hq)
    as (w1 & t1 & Hun & Hg1 & Hp1 & Hh1 & Hlen1 & Hq1 & Ht1 & Hhk1 & He1).
  rewrite Hun. unfold bind at 1.
  rewrite loadPluginFromDirectory_eq, Hdisc.
  set (w2 := set_trace _ w1).
  assert (Hq2 : quiet_bus w2) by (by eapply quiet_bus_subseteq; [|exact Hq1]).
  unfold bind at 1.
  destruct (loadPlugin_succeeds plug meta (path inst) w2 Hwb' Hq2)
    as (w3 & t3 & Hload & Hg3 & Hp3 & Hh3 & Hq3 & Ht3 & Hhk3 & He3).
  rewrite Hload. unfold bind at 1. rewrite Hname in Hg3.
  destruct (enablePlugin_succeeds name w3 _ _ Hg3) as
    (w4 & t4 & Hen & Hg4 & Hp4 & Hh4 & Hq4 & Ht4 & Hhk4 & He4); [done | done | done |].
  rewrite Hen. unfold log, record, modify. simpl.
  destruct (discovery_logs (fs_package fs (path inst)) (path_string (path inst)) OpLoad)
    as (_ & Hdh & Hde).
  eexists _, (t1 ++ ([Invoked OpDiscover (path_string (path inst))]
                       ++ (discovery (fs_package fs (path inst))
                             (path_string (path inst))).2)
                 ++ t3 ++ t4 ++ [Logged LogInfo "Plugin reloaded" name]).
  split; [done|]. simpl.
  assert (Hlen2 : length (heap w2) = length (heap w)) by done.
  split.
  { unfold pluginRegistry.get in *. simpl. rewrite Hlen2 in Hg4. exact Hg4. }
  split.
  { rewrite Hh4, Hh3. simpl.
    assert (Hr : (r < length (heap w1))%nat) by (by eapply lookup_lt_Some).
    rewrite list_lookup_alter_ne by (simpl; lia).
    by rewrite lookup_app_l. }
  split.
  { rewrite Hp4, Hp3, Hname. simpl. rewrite Hp1.
    rewrite JsMapFacts.keys_set_absent by apply not_elem_of_keys_remove.
    by rewrite JsMap_keys_remove. }
  split.
  { rewrite Ht4, Ht3. simpl. rewrite Ht1. by rewrite <- !app_assoc. }
  autorewrite with history. rewrite Hhk1, Hhk3, Hhk4, He1, He3, He4, Hdh, Hde, Hname.
  simpl. split.
  - f_equal. unfold hooks_defined. simpl. by repeat case_match.
  - by rewrite <- app_assoc.
Qed.

Lemma reloadPlugin_replaces_instance_witness :
  ∃ w', reloadPlugin demo_fs "auth" demo_world = (Returned tt, w') ∧
        state_of "auth" w' = Some ENABLED ∧
        registered_names demo_world = ["auth"; "search"] ∧
        registered_names w' = ["search"; "auth"].
Proof.
  destruct (reloadPlugin_replaces_instance demo_fs "auth" demo_world 0
              {| plugin := healthy "auth" "1.0.0"; metadata := meta_of "auth" "1.0.0";
                 context := createPluginContext (meta_of "auth" "1.0.0");
                 state := ENABLED; path := ["plugins"; "auth"] |}
              (healthy "auth" "1.0.0") (meta_of "auth" "1.0.0"))
    as (w' & t & Hrun & Hget & _).
  - reflexivity.
  - intros h f ctx t. by destruct h; intros [= <-].
  - intros kl Hkl. by apply elem_of_nil in Hkl.
  - reflexivity.
  - reflexivity.
  - intros h f ctx t. by destruct h; intros [= <-].
  - exists w'. split; [exact Hrun|].
    split; [unfold state_of; by rewrite Hget|].
    split; [reflexivity|].
    apply (f_equal snd) in Hrun. simpl in Hrun. subst w'. vm_compute. reflexivity.
Defined.

(** X21: [reloadPlugin] after the descriptor of a plugin was renamed.  On a
    name that is not registered [reloadPlugin] throws [PluginLoadError]
    "Plugin not found" and nothing happens.  On a registered plugin (whose
    hooks never reject, on a bus whose listeners never throw) whose
    descriptor now carries another name, while [import()] still answers the
    module the instance was made from, the unload goes through and then
    re-discovery throws [PluginLoadError] "Plugin name mismatch": the old
    plugin has been unloaded and unregistered, no instance is created, no
    [onLoad] runs and the registry is the old one without the plugin. *)
Theorem reloadPlugin_after_descriptor_rename fs name w :
  (pluginRegistry.get name w = None →
     reloadPlugin fs name w = (Threw (PluginLoadError name (Some "Plugin not found")), w)) ∧
  (∀ r inst raw meta,
     pluginRegistry.get name w = Some (r, inst) →
     well_behaved (plugin inst) → quiet_bus w →
     plugin_json (fs_package fs (path inst)) = Some (Returned raw) →
     validateMetadata raw (path_string (path inst)) = Returned meta →
     md_enabled meta = true →
     entry_module (fs_package fs (path inst)) = Some (Returned (PluginObject (plugin inst))) →
     md_name meta ≠ pl_name (plugin inst) →
     ∃ w' t,
       reloadPlugin fs name w =
         (Threw (PluginLoadError (md_name meta)
                   (Some ("Plugin name mismatch: " +:+ pl_name (plugin inst)
                          +:+ " vs " +:+ md_name meta))), w') ∧
       pluginRegistry.get name w' = None ∧
       plugins w' = JsMap.remove name (plugins w) ∧
       heap w' !! r = Some (with_state UNLOADED inst) ∧
       length (heap w') = length (heap w) ∧
       trace w' = trace w ++ t ∧
       hooks_run t =
         hooks_defined name (plugin inst)
           (if decide (state inst = ENABLED) then [onDisable; onUnload] else [onUnload]) ∧
       emitted t =
         (if decide (state inst = ENABLED) then [plugin_disabled name] else [])
         ++ [plugin_unloaded name]).
Proof.
  split.
  - intros Hget. unfold reloadPlugin. unfold bind, gets. by rewrite Hget.
  - intros r inst raw meta Hget Hwb Hq Hjson Hvalid Hen Hmod Hname.
    assert (Hd : discovery (fs_package fs (path inst)) (path_string (path inst)) =
                 (Threw (PluginLoadError (md_name meta)
                           (Some ("Plugin name mismatch: " +:+ pl_name (plugin inst)
                                  +:+ " vs " +:+ md_name meta))), [])).
    { unfold discovery. rewrite Hjson, Hvalid, Hen, Hmod.
      by rewrite decide_False by done. }
    unfold reloadPlugin. unfold bind at 1, gets. rewrite Hget. unfold bind at 1.
    destruct (unloadPlugin_succeeds name w r inst Hget Hwb Hq)
      as (w1 & t1 & Hun & Hg1 & Hp1 & Hh1 & Hlen1 & Hq1 & Ht1 & Hhk1 & He1).
    rewrite Hun. unfold bind at 1.
    rewrite loadPluginFromDirectory_eq, Hd.
    eexists _, (t1 ++ [Invoked OpDiscover (path_string (path inst))]).
    split; [done|]. simpl. split; [done|]. split; [done|]. split; [done|].
    split; [done|].
    split; [by rewrite Ht1, ?app_nil_r, <- ?app_assoc|].
    autorewrite with history. rewrite Hhk1, He1. by rewrite !app_nil_r.
Qed.

Lemma reloadPlugin_after_descriptor_rename_witness :
  reloadPlugin redescribed_fs "ghost" demo_world =
    (Threw (PluginLoadError "ghost" (Some "Plugin not found")), demo_world) ∧
  ∃ w', reloadPlugin redescribed_fs "auth" demo_world =
          (Threw (PluginLoadError "login" (Some "Plugin name mismatch: auth vs login")),
           w') ∧
        state_of "auth" w' = None ∧
        state_of "login" w' = None ∧
        length (heap w') = length (heap demo_world).
Proof.
  destruct (reloadPlugin_after_descriptor_rename redescribed_fs "ghost" demo_world)
    as [Hghost _].
  destruct (reloadPlugin_after_descriptor_rename redescribed_fs "auth" demo_world)
    as [_ Hauth].
  split; [apply Hghost; reflexivity|].
  destruct (Hauth 0
              {| plugin := healthy "auth" "1.0.0"; metadata := meta_of "auth" "1.0.0";
                 context := createPluginContext (meta_of "auth" "1.0.0");
                 state := ENABLED; path := ["plugins"; "auth"] |}
              (descriptor "login" "2.0.0") (meta_of "login" "2.0.0"))
    as (w' & t & Hrun & Hold & Hp & _ & Hlen & _).
  - reflexivity.
  - intros h f ctx t. by destruct h; intros [= <-].
  - intros kl Hkl. by apply elem_of_nil in Hkl.
  - reflexivity.
  - reflexivity.
  - reflexivity.
  - reflexivity.
  - done.
  - exists w'. split; [exact Hrun|]. unfold state_of.
    split; [by rewrite Hold|]. split; [|exact Hlen].
    unfold pluginRegistry.get. rewrite Hp. reflexivity.
Defined.

(** ** The event bus *)

Lemma called_subseteq e ls : called e ls ⊆ ls.
Proof.
  induction ls as [|l ls IH]; simpl; [done|].
  destruct (l_run l e).
  - intros x Hx. apply list_elem_of_singleton in Hx as ->. by left.
  - intros x Hx. apply elem_of_cons in Hx as [->|Hx]; [by left|]. right. by apply IH.
Qed.

Lemma elem_of_listeners_of event l w :
  l ∈ listeners_of event w ↔ (event, l) ∈ listeners w.
Proof.
  unfold listeners_of. rewrite list_elem_of_fmap. split.
  - intros ([k l'] & -> & Hkl). apply list_elem_of_filter in Hkl as [Hk Hkl].
    simpl in Hk. by subst k.
  - intros Hl. exists (event, l). split; [done|]. by apply list_elem_of_filter.
Qed.

Lemma drop_once_other_event event tbl ls kl :
  kl ∈ tbl → kl.1 ≠ event → kl ∈ foldl (drop_once event) tbl ls.
Proof.
  revert tbl. induction ls as [|l ls IH]; intros tbl Hkl Hne; simpl; [done|].
  apply IH; [|done]. unfold drop_once. destruct (l_once l); [|done].
  apply remove_first_keeps; [done|]. by intros [? _].
Qed.

(** A one-shot registration that is the only registration of its listener
    for the event is gone once the emission has called it. *)
Lemma drop_once_fresh event id tbl ls l :
  Forall (λ kl, ¬ (kl.1 = event ∧ l_id kl.2 = id)) tbl →
  Forall (λ l', l_id l' ≠ id) ls →
  l_id l = id → l_once l = true →
  ∀ kl, kl ∈ foldl (drop_once event) (tbl ++ [(event, l)]) (ls ++ [l]) →
        ¬ (kl.1 = event ∧ l_id kl.2 = id).
Proof.
  intros Htbl Hls Hid Honce. revert tbl Htbl.
  induction Hls as [|l0 ls Hl0 _ IH]; intros tbl Htbl kl Hkl.
  - simpl in Hkl. unfold drop_once in Hkl. rewrite Honce in Hkl.
    rewrite remove_first_snoc in Hkl.
    + rewrite Forall_forall in Htbl. by apply Htbl.
    + eapply Forall_impl; [exact Htbl|]. simpl. intros x Hx (? & ? & _). apply Hx.
      split; congruence.
    + done.
  - simpl in Hkl. unfold drop_once at 2 in Hkl. destruct (l_once l0).
    + rewrite remove_first_snoc_other in Hkl by (simpl; intros (_ & ? & _); congruence).
      revert Hkl. apply IH.
      rewrite Forall_forall in Htbl |- *. intros x Hx. apply Htbl.
      by eapply remove_first_subseteq.
    + revert Hkl. by apply IH.
Qed.

Lemma emitEvent_deliveries e w item :
  item ∈ deliveries e (listeners_of (ev_name e) w) →
  ∃ l, (ev_name e, l) ∈ listeners w ∧ item = Delivered (l_id l) e.
Proof.
  unfold deliveries. intros (l & -> & Hl)%list_elem_of_fmap.
  apply called_subseteq in Hl. apply elem_of_listeners_of in Hl. by exists l.
Qed.

(** X22: an emission reaches the subscribers of its event and nobody else.
    Every delivery [emitEvent] makes is to a listener registered for the
    name of the event; the listeners of other events stay registered, no
    listener is added, and neither the instances nor the registry change.
    With no listener for the event, [emitEvent] answers [false], delivers
    nothing and leaves the listener table as it was. *)
Theorem emitEvent_reaches_only_subscribers e w :
  ∃ res w' ds,
    emitEvent e w = (res, w') ∧
    trace w' = trace w ++ Emitted e :: ds ∧
    (∀ item, item ∈ ds →
       ∃ l, (ev_name e, l) ∈ listeners w ∧ item = Delivered (l_id l) e) ∧
    heap w' = heap w ∧ plugins w' = plugins w ∧
    listeners w' ⊆ listeners w ∧
    (∀ kl, kl ∈ listeners w → kl.1 ≠ ev_name e → kl ∈ listeners w') ∧
    (listeners_of (ev_name e) w = [] →
       res = Returned false ∧ ds = [] ∧ listeners w' = listeners w).
Proof.
  rewrite emitEvent_eq. eexists _, _, _. split; [done|]. simpl.
  split; [done|]. split; [apply emitEvent_deliveries|].
  split; [done|]. split; [done|]. split; [apply drop_once_subseteq|].
  split; [intros kl; apply drop_once_other_event|].
  intros Hnone. unfold emit_outcome. by rewrite Hnone.
Qed.

(** X23: a listener registered with [onceEvent] is called once.  When its
    registration is new for the event and no listener registered before it
    throws on the event, the first emission calls it last and ends as the
    listener ends (throwing what it throws, or answering [true]); it is
    unregistered by then, also when it threw, and a second emission of the
    event does not call it. *)
Theorem onceEvent_listener_called_once e id f w :
  (∀ kl, kl ∈ listeners w → ¬ (kl.1 = ev_name e ∧ l_id kl.2 = id)) →
  first_throw e (listeners_of (ev_name e) w) = None →
  ∃ w1 w2 ds1 res2 w3 ds2,
    onceEvent (ev_name e) id f w = (Returned tt, w1) ∧
    emitEvent e w1 =
      (match f e with Some err => Threw err | None => Returned true end, w2) ∧
    trace w2 = trace w ++ Emitted e :: ds1 ++ [Delivered id e] ∧
    (∀ kl, kl ∈ listeners w2 → ¬ (kl.1 = ev_name e ∧ l_id kl.2 = id)) ∧
    emitEvent e w2 = (res2, w3) ∧
    trace w3 = trace w2 ++ Emitted e :: ds2 ∧
    Delivered id e ∉ ds2.
Proof.
  intros Hfresh Hquiet.
  set (l := {| l_id := id; l_once := true; l_run := f |}).
  set (w1 := set_listeners (listeners w ++ [(ev_name e, l)]) w).
  assert (Hls : listeners_of (ev_name e) w1 = listeners_of (ev_name e) w ++ [l]).
  { unfold listeners_of. simpl. rewrite filter_app, fmap_app. f_equal.
    rewrite filter_cons. simpl. by rewrite decide_True. }
  assert (Hcalled : ∀ ls, first_throw e ls = None →
            called e (ls ++ [l]) = ls ++ [l] ∧
            first_throw e (ls ++ [l]) = f e).
  { induction ls as [|l0 ls IH]; simpl.
    - intros _. by destruct (f e).
    - destruct (l_run l0 e); [done|]. intros Hft.
      destruct (IH Hft) as [-> ->]. done. }
  destruct (Hcalled _ Hquiet) as [Hc Hf].
  assert (Hgone : ∀ kl, kl ∈ listeners (after_emit e w1) →
                        ¬ (kl.1 = ev_name e ∧ l_id kl.2 = id)).
  { simpl. rewrite Hls, Hc.
    apply (drop_once_fresh _ id); [| |done|done].
    - rewrite Forall_forall. exact Hfresh.
    - rewrite Forall_forall. intros l' Hl' Hid.
      apply elem_of_listeners_of in Hl'. by apply (Hfresh _ Hl'). }
  exists w1, (after_emit e w1), ((λ l, Delivered (l_id l) e) <$> listeners_of (ev_name e) w),
    (emit_outcome e (after_emit e w1)), (after_emit e (after_emit e w1)),
    (deliveries e (listeners_of (ev_name e) (after_emit e w1))).
  split; [done|]. split.
  { rewrite emitEvent_eq. f_equal. unfold emit_outcome. rewrite Hls, Hf.
    destruct (f e); [done|]. rewrite bool_decide_eq_true_2; [done|].
    by destruct (listeners_of (ev_name e) w). }
  split.
  { simpl. unfold deliveries. by rewrite Hls, Hc, fmap_app. }
  split; [exact Hgone|].
  split; [by rewrite emitEvent_eq|]. split; [done|].
  intros Hin. apply emitEvent_deliveries in Hin as (l' & Hl' & Heq).
  injection Heq as Hid. by apply (Hgone _ Hl').
Qed.

Lemma onceEvent_listener_called_once_witness :
  ∃ w1 w2 ds1 res2 w3 ds2,
    onceEvent "custom:ping" 7 (faulty "boom") empty_world = (Returned tt, w1) ∧
    emitEvent ping w1 = (Threw (JsError "boom"), w2) ∧
    trace w2 = trace empty_world ++ Emitted ping :: ds1 ++ [Delivered 7 ping] ∧
    (∀ kl, kl ∈ listeners w2 → ¬ (kl.1 = "custom:ping" ∧ l_id kl.2 = 7)) ∧
    emitEvent ping w2 = (res2, w3) ∧
    trace w3 = trace w2 ++ Emitted ping :: ds2 ∧
    Delivered 7 ping ∉ ds2.
Proof.
  apply (onceEvent_listener_called_once ping 7 (faulty "boom") empty_world).
  - intros kl Hkl. by apply elem_of_nil in Hkl.
  - reflexivity.
Defined.

(** X24: subscriptions are kept in registration order and can be undone.
    [onEvent] puts the listener last among the listeners of its event and
    leaves the listeners of every other event as they were; when the
    registration is new for the event, [offEvent] of it afterwards gives
    back the world there was before. *)
Theorem onEvent_then_offEvent event id f w :
  (∀ kl, kl ∈ listeners w → ¬ (kl.1 = event ∧ l_id kl.2 = id)) →
  ∃ w1,
    onEvent event id f w = (Returned tt, w1) ∧
    listeners_of event w1 =
      listeners_of event w ++ [{| l_id := id; l_once := false; l_run := f |}] ∧
    (∀ event', event' ≠ event → listeners_of event' w1 = listeners_of event' w) ∧
    offEvent event id w1 = (Returned tt, w).
Proof.
  intros Hfresh. eexists. split; [done|]. unfold listeners_of. simpl.
  split; [|split].
  - rewrite filter_app, fmap_app. f_equal. rewrite filter_cons. simpl.
    by rewrite decide_True.
  - intros event' Hne. rewrite filter_app, filter_cons. simpl.
    rewrite decide_False by done. by rewrite filter_nil, app_nil_r.
  - unfold offEvent, removeListener, modify, set_listeners. simpl.
    rewrite remove_last_snoc by done. by destruct w.
Qed.

Lemma onEvent_then_offEvent_witness :
  ∃ w1,
    onEvent "custom:ping" 4 quiet faulty_bus = (Returned tt, w1) ∧
    listeners_of "custom:ping" w1 =
      listeners_of "custom:ping" faulty_bus
        ++ [{| l_id := 4; l_once := false; l_run := quiet |}] ∧
    (∀ event', event' ≠ "custom:ping" →
               listeners_of event' w1 = listeners_of event' faulty_bus) ∧
    offEvent "custom:ping" 4 w1 = (Returned tt, faulty_bus).
Proof.
  apply (onEvent_then_offEvent "custom:ping" 4 quiet faulty_bus).
  intros kl Hkl [_ Hid]. revert Hid. vm_compute in Hkl.
  repeat (apply elem_of_cons in Hkl as [->|Hkl]; [done|]).
  by apply elem_of_nil in Hkl.
Defined.

(** ** Routes *)

Lemma registerPluginRoutes_loop_mounts routes l app w :
  ∃ res added w',
    registerPluginRoutes_loop routes l app w = (res, app ++ added, w') ∧
    heap w' = heap w ∧ plugins w' = plugins w ∧ listeners w' = listeners w ∧
    (∀ m, m ∈ added → ∃ ri, ri ∈ l ∧ mount_of routes ri = Some m) ∧
    ((∀ ri e, ri ∈ l → routes (plugin ri.2) ≠ Some (Threw e)) →
       res = Returned tt ∧ added = omap (mount_of routes) l) ∧
    (∀ e, res = Threw e → ∃ ri, ri ∈ l ∧ routes (plugin ri.2) = Some (Threw e)).
Proof.
  revert app w. induction l as [|[r instance] l IH]; intros app w.
  - exists (Returned tt), [], w. simpl. rewrite app_nil_r.
    split; [done|]. split; [done|]. split; [done|]. split; [done|].
    split; [by intros m ?%elem_of_nil|]. split; [done|]. done.
  - cbn [registerPluginRoutes_loop].
    destruct (routes (plugin instance)) as [[router|e]|] eqn:Hroutes.
    + match goal with |- context [registerPluginRoutes_loop routes l ?a ?w1] =>
        destruct (IH a w1) as (res & added & w' & Hrun & Hh & Hp & Hl & Hin & Hall & Hthrow)
      end.
      exists res, (("/api/v1/" +:+ md_name (metadata instance), router) :: added), w'.
      split; [rewrite Hrun; by rewrite <- app_assoc|].
      split; [done|]. split; [done|]. split; [done|].
      split; [|split].
      * intros m [->|Hm]%elem_of_cons.
        -- exists (r, instance). split; [by left|]. unfold mount_of. simpl.
           by rewrite Hroutes.
        -- destruct (Hin m Hm) as (ri & Hri & Hmount). exists ri. split; [by right | done].
      * intros Hok. destruct Hall as [-> ->].
        { intros ri e Hri. apply Hok. by right. }
        split; [done|]. csimpl. unfold mount_of. simpl. by rewrite Hroutes.
      * intros e Hres. destruct (Hthrow e Hres) as (ri & Hri & Hr).
        exists ri. split; [by right | done].
    + exists (Threw e), [], w. rewrite app_nil_r.
      split; [done|]. split; [done|]. split; [done|]. split; [done|].
      split; [by intros m ?%elem_of_nil|]. split.
      * intros Hok. exfalso. apply (Hok (r, instance) e); [by left | done].
      * intros e' [= <-]. exists (r, instance). split; [by left | done].
    + destruct (IH app w) as (res & added & w' & Hrun & Hh & Hp & Hl & Hin & Hall & Hthrow).
      exists res, added, w'.
      split; [done|]. split; [done|]. split; [done|]. split; [done|].
      split; [|split].
      * intros m Hm. destruct (Hin m Hm) as (ri & Hri & Hmount).
        exists ri. split; [by right | done].
      * intros Hok. destruct Hall as [-> ->].
        { intros ri e Hri. apply Hok. by right. }
        split; [done|]. csimpl. unfold mount_of. simpl. by rewrite Hroutes.
      * intros e Hres. destruct (Hthrow e Hres) as (ri & Hri & Hr).
        exists ri. split; [by right | done].
Qed.

(** The enabled instances [getEnabled] answers are those of the entries of
    the map. *)
Lemma getEnabled_entry w r i :
  (r, i) ∈ pluginRegistry.getEnabled w →
  state i = ENABLED ∧ ∃ k, (k, r) ∈ plugins w ∧ heap w !! r = Some i.
Proof.
  unfold pluginRegistry.getEnabled, pluginRegistry.getAll, JsMap.values.
  intros [Hst Hin]%list_elem_of_filter. split; [done|].
  apply list_elem_of_omap in Hin as (r' & Hr' & Hi).
  destruct (heap w !! r') as [i'|] eqn:Hlk; simpl in Hi; [|done].
  injection Hi as -> ->.
  apply list_elem_of_fmap in Hr' as ([k r0] & -> & Hin). by exists k.
Qed.

Lemma mounts_of_entries routes w :
  registry_ok w →
  omap (mount_of routes) (pluginRegistry.getEnabled w)
    = omap (mount_of_entry routes w) (plugins w).
Proof.
  intros [_ Hin]. unfold pluginRegistry.getEnabled, pluginRegistry.getAll, JsMap.values.
  revert Hin. induction (plugins w) as [|[k r] m IH]; intros Hin; [done|].
  csimpl. destruct (Hin k r) as (i & Hi & Hn); [by left|].
  unfold mount_of_entry at 1. simpl. rewrite Hi. csimpl.
  rewrite filter_cons. simpl.
  assert (IH' : omap (mount_of routes)
                  (filter (λ ri, state ri.2 = ENABLED)
                     (omap (λ r0, i0 ← heap w !! r0; Some (r0, i0)) m.*2))
                = omap (mount_of_entry routes w) m).
  { apply IH. intros k' r' H. apply Hin. by right. }
  destruct (decide (state i = ENABLED)) as [Hst|Hst].
  - csimpl. unfold mount_of at 1. simpl. rewrite Hn, IH'.
    by destruct (routes (plugin i)) as [[router|e]|].
  - by rewrite IH'.
Qed.

(** X25: [registerPluginRoutes] mounts the routes of the enabled plugins and
    of no other.  In a well-formed registry: the mounts already on the
    application stay; each mount it adds is the router of an entry of the
    registry whose instance is in state [enabled] and whose plugin has a
    [routes] member that returned, at [/api/v1/<name>]; neither the
    instances nor the registry change.  When no [routes] call of an enabled
    registered plugin throws, it returns and the mounts added are exactly
    those of the entries of the registry, in registration order; when it
    throws, the error is one that the [routes] call of an enabled registered
    plugin threw. *)
Theorem registerPluginRoutes_mounts_enabled_only routes app w :
  registry_ok w →
  ∃ res added w',
    registerPluginRoutes routes app w = (res, app ++ added, w') ∧
    heap w' = heap w ∧ plugins w' = plugins w ∧
    (∀ mountPath router, (mountPath, router) ∈ added →
       ∃ k r inst, (k, r) ∈ plugins w ∧ heap w !! r = Some inst ∧
                   state inst = ENABLED ∧
                   routes (plugin inst) = Some (Returned router) ∧
                   mountPath = "/api/v1/" +:+ k) ∧
    ((∀ k r inst e, (k, r) ∈ plugins w → heap w !! r = Some inst →
                    state inst = ENABLED → routes (plugin inst) ≠ Some (Threw e)) →
       res = Returned tt ∧
       added = omap (mount_of_entry routes w) (plugins w)) ∧
    (∀ e, res = Threw e →
       ∃ k r inst, (k, r) ∈ plugins w ∧ heap w !! r = Some inst ∧
                   state inst = ENABLED ∧ routes (plugin inst) = Some (Threw e)).
Proof.
  intros Hok. unfold registerPluginRoutes.
  destruct (registerPluginRoutes_loop_mounts routes (pluginRegistry.getEnabled w) app w)
    as (res & added & w' & Hrun & Hh & Hp & _ & Hin & Hall & Hthrow).
  exists res, added, w'. split; [done|]. split; [done|]. split; [done|].
  split; [|split].
  - intros mountPath router Hm. destruct (Hin _ Hm) as ([r inst] & Hri & Hmount).
    apply getEnabled_entry in Hri as (Hst & k & Hk & Hlk).
    destruct Hok as [_ Hreg]. destruct (Hreg _ _ Hk) as (i' & Hi' & Hn).
    assert (i' = inst) as -> by congruence.
    exists k, r, inst. unfold mount_of in Hmount. simpl in Hmount.
    destruct (routes (plugin inst)) as [[router'|e]|]; try done.
    injection Hmount as <- <-. by rewrite Hn.
  - intros Hno. rewrite <- (mounts_of_entries routes w Hok). apply Hall.
    intros [r inst] e Hri. apply getEnabled_entry in Hri as (Hst & k & Hk & Hlk).
    by eapply Hno.
  - intros e He. destruct (Hthrow e He) as ([r inst] & Hri & Hr).
    apply getEnabled_entry in Hri as (Hst & k & Hk & Hlk). by exists k, r, inst.
Qed.

Lemma registerPluginRoutes_mounts_enabled_only_witness :
  ∃ w', registerPluginRoutes demo_routes [] demo_world =
          (Returned tt, [("/api/v1/auth", ["POST /login"; "POST /logout"])], w') ∧
        heap w' = heap demo_world ∧ plugins w' = plugins demo_world.
Proof.
  destruct (registerPluginRoutes_mounts_enabled_only demo_routes [] demo_world)
    as (res & added & w' & Hrun & Hh & Hp & _ & Hall & _).
  - split.
    + vm_compute. repeat constructor; intros H;
        repeat (apply elem_of_cons in H as [H|H]; [discriminate H|]);
        by apply elem_of_nil in H.
    + intros k r H. vm_compute in H.
      repeat (apply elem_of_cons in H as [H|H];
              [injection H as -> ->; eexists; split; reflexivity|]).
      by apply elem_of_nil in H.
  - destruct Hall as [-> ->].
    + intros k r inst e _ _ _. unfold demo_routes. by destruct (decide _).
    + exists w'. split; [exact Hrun|]. by split.
Defined.

(** ** A directory whose plugin loads but does not enable *)

(** X26: a directory reported as failed can leave its plugin registered.
    With [autoEnable], on a bus whose listeners never throw, when a
    directory holds a loadable package whose [onLoad] resolves (or is
    absent) and whose [onEnable] always rejects with a value [e] whose
    message can be read, the step of [loadAllPlugins] appends a failure: it
    is filed under the base name of the directory (not the name of the
    plugin) and carries the [PluginLifecycleError] of [onEnable] with that
    message; meanwhile the plugin stays registered, in state [error], and
    [plugin:loaded] has been emitted. *)
Theorem loadAllPlugins_failure_can_leave_plugin_registered
    fs this results dir w plug meta f e message :
  autoEnable this = true →
  quiet_bus w →
  (discovery (fs_package fs dir) (path_string dir)).1 = Returned (Some (plug, meta)) →
  (∀ g ctx t, pl_onLoad plug = Some g → g ctx t = None) →
  pl_onEnable plug = Some f → (∀ ctx t, f ctx t = Some e) →
  message_of e = Returned message →
  ∃ w' t,
    loadAllPlugins_step fs this results dir w =
      (Returned (results ++
                 [{| success := false; pluginName := path_basename dir;
                     error := Some (PluginLifecycleError (md_name meta) "onEnable"
                                      message) |}]), w') ∧
    pluginRegistry.get (md_name meta) w' =
      Some (length (heap w),
            {| plugin := plug; metadata := meta; context := createPluginContext meta;
               state := ERROR; path := dir |}) ∧
    trace w' = trace w ++ t ∧
    hooks_run t = hooks_defined (md_name meta) plug [onLoad; onEnable] ∧
    emitted t = [plugin_loaded (md_name meta) (md_version meta)].
Proof.
  intros Hauto Hq Hdisc HonLoad HonEnable Hrej Hmsg.
  destruct (discovery_logs (fs_package fs dir) (path_string dir) OpLoad) as (_ & Hdh & Hde).
  unfold loadAllPlugins_step, loadAllPlugins_try, try_catch. unfold bind at 1.
  rewrite loadPluginFromDirectory_eq, Hdisc.
  set (w1 := set_trace _ w).
  assert (Hq1 : quiet_bus w1) by (by eapply quiet_bus_subseteq; [|exact Hq]).
  unfold bind at 1. rewrite loadPlugin_eq. unfold loadPlugin_outcome.
  assert (Hload : ∀ t, hook_result (md_name meta) onLoad plug (createPluginContext meta) t
                       = None).
  { intros t. unfold hook_result. simpl.
    destruct (pl_onLoad plug) as [g|] eqn:Hg; [|done]. by apply HonLoad. }
  rewrite Hload. unfold emit_outcome.
  match goal with |- context [first_throw ?ev (listeners_of ?n ?w2)] =>
    change (listeners_of n w2) with (listeners_of n w1) end.
  rewrite quiet_first_throw by done.
  set (w3 := set_trace _ (after_emit _ _)).
  unfold bind at 1. rewrite Hauto.
  assert (Hget : pluginRegistry.get (md_name meta) w3 =
                   Some (length (heap w),
                         {| plugin := plug; metadata := meta;
                            context := createPluginContext meta;
                            state := LOADED; path := dir |})).
  { unfold pluginRegistry.get. simpl. rewrite JsMapFacts.get_set_eq. simpl.
    by rewrite lookup_last. }
  rewrite (enablePlugin_run _ _ _ _ Hget) by done.
  unfold transition_outcome. unfold hook_result at 1. simpl. rewrite HonEnable, Hrej.
  unfold rethrown. rewrite Hmsg.
  unfold log, record, modify, bind, ret, lift. simpl.
  eexists _, _. split; [done|]. simpl. split.
  { unfold pluginRegistry.get. simpl. rewrite JsMapFacts.get_set_eq. simpl.
    by rewrite list_lookup_alter_eq, lookup_last. }
  split.
  { rewrite <- !app_assoc. reflexivity. }
  autorewrite with history. rewrite Hdh, Hde. unfold hooks_defined, hook_items. simpl.
  rewrite HonEnable. destruct (pl_onLoad plug); done.
Qed.

Lemma loadAllPlugins_failure_can_leave_plugin_registered_witness :
  ∃ w',
    loadAllPlugins_step demo_fs demo_loader [] ["plugins"; "search"] empty_world =
      (Returned [{| success := false; pluginName := "search";
                    error := Some (PluginLifecycleError "search" "onEnable"
                                     (Some "index missing")) |}], w') ∧
    state_of "search" w' = Some ERROR.
Proof.
  destruct (loadAllPlugins_failure_can_leave_plugin_registered demo_fs demo_loader []
              ["plugins"; "search"] empty_world fragile
              {| md_name := "search"; md_version := "3.1.0"; md_description := None;
                 md_enabled := true; md_author := None |}
              (rejecting "index missing") (JsError "index missing")
              (Some "index missing"))
    as (w' & t & Hrun & Hget & _).
  - reflexivity.
  - intros kl Hkl. by apply elem_of_nil in Hkl.
  - reflexivity.
  - intros g ctx t. simpl. done.
  - reflexivity.
  - reflexivity.
  - reflexivity.
  - exists w'. split; [exact Hrun|].
    exact (f_equal (λ o, ri ← o; Some (state ri.2)) Hget).
Defined.

Example registerPluginRoutes_demo :
  (registerPluginRoutes demo_routes [] demo_world).1 =
    (Returned tt, [("/api/v1/auth", ["POST /login"; "POST /logout"])]).
Proof. reflexivity. Qed.
